(** * Prime Number Layer System: a shallow embedding of [layer_system.py]

    The numeric core of the program is embedded function by function:
    the sieve, the two sequence builders, the decomposition engine
    ([LayerSystem._compute_layers]), the two verification routines
    ([verify_bijection], [calculate_constant]), the analysis by magnitude
    ([analyze_ratio]), the lookup ([get_decomposition]) and the rows of
    [export_csv].

    Modelling conventions.
    - Python [int] is [Z].  Python lists are Rocq lists, indexed with
      Python's rules (negative indices wrap, out of range raises).
    - Python exceptions are the [Raise] results of the [result] monad;
      [while] loops take a fuel argument and return [OutOfFuel] when it
      is exhausted.
    - Python [set] is stdpp's [gset Z]; the program only ever inserts
      into it and tests membership.
    - [int(x ** 0.5)] is [Z.sqrt x] and [int(x * 1.5)] is
      [Z.quot (3 * x) 2]: both float computations are exact for the
      integers below 2^52 the program can hold in memory.
    - [a / b] on integers is IEEE binary64 division ([PrimFloat]) of the
      converted operands, which is what Python computes when both are
      below 2^53 in absolute value: the conversions are then exact and the
      quotient is rounded once.  Beyond that range Python rounds the exact
      quotient and the model does not; the primes of a constructed system
      are far below it, and the statements about the ratio on arbitrary
      integers carry the bound.
    - [math.log] has no executable counterpart: the sieve bound estimate
      is a parameter of [generate_primes], and [calculate_constant] and
      [analyze_ratio] are modelled over the real numbers.  The real
      numbers round nothing and overflow nowhere, whereas Python raises
      [OverflowError] when the quotient of [int / int] or the result of
      [float ** 2] exceeds the float range.  The statements about these
      two functions on arbitrary records therefore bound the primes by
      2^53, and prove that the quotients and the squares then stay far
      inside that range. *)

From Stdlib Require Import ZArith Znumtheory Lia List Bool.
From Stdlib Require Import Floats.
From Stdlib Require Import Reals Lra.
From stdpp Require Import gmap list list_numbers sorting.

#[local] Open Scope Z_scope.

(** ** Results of Python computations *)

Inductive exn : Type :=
  | ZeroDivisionError
  | ValueError
  | IndexError.

Inductive result (A : Type) : Type :=
  | Ok (a : A)
  | Raise (e : exn)
  | OutOfFuel.

Arguments Ok {A} a.
Arguments Raise {A} e.
Arguments OutOfFuel {A}.

#[global] Instance result_ret : MRet result := fun _ a => Ok a.
#[global] Instance result_bind : MBind result := fun _ _ f m =>
  match m with
  | Ok a => f a
  | Raise e => Raise e
  | OutOfFuel => OutOfFuel
  end.
#[global] Instance result_fmap : FMap result := fun _ _ f m =>
  match m with
  | Ok a => Ok (f a)
  | Raise e => Raise e
  | OutOfFuel => OutOfFuel
  end.

(** A [for] loop whose body may raise: the state is threaded left to
    right through the items. *)
Fixpoint foldM {A B : Type} (body : B -> A -> result B) (items : list A) (b : B)
  : result B :=
  match items with
  | [] => Ok b
  | x :: items' => b' ← body b x; foldM body items' b'
  end.

(** A list comprehension [[x for x in items if cond(x)]] whose condition
    may raise. *)
Fixpoint filterM {A : Type} (cond : A -> result bool) (items : list A)
  : result (list A) :=
  match items with
  | [] => Ok []
  | x :: items' =>
      b ← cond x;
      rest ← filterM cond items';
      Ok (if b : bool then x :: rest else rest)
  end.

(** ** Python lists and ranges *)

(** Position denoted by the Python index [j] in a list of length [len]. *)
Definition py_index (len : nat) (j : Z) : result nat :=
  let n := Z.of_nat len in
  if (0 <=? j) && (j <? n) then Ok (Z.to_nat j)
  else if (- n <=? j) && (j <? 0) then Ok (Z.to_nat (j + n))
  else Raise IndexError.

(** [l[j]] *)
Definition getitem {A : Type} (l : list A) (j : Z) : result A :=
  i ← py_index (length l) j;
  match l !! i with
  | Some x => Ok x
  | None => Raise IndexError
  end.

(** [l[j] = v] *)
Definition setitem {A : Type} (l : list A) (j : Z) (v : A) : result (list A) :=
  i ← py_index (length l) j;
  Ok (<[i := v]> l).

(** [range(start, stop, step)] for a positive [step]. *)
Definition py_range (start stop step : Z) : list Z :=
  (fun t => start + step * t) <$> seqZ 0 ((stop - start + step - 1) / step).

(** [len(l)] *)
Definition len {A : Type} (l : list A) : Z := Z.of_nat (length l).

(** [int(x ** 0.5)] *)
Definition isqrt (x : Z) : Z := Z.sqrt x.

(** ** Sieve of Eratosthenes *)

(** The inner loop [for j in range(i * i, limit + 1, i): is_prime[j] = False]. *)
Definition cross_out (limit i : Z) (is_prime : list bool) : result (list bool) :=
  foldM (fun is_prime j => setitem is_prime j false)
        (py_range (i * i) (limit + 1) i) is_prime.

(** One iteration of the outer loop. *)
Definition sieve_step (limit : Z) (is_prime : list bool) (i : Z)
  : result (list bool) :=
  b ← getitem is_prime i;
  if b : bool then cross_out limit i is_prime else Ok is_prime.

Definition sieve_of_eratosthenes (limit : Z) : result (list Z) :=
  if limit <? 2 then Ok []
  else
    let is_prime := replicate (Z.to_nat (limit + 1)) true in
    is_prime ← setitem is_prime 0 false;
    is_prime ← setitem is_prime 1 false;
    is_prime ← foldM (sieve_step limit) (py_range 2 (isqrt limit + 1) 1) is_prime;
    filterM (getitem is_prime) (py_range 2 (limit + 1) 1).

(** ** Prime sequence builder *)

(** [int(limit * 1.5)] *)
Definition grow (limit : Z) : Z := Z.quot (3 * limit) 2.

(** The retry loop [while len(primes) < n]; its state is [(limit, primes)]. *)
Fixpoint grow_loop (fuel : nat) (n limit : Z) (primes : list Z)
  : result (Z * list Z) :=
  match fuel with
  | O => OutOfFuel
  | S fuel' =>
      if len primes <? n then
        let limit := grow limit in
        primes ← sieve_of_eratosthenes limit;
        grow_loop fuel' n limit primes
      else Ok (limit, primes)
  end.

Section PrimeSequence.

(** [log_bound n] stands for
    [int(n * (math.log(n) + math.log(math.log(n)) + 2))]. *)
Variable log_bound : Z -> Z.

Definition generate_primes (fuel : nat) (n : Z) : result (list Z) :=
  if n <=? 0 then Ok []
  else
    let limit := if n <? 6 then 15 else log_bound n in
    primes ← sieve_of_eratosthenes limit;
    '(_, primes) ← grow_loop fuel n limit primes;
    Ok (take (Z.to_nat n) primes).

End PrimeSequence.

(** ** Composite sequence builder *)

(** The [for ... else] scan over odd trial divisors: [true] when the loop
    breaks on a divisor, [false] when it runs to its [else] clause. *)
Fixpoint odd_divisor_scan (num : Z) (candidates : list Z) : bool :=
  match candidates with
  | [] => false
  | i :: candidates' =>
      if num mod i =? 0 then true else odd_divisor_scan num candidates'
  end.

(** The classification of one candidate inside [generate_composites]. *)
Definition is_composite (num : Z) : bool :=
  if num <? 2 then false
  else if num =? 2 then false
  else if num mod 2 =? 0 then true
  else odd_divisor_scan num (py_range 3 (isqrt num + 1) 2).

Fixpoint composites_loop (fuel : nat) (n : Z) (composites : list Z) (num : Z)
  : result (list Z) :=
  match fuel with
  | O => OutOfFuel
  | S fuel' =>
      if len composites <? n then
        let composites :=
          if is_composite num then composites ++ [num] else composites in
        composites_loop fuel' n composites (num + 1)
      else Ok composites
  end.

Definition generate_composites (fuel : nat) (n : Z) : result (list Z) :=
  if n <=? 0 then Ok [] else composites_loop fuel n [] 4.

(** ** Decomposition engine *)

(** The conversion of an integer to a float performed by [/]; it is exact
    below 2^53 in absolute value. *)
Definition float_of_Z (z : Z) : float :=
  if z <? 0 then PrimFloat.opp (PrimFloat.of_uint63 (Uint63.of_Z (- z)))
  else PrimFloat.of_uint63 (Uint63.of_Z z).

(** [a / b] on integers below 2^53 in absolute value: the quotient of the
    two floats. *)
Definition py_truediv (a b : Z) : result float :=
  if b =? 0 then Raise ZeroDivisionError
  else Ok (PrimFloat.div (float_of_Z a) (float_of_Z b)).

(** One decomposition record: the dictionary appended to [self.results]. *)
Record record : Type := mk_record {
  r_k : Z;
  r_prime : Z;
  r_void : Z;
  r_sum : Z;
  r_ratio : option float
}.

(** [enumerate(l, start)] *)
Fixpoint enumerate {A : Type} (l : list A) (start : Z) : list (Z * A) :=
  match l with
  | [] => []
  | x :: l' => (start, x) :: enumerate l' (start + 1)
  end.

(** The search [while v in endpoints: v += 1]. *)
Fixpoint find_void (fuel : nat) (endpoints : gset Z) (v : Z) : result Z :=
  match fuel with
  | O => OutOfFuel
  | S fuel' =>
      if bool_decide (v ∈ endpoints) then find_void fuel' endpoints (v + 1)
      else Ok v
  end.

(** The choice of the void of [p] and the update of the used endpoints. *)
Definition assign_void (fuel : nat) (endpoints : gset Z) (p : Z)
  : result (Z * gset Z) :=
  if p =? 2 then Ok (1, endpoints ∪ {[1; 2]})
  else if p =? 3 then Ok (2, endpoints ∪ {[2; 3]})
  else
    v ← find_void fuel endpoints 1;
    Ok (v, {[p]} ∪ ({[v]} ∪ endpoints)).

(** The body of the loop of [_compute_layers]; the state is the pair of
    the local [endpoints] and of [self.results]. *)
Definition layer_step (fuel : nat) (st : gset Z * list record) (kp : Z * Z)
  : result (gset Z * list record) :=
  let '(endpoints, results) := st in
  let '(k, p) := kp in
  '(v, endpoints) ← assign_void fuel endpoints p;
  let s := p - v in
  ratio ← (if 0 <? s then Some <$> py_truediv p s else Ok None);
  Ok (endpoints, results ++ [mk_record k p v s ratio]).

(** The loop of [_compute_layers], with the final used-endpoints set. *)
Definition layers_run (fuel : nat) (primes : list Z)
  : result (gset Z * list record) :=
  foldM (layer_step fuel) (enumerate primes 1) (∅, []).

Definition _compute_layers (fuel : nat) (primes : list Z) : result (list record) :=
  snd <$> layers_run fuel primes.

Record LayerSystem : Type := mk_LayerSystem {
  n_primes : Z;
  primes : list Z;
  composites : list Z;
  results : list record
}.

Section Pipeline.

Variable log_bound : Z -> Z.

(** [LayerSystem.__init__] *)
Definition LayerSystem_init (fuel : nat) (n : Z) : result LayerSystem :=
  primes ← generate_primes log_bound fuel n;
  composites ← generate_composites fuel n;
  results ← _compute_layers fuel primes;
  Ok (mk_LayerSystem n primes composites results).

End Pipeline.

(** ** Verification of the bijection *)

Record mismatch : Type := mk_mismatch {
  m_k : Z;
  m_void : Z;
  m_expected : Z
}.

Record verification : Type := mk_verification {
  total : Z;
  matches : Z;
  accuracy : float;
  mismatches : list mismatch
}.

(** The body of the loop of [verify_bijection] over [(matches, mismatches)]. *)
Definition bijection_step (composites : list Z) (st : Z * list mismatch)
  (r : record) : result (Z * list mismatch) :=
  let '(matches, mismatches) := st in
  let k := r_k r in
  let v := r_void r in
  if 3 <=? k then
    expected_composite ← getitem composites (k - 3);
    if v =? expected_composite then Ok (matches + 1, mismatches)
    else Ok (matches, mismatches ++ [mk_mismatch k v expected_composite])
  else Ok (matches, mismatches).

Definition verify_bijection (self : LayerSystem) : result verification :=
  '(matches, mismatches) ←
    foldM (bijection_step (composites self)) (results self) (0, []);
  let total := len (List.filter (fun r => 3 <=? r_k r) (results self)) in
  accuracy ← (if 0 <? total then py_truediv (100 * matches) total
              else Ok 0%float);
  Ok (mk_verification total matches accuracy mismatches).

(** ** The empirical constant *)

(** [math.log(x)] *)
Definition py_log (x : R) : result R :=
  if Rlt_dec 0 x then Ok (ln x) else Raise ValueError.

(** [math.sqrt(x)] *)
Definition py_sqrt (x : R) : result R :=
  if Rlt_dec x 0 then Raise ValueError else Ok (sqrt x).

(** [x / y] with a float result, over the reals, for a quotient inside the
    float range. *)
Definition py_fdiv (x y : R) : result R :=
  if Req_dec_T y 0 then Raise ZeroDivisionError else Ok (x / y)%R.

(** [sum(xs)] *)
Definition py_sum (xs : list R) : R := fold_left Rplus xs 0%R.

(** The body of the loop of [calculate_constant] over [constants]. *)
Definition constant_step (min_prime : Z) (constants : list R) (r : record)
  : result (list R) :=
  let p := r_prime r in
  let s := r_sum r in
  if (min_prime <? p) && (0 <? s) then
    ln_p ← py_log (IZR p);
    ln_ln_p ← py_log ln_p;
    q ← py_fdiv (IZR p) (IZR s);
    let ratio_minus_1 := (q - 1)%R in
    let c := (ratio_minus_1 * ln_p * ln_ln_p)%R in
    Ok (constants ++ [c])
  else Ok constants.

(** The list [constants] once the loop is over. *)
Definition collect_constants (self : LayerSystem) (min_prime : Z)
  : result (list R) :=
  foldM (constant_step min_prime) (results self) [].

(** The local [avg_constant]. *)
Definition average (constants : list R) : result R :=
  py_fdiv (py_sum constants) (IZR (len constants)).

(** The local [std_dev], which is printed and not returned; over the
    reals, for squares inside the float range. *)
Definition std_dev (constants : list R) (avg_constant : R) : result R :=
  q ← py_fdiv (py_sum (map (fun c => ((c - avg_constant) ^ 2)%R) constants))
              (IZR (len constants));
  py_sqrt q.

Definition calculate_constant (self : LayerSystem) (min_prime : Z) : result R :=
  constants ← collect_constants self min_prime;
  match constants with
  | [] => Ok 0%R
  | _ :: _ =>
      avg_constant ← average constants;
      _ ← std_dev constants avg_constant;
      Ok avg_constant
  end.

(** ** Reference notions of the specification *)

#[global] Instance prime_decision (p : Z) : Decision (Z.prime p) :=
  match prime_dec p with
  | left H => left (proj2 (prime_alt p) H)
  | right H => right (fun H' => H (proj1 (prime_alt p) H'))
  end.

(** A composite is an integer from 4 on that is not prime. *)
Definition composite (c : Z) : Prop := 4 <= c /\ ~ Z.prime c.

(** All primes up to [limit], in increasing order. *)
Definition primes_upto (limit : Z) : list Z :=
  filter Z.prime (seqZ 2 (limit - 1)).

(** All composites below [bound], in increasing order. *)
Definition composites_below (bound : Z) : list Z :=
  filter composite (seqZ 4 (bound - 4)).

(** [l] holds, in increasing order, the [n] least integers that satisfy [P]. *)
Definition first_of (P : Z -> Prop) (n : Z) (l : list Z) : Prop :=
  length l = Z.to_nat n
  /\ StronglySorted Z.lt l
  /\ (forall x, x ∈ l -> P x)
  /\ (forall x y, x ∈ l -> P y -> y < x -> y ∈ l).

(** A computation returns a value satisfying [P]: from some amount of
    fuel on, it returns that one value. *)
Definition returns {A : Type} (run : nat -> result A) (P : A -> Prop) : Prop :=
  exists a : A, P a /\ exists fuel0 : nat, forall fuel : nat,
    (fuel0 <= fuel)%nat -> run fuel = Ok a.

(** More fuel never changes a value already returned. *)
Definition fuel_mono {A : Type} (run : nat -> result A) : Prop :=
  forall (fuel fuel' : nat) (a : A),
    (fuel <= fuel')%nat -> run fuel = Ok a -> run fuel' = Ok a.

(** A result that is not an exception: a value, or a loop that is still
    running. *)
Definition no_raise {A : Type} (r : result A) : Prop :=
  forall e : exn, r <> Raise e.

(** The integers claimed so far as a void or as a prime by [recs]. *)
Definition used_endpoints (recs : list record) : gset Z :=
  list_to_set (r_void <$> recs) ∪ list_to_set (r_prime <$> recs).

(** [v] is the smallest positive integer that is not in [endpoints]. *)
Definition least_unused (endpoints : gset Z) (v : Z) : Prop :=
  1 <= v /\ (v ∉ endpoints) /\ (forall u, 1 <= u < v -> u ∈ endpoints).

(** The void rule: the voids of 2 and 3 are fixed, every other void is
    the smallest unused positive integer. *)
Inductive assigns (endpoints : gset Z) : Z -> Z -> Prop :=
  | assigns_two : assigns endpoints 2 1
  | assigns_three : assigns endpoints 3 2
  | assigns_search (p v : Z) :
      p <> 2 -> p <> 3 -> least_unused endpoints v -> assigns endpoints p v.

(** The [ratio] field of the record of prime [p] with void [v]. *)
Definition ratio_of (p v : Z) : option float :=
  if 0 <? p - v then Some (PrimFloat.div (float_of_Z p) (float_of_Z (p - v)))
  else None.

(** The records the engine appends when it starts with the used
    endpoints [endpoints] at rank [k] on the primes [ps]. *)
Inductive layers_trace : gset Z -> Z -> list Z -> list record -> Prop :=
  | trace_nil (endpoints : gset Z) (k : Z) : layers_trace endpoints k [] []
  | trace_cons (endpoints : gset Z) (k p v : Z) (ps : list Z) (recs : list record) :
      assigns endpoints p v ->
      layers_trace (endpoints ∪ {[v; p]}) (k + 1) ps recs ->
      layers_trace endpoints k (p :: ps)
        (mk_record k p v (p - v) (ratio_of p v) :: recs).

(** Invariant of the outer loop of the sieve once every [i < m] has been
    processed: a crossed-out index is never prime, and every index with a
    prime divisor [d < m] such that [d * d <= j] is crossed out. *)
Definition sieve_inv (limit m : Z) (is_prime : list bool) : Prop :=
  length is_prime = Z.to_nat (limit + 1)
  /\ (forall j, 0 <= j -> is_prime !! Z.to_nat j = Some false -> ~ Z.prime j)
  /\ (forall j d, 0 <= j <= limit -> Z.prime d -> d < m -> (d | j) -> d * d <= j ->
        is_prime !! Z.to_nat j = Some false).

(** The composite [verify_bijection] expects for the record [r]. *)
Definition expected_composite (composites : list Z) (r : record) : Z :=
  default 0 (composites !! Z.to_nat (r_k r - 3)).

(** The records [verify_bijection] considers: those of rank 3 and more. *)
Definition considered (r : record) : bool := 3 <=? r_k r.

Definition is_match (composites : list Z) (r : record) : bool :=
  r_void r =? expected_composite composites r.

Definition mismatch_of (composites : list Z) (r : record) : mismatch :=
  mk_mismatch (r_k r) (r_void r) (expected_composite composites r).

(** The records whose constant [calculate_constant] computes. *)
Definition qualifies (min_prime : Z) (r : record) : bool :=
  (min_prime <? r_prime r) && (0 <? r_sum r).

(** The constant [c = ((prime / sum) - 1) * ln(prime) * ln(ln(prime))]. *)
Definition constant_of (r : record) : R :=
  ((IZR (r_prime r) / IZR (r_sum r) - 1)
   * ln (IZR (r_prime r)) * ln (ln (IZR (r_prime r))))%R.

(** Two record lists on which [calculate_constant] is compared: the
    constants of the first are opposite, the constant of the second is 0. *)
Definition skewed_system : LayerSystem :=
  mk_LayerSystem 2 [1009; 1009] []
    [mk_record 1 1009 504 505 (ratio_of 1009 504);
     mk_record 2 1009 (-508536) 509545 (ratio_of 1009 (-508536))].

Definition flat_system : LayerSystem :=
  mk_LayerSystem 1 [1009] [] [mk_record 1 1009 0 1009 (ratio_of 1009 0)].

(** The system built from the first 10 primes. *)
Definition system_of_10 : LayerSystem :=
  Eval vm_compute in
    match LayerSystem_init (fun _ => 51) 30 10 with
    | Ok self => self
    | _ => mk_LayerSystem 0 [] [] []
    end.

(** The sieve bound estimate over the real numbers:
    [int(n * (math.log(n) + math.log(math.log(n)) + 2))]. *)
Definition log_bound_real (n : Z) : Z :=
  Int_part (IZR n * (ln (IZR n) + ln (ln (IZR n)) + 2))%R.

(** ** Lookup of a decomposition *)

(** [LayerSystem.get_decomposition]: the record of the [k]-th prime, or
    [None]. *)
Definition get_decomposition (self : LayerSystem) (k : Z) : result (option record) :=
  if (1 <=? k) && (k <=? len (results self))
  then Some <$> getitem (results self) (k - 1)
  else Ok None.

(** ** Export *)

(** The [bijection_match] column: the strings ['YES'], ['N/A'] and ['NO']. *)
Inductive match_flag : Type :=
  | YES
  | NA
  | NO.

(** One data row of the CSV file.  [c_ratio] is the float that is written
    with six decimals and [c_composite] the integer of the [C_k-2] column;
    [None] stands for the empty string in both. *)
Record csv_row : Type := mk_csv_row {
  c_k : Z;
  c_prime : Z;
  c_void : Z;
  c_sum : Z;
  c_ratio : option float;
  c_composite : option Z;
  c_match : match_flag
}.

(** Truth value of a float or [None]: [None] and zero are false. *)
Definition truthy_float (o : option float) : bool :=
  match o with
  | Some f => negb (PrimFloat.eqb f 0%float)
  | None => false
  end.

(** Truth value of an integer or [None]. *)
Definition truthy_int (o : option Z) : bool :=
  match o with
  | Some z => negb (z =? 0)
  | None => false
  end.

(** [r['void'] == c_k2], where [c_k2] may be [None]. *)
Definition void_is (r : record) (c_k2 : option Z) : bool :=
  match c_k2 with
  | Some c => r_void r =? c
  | None => false
  end.

(** The row [export_csv] writes for the record [r]. *)
Definition csv_row_of (composites : list Z) (r : record) : result csv_row :=
  let k := r_k r in
  c_k2 ← (if 3 <=? k then Some <$> getitem composites (k - 3) else Ok None);
  let match_ :=
    if (3 <=? k) && void_is r c_k2 then YES
    else if k <? 3 then NA
    else NO in
  Ok (mk_csv_row (r_k r) (r_prime r) (r_void r) (r_sum r)
        (if truthy_float (r_ratio r) then r_ratio r else None)
        (if truthy_int c_k2 then c_k2 else None)
        match_).

(** The data rows [export_csv] writes after the header, in order. *)
Definition export_csv (self : LayerSystem) : result (list csv_row) :=
  foldM (fun rows r => row ← csv_row_of (composites self) r; Ok (rows ++ [row]))
        (results self) [].

(** ** Analysis by magnitude *)

Definition CUNHA_CONSTANT : R := (2 + sqrt 2)%R.

Definition magnitudes : list Z := [100; 500; 1000; 5000; 10000; 50000; 100000].

(** One dictionary of the list returned by [analyze_ratio]. *)
Record magnitude_entry : Type := mk_magnitude_entry {
  a_k : Z;
  a_avg_prime : R;
  a_constant : R;
  a_error : R
}.

(** [r['k'] >= mag * 0.9 and r['k'] <= mag], the product taken over the
    real numbers. *)
Definition in_window (mag : Z) (r : record) : bool :=
  (if Rle_dec (IZR mag * (9 / 10)) (IZR (r_k r)) then true else false)
  && (r_k r <=? mag).

(** The body of the inner loop of [analyze_ratio] over [constants]. *)
Definition window_constant_step (constants : list R) (r : record)
  : result (list R) :=
  let p := r_prime r in
  let s := r_sum r in
  if (0 <? s) && (10 <? p) then
    ln_p ← py_log (IZR p);
    ln_ln_p ← py_log ln_p;
    q ← py_fdiv (IZR p) (IZR s);
    let c := ((q - 1) * ln_p * ln_ln_p)%R in
    Ok (constants ++ [c])
  else Ok constants.

(** The body of the outer loop of [analyze_ratio] over [analysis]; over
    the reals, for quotients inside the float range. *)
Definition analyze_step (self : LayerSystem) (analysis : list magnitude_entry)
  (mag : Z) : result (list magnitude_entry) :=
  if n_primes self <? mag then Ok analysis
  else
    let relevant := List.filter (in_window mag) (results self) in
    match relevant with
    | [] => Ok analysis
    | _ :: _ =>
        avg_p ← py_fdiv (IZR (fold_left Z.add (map r_prime relevant) 0))
                        (IZR (len relevant));
        constants ← foldM window_constant_step relevant [];
        match constants with
        | [] => Ok analysis
        | _ :: _ =>
            avg_c ← py_fdiv (py_sum constants) (IZR (len constants));
            error ← py_fdiv (100 * Rabs (avg_c - CUNHA_CONSTANT)) CUNHA_CONSTANT;
            Ok (analysis ++ [mk_magnitude_entry mag avg_p avg_c error])
        end
    end.

Definition analyze_ratio (self : LayerSystem) : result (list magnitude_entry) :=
  foldM (analyze_step self) magnitudes [].

(** * Properties *)

(** ** The result monad *)

Lemma bind_Ok {A B : Type} (a : A) (f : A -> result B) : (Ok a ≫= f) = f a.
Proof. done. Qed.

Lemma foldM_app {A B : Type} (body : B -> A -> result B) (l1 l2 : list A) (b : B) :
  foldM body (l1 ++ l2) b = (b' ← foldM body l1 b; foldM body l2 b').
Proof.
  revert b. induction l1 as [|x l1 IH]; intros b; simpl; [done|].
  destruct (body b x) as [b'| |]; simpl; auto.
Qed.

(** Invariant rule for [for] loops: the invariant is indexed by the
    items already processed. *)
Lemma foldM_invariant {A B : Type} (Inv : list A -> B -> Prop)
  (body : B -> A -> result B) (items : list A) (b : B) :
  Inv [] b ->
  (forall done x rest b, items = done ++ x :: rest -> Inv done b ->
     exists b', body b x = Ok b' /\ Inv (done ++ [x]) b') ->
  exists b', foldM body items b = Ok b' /\ Inv items b'.
Proof.
  intros Hinit Hstep.
  assert (Hgen : forall rest done b, items = done ++ rest -> Inv done b ->
            exists b', foldM body rest b = Ok b' /\ Inv items b').
  { induction rest as [|x rest IH]; intros done b0 Heq Hinv; simpl.
    - exists b0. rewrite app_nil_r in Heq. by subst.
    - destruct (Hstep done x rest b0 Heq Hinv) as (b1 & -> & Hinv1). simpl.
      apply (IH (done ++ [x])); [|done]. by rewrite <- app_assoc. }
  by apply (Hgen items []).
Qed.

Lemma filterM_ok {A : Type} (cond : A -> result bool) (P : A -> Prop)
  `{forall x, Decision (P x)} (items : list A) :
  (forall x, x ∈ items -> cond x = Ok (bool_decide (P x))) ->
  filterM cond items = Ok (filter P items).
Proof.
  induction items as [|x items IH]; intros Hc; simpl; [done|].
  rewrite Hc by left. simpl. rewrite IH by (intros; apply Hc; by right). simpl.
  rewrite filter_cons. by case_bool_decide; case_decide.
Qed.

(** ** Python lists and ranges *)

Lemma py_index_ok (n : nat) (j : Z) :
  0 <= j < Z.of_nat n -> py_index n j = Ok (Z.to_nat j).
Proof.
  intros Hj. unfold py_index.
  destruct (Z.leb_spec 0 j), (Z.ltb_spec j (Z.of_nat n)); simpl; done || lia.
Qed.

Lemma getitem_ok {A : Type} (l : list A) (j : Z) (x : A) :
  0 <= j -> l !! Z.to_nat j = Some x -> getitem l j = Ok x.
Proof.
  intros Hj Hx. unfold getitem. rewrite py_index_ok; simpl.
  - by rewrite Hx.
  - apply lookup_lt_Some in Hx. lia.
Qed.

Lemma setitem_ok {A : Type} (l : list A) (j : Z) (v : A) :
  0 <= j < len l -> setitem l j v = Ok (<[Z.to_nat j := v]> l).
Proof. intros Hj. unfold setitem. by rewrite py_index_ok. Qed.

Lemma py_range_unit (start stop : Z) :
  py_range start stop 1 = seqZ start (stop - start).
Proof.
  unfold py_range. rewrite Z.div_1_r.
  replace (stop - start + 1 - 1) with (stop - start) by lia.
  replace (seqZ start (stop - start))
    with (seqZ (start + 0) (stop - start)) by (f_equal; lia).
  rewrite <- fmap_add_seqZ. apply list_fmap_ext. intros; lia.
Qed.

Lemma elem_of_py_range (start stop step x : Z) :
  0 < step ->
  x ∈ py_range start stop step <->
  exists t, 0 <= t /\ x = start + step * t /\ x < stop.
Proof.
  intros Hstep. unfold py_range. rewrite list_elem_of_fmap.
  setoid_rewrite elem_of_seqZ.
  split.
  - intros (t & -> & Ht). exists t. split; [lia|]. split; [done|].
    assert (t < (stop - start + step - 1) / step) as Hlt by lia.
    apply Z.lt_le_pred in Hlt.
    assert (step * t <= step * Z.pred ((stop - start + step - 1) / step)) by nia.
    pose proof (Z.mul_div_le (stop - start + step - 1) step Hstep). lia.
  - intros (t & Ht & -> & Hlt). exists t. split; [done|]. split; [lia|].
    enough (t + 1 <= (stop - start + step - 1) / step) by lia.
    apply Z.div_le_lower_bound; [done|]. nia.
Qed.

(** ** Elementary number theory *)

Lemma not_prime_divisor (n : Z) :
  1 < n -> ~ Z.prime n -> exists d, 1 < d < n /\ (d | n).
Proof.
  intros Hn Hnp. apply not_prime_divide; [done|]. by rewrite <- prime_alt.
Qed.

Lemma prime_divisor (n : Z) : 1 < n -> exists p, Z.prime p /\ (p | n).
Proof.
  assert (Hn : 0 <= n \/ n < 0) by lia. destruct Hn as [Hn|Hn]; [|lia].
  revert n Hn. apply (Z_lt_induction (fun n => 1 < n -> exists p, Z.prime p /\ (p | n))).
  intros n IH Hn.
  destruct (decide (Z.prime n)) as [Hp|Hnp].
  - exists n. split; [done|]. apply Z.divide_refl.
  - destruct (not_prime_divisor n Hn Hnp) as (d & Hd & Hdn).
    destruct (IH d) as (p & Hp & Hpd); [lia..|].
    exists p. split; [done|]. by apply Z.divide_trans with d.
Qed.

Lemma prime_divisor_le (p n : Z) : 0 < n -> (p | n) -> p <= n.
Proof. intros Hn Hd. by apply Z.divide_pos_le. Qed.

(** A number that is not prime has a prime divisor below its square root. *)
Lemma small_prime_divisor (n : Z) :
  1 < n -> ~ Z.prime n -> exists p, Z.prime p /\ (p | n) /\ p * p <= n.
Proof.
  intros Hn Hnp.
  destruct (not_prime_divisor n Hn Hnp) as (d & Hd & (q & Hq)).
  assert (1 < q) by nia.
  destruct (Z.le_gt_cases d q).
  - destruct (prime_divisor d) as (p & Hp & Hpd); [lia|].
    exists p. split; [done|]. split.
    + apply Z.divide_trans with d; [done|]. exists q. lia.
    + pose proof (prime_divisor_le p d ltac:(lia) Hpd).
      pose proof (Z.prime_ge_2 p Hp). nia.
  - destruct (prime_divisor q) as (p & Hp & Hpq); [lia|].
    exists p. split; [done|]. split.
    + apply Z.divide_trans with q; [done|]. exists d. lia.
    + pose proof (prime_divisor_le p q ltac:(lia) Hpq).
      pose proof (Z.prime_ge_2 p Hp). nia.
Qed.

Lemma divide_fact (n k : nat) : (1 <= k <= n)%nat -> (Z.of_nat k | Z.of_nat (fact n)).
Proof.
  induction n as [|n IH]; intros Hk; [lia|].
  change (fact (S n)) with (S n * fact n)%nat. rewrite Nat2Z.inj_mul.
  destruct (decide (k = S n)) as [->|Hne].
  - apply Z.divide_factor_l.
  - apply Z.divide_mul_r, IH. lia.
Qed.

(** Euclid: there is a prime above every bound. *)
Lemma primes_unbounded (m : Z) : exists p, Z.prime p /\ m < p.
Proof.
  set (k := Z.to_nat m).
  pose proof (lt_O_fact k) as Hfact.
  destruct (prime_divisor (Z.of_nat (fact k) + 1)) as (p & Hp & Hpd); [lia|].
  exists p. split; [done|].
  destruct (Z.lt_ge_cases m p) as [|Hle]; [done|exfalso].
  pose proof (Z.prime_ge_2 p Hp).
  assert (Hpf : (p | Z.of_nat (fact k))).
  { replace p with (Z.of_nat (Z.to_nat p)) by lia. apply divide_fact. lia. }
  assert (Hp1 : (p | 1)).
  { replace 1 with (Z.of_nat (fact k) + 1 - Z.of_nat (fact k)) by lia.
    by apply Z.divide_sub_r. }
  apply Z.divide_1_r_nonneg in Hp1; lia.
Qed.

Lemma prime_odd (p : Z) : Z.prime p -> 2 < p -> p mod 2 = 1.
Proof.
  intros [Hp1 Hp] Hp2.
  pose proof (Z.mod_pos_bound p 2 ltac:(lia)).
  destruct (decide (p mod 2 = 0)) as [H0|]; [|lia].
  exfalso. apply (Hp 2); [lia|]. by apply Z.mod_divide.
Qed.

(** Two odd primes are at least two apart. *)
Lemma prime_gap (p q : Z) : Z.prime p -> Z.prime q -> 2 < p -> p < q -> p + 2 <= q.
Proof.
  intros Hp Hq Hp2 Hpq.
  pose proof (prime_odd p Hp Hp2). pose proof (prime_odd q Hq ltac:(lia)).
  destruct (decide (q = p + 1)) as [->|]; [|lia].
  rewrite <- Zplus_mod_idemp_l in H0. rewrite H in H0. done.
Qed.

(** ** The sieve *)

Lemma seqZ_split_at (a n : Z) (done rest : list Z) (x : Z) :
  seqZ a n = done ++ x :: rest ->
  x = a + Z.of_nat (length done) /\ done = seqZ a (Z.of_nat (length done))
  /\ Z.of_nat (length done) < n.
Proof.
  intros Heq.
  assert (Hx : seqZ a n !! length done = Some x).
  { rewrite Heq. by rewrite list_lookup_middle. }
  apply lookup_seqZ in Hx as [-> Hlt]. split; [done|]. split; [|done].
  apply list_eq. intros i.
  destruct (decide (i < length done)%nat) as [Hi|Hi].
  - rewrite lookup_seqZ_lt by lia.
    assert (Hl : seqZ a n !! i = (done ++ (a + Z.of_nat (length done)) :: rest) !! i)
      by (by rewrite Heq).
    rewrite lookup_app_l in Hl by done. rewrite <- Hl.
    by rewrite lookup_seqZ_lt by lia.
  - rewrite lookup_seqZ_ge by lia. apply lookup_ge_None. lia.
Qed.

(** The inner loop crosses out exactly the indices of its range. *)
Lemma cross_out_spec (limit i : Z) (is_prime : list bool) :
  0 < i -> length is_prime = Z.to_nat (limit + 1) ->
  exists is_prime',
    cross_out limit i is_prime = Ok is_prime'
    /\ length is_prime' = length is_prime
    /\ (forall j, 0 <= j ->
          (is_prime' !! Z.to_nat j = Some false <->
           is_prime !! Z.to_nat j = Some false
           \/ j ∈ py_range (i * i) (limit + 1) i)).
Proof.
  intros Hi Hlen. unfold cross_out.
  apply (foldM_invariant (fun done l =>
    length l = length is_prime
    /\ (forall j, 0 <= j ->
          (l !! Z.to_nat j = Some false <->
           is_prime !! Z.to_nat j = Some false \/ j ∈ done)))).
  - split; [done|]. intros j Hj. rewrite elem_of_nil. tauto.
  - intros done x rest l Heq [Hl Hinv].
    assert (Hx : x ∈ py_range (i * i) (limit + 1) i).
    { rewrite Heq. apply elem_of_app. right. left. }
    apply elem_of_py_range in Hx as (t & Ht & Hxt & Hxl); [|done].
    assert (0 <= x) by nia.
    exists (<[Z.to_nat x := false]> l). split.
    { apply setitem_ok. unfold len. lia. }
    split; [by rewrite length_insert|].
    intros j Hj. rewrite elem_of_app, list_elem_of_singleton.
    destruct (decide (j = x)) as [->|Hne].
    + rewrite list_lookup_insert_eq by lia. tauto.
    + rewrite list_lookup_insert_ne by lia. rewrite (Hinv j Hj). intuition.
Qed.

Lemma sieve_step_spec (limit i : Z) (is_prime : list bool) :
  2 <= i -> i * i <= limit -> sieve_inv limit i is_prime ->
  exists is_prime',
    sieve_step limit is_prime i = Ok is_prime' /\ sieve_inv limit (i + 1) is_prime'.
Proof.
  intros Hi Hsq (Hlen & Hfalse & Hmarked). unfold sieve_step.
  assert (Hil : i <= limit) by nia.
  destruct (lookup_lt_is_Some_2 is_prime (Z.to_nat i)) as [b Hb]; [lia|].
  rewrite (getitem_ok _ _ b) by (done || lia). simpl.
  destruct b.
  - destruct (cross_out_spec limit i is_prime) as (l' & -> & Hlen' & Hl');
      [lia|done|].
    exists l'. split; [done|]. split; [congruence|]. split.
    + intros j Hj Hf. apply (Hl' j Hj) in Hf as [Hold|Hnew]; [by apply Hfalse|].
      apply elem_of_py_range in Hnew as (t & Ht & -> & _); [|lia].
      intros [_ Hp]. apply (Hp i); [nia|]. exists (i + t). lia.
    + intros j d Hj Hd Hdm Hdj Hdd. apply (Hl' j ltac:(lia)).
      destruct (decide (d < i)) as [Hlt|Hge].
      * left. by apply (Hmarked j d).
      * right. assert (d = i) as -> by lia. destruct Hdj as [q ->].
        apply elem_of_py_range; [lia|]. exists (q - i).
        split; [nia|]. split; lia.
  - exists is_prime. split; [done|]. split; [done|]. split; [done|].
    intros j d Hj Hd Hdm Hdj Hdd.
    destruct (decide (d < i)) as [Hlt|Hge]; [by apply (Hmarked j d)|].
    assert (d = i) as -> by lia. exfalso. by apply (Hfalse i); [lia|..].
Qed.

(** The sieve returns exactly the primes up to its bound, in order. *)
Lemma sieve_of_eratosthenes_spec (limit : Z) :
  sieve_of_eratosthenes limit = Ok (primes_upto limit).
Proof.
  unfold sieve_of_eratosthenes, primes_upto.
  destruct (Z.ltb_spec limit 2) as [Hlt|Hge].
  { by rewrite seqZ_nil by lia. }
  set (l0 := replicate (Z.to_nat (limit + 1)) true).
  assert (Hlen0 : length l0 = Z.to_nat (limit + 1)) by apply length_replicate.
  rewrite setitem_ok, bind_Ok by (unfold len; lia).
  rewrite setitem_ok, bind_Ok by (unfold len; rewrite length_insert; lia).
  set (l2 := <[Z.to_nat 1 := false]> (<[Z.to_nat 0 := false]> l0)).
  assert (Hinv2 : sieve_inv limit 2 l2).
  { split; [by unfold l2; rewrite !length_insert|]. split.
    - intros j Hj Hf [Hj1 _].
      unfold l2 in Hf. rewrite !list_lookup_insert_ne in Hf by lia.
      unfold l0 in Hf. apply lookup_replicate in Hf as [? _]. done.
    - intros j d _ Hd Hd2. pose proof (Z.prime_ge_2 d Hd). lia. }
  clearbody l2. clear l0 Hlen0.
  pose proof (Z.sqrt_spec limit ltac:(lia)) as Hsqrt. cbv zeta in Hsqrt.
  pose proof (Z.sqrt_nonneg limit) as Hsqrt0.
  destruct (foldM_invariant
              (fun done l => sieve_inv limit (2 + Z.of_nat (length done)) l)
              (sieve_step limit) (py_range 2 (isqrt limit + 1) 1) l2)
    as (l & -> & Hinv).
  { by rewrite Z.add_0_r. }
  { intros done x rest l. rewrite py_range_unit.
    intros (-> & _ & Hlt)%seqZ_split_at Hl. unfold isqrt in Hlt.
    destruct (sieve_step_spec limit (2 + Z.of_nat (length done)) l)
      as (l' & Hl' & Hinv'); [lia| |done|].
    { apply Z.le_trans with (Z.sqrt limit * Z.sqrt limit); [|lia].
      apply Z.mul_le_mono_nonneg; lia. }
    exists l'. split; [done|].
    rewrite length_app. simpl.
    by replace (2 + Z.of_nat (length done + 1)) with (2 + Z.of_nat (length done) + 1) by lia. }
  simpl. rewrite py_range_unit, length_seqZ in Hinv. unfold isqrt in Hinv.
  destruct Hinv as (Hlen & Hfalse & Hmarked).
  rewrite py_range_unit. replace (limit + 1 - 2) with (limit - 1) by lia.
  apply filterM_ok. intros x [Hx1 Hx2]%elem_of_seqZ.
  destruct (lookup_lt_is_Some_2 l (Z.to_nat x)) as [b Hb]; [lia|].
  rewrite (getitem_ok _ _ b) by (done || lia). f_equal.
  destruct b.
  - symmetry. apply bool_decide_eq_true.
    destruct (decide (Z.prime x)) as [|Hnp]; [done|exfalso].
    destruct (small_prime_divisor x) as (d & Hd & Hdx & Hdd); [lia|done|].
    pose proof (Z.prime_ge_2 d Hd).
    assert (d <= Z.sqrt limit) by (apply Z.sqrt_le_square; lia).
    rewrite (Hmarked x d) in Hb; [done|lia|done|lia|done|done].
  - symmetry. apply bool_decide_eq_false. apply Hfalse; [lia|done].
Qed.

(** ** Increasing enumerations of a decidable set of integers *)

Lemma sorted_lookup_lt (l : list Z) (i j : nat) (x y : Z) :
  StronglySorted Z.lt l -> (i < j)%nat -> l !! i = Some x -> l !! j = Some y -> x < y.
Proof.
  intros Hs. revert i j. induction Hs as [|z l Hs IH Hall]; intros i j Hij Hi Hj.
  - by rewrite lookup_nil in Hi.
  - destruct j as [|j]; [lia|]. simpl in Hj. destruct i as [|i]; simpl in Hi.
    + injection Hi as ->. rewrite Forall_forall in Hall. apply Hall.
      by apply list_elem_of_lookup_2 in Hj.
    + apply (IH i j); [lia|done..].
Qed.

Lemma sorted_lookup_inv (l : list Z) (i j : nat) (x y : Z) :
  StronglySorted Z.lt l -> l !! i = Some x -> l !! j = Some y -> x < y -> (i < j)%nat.
Proof.
  intros Hs Hi Hj Hxy. destruct (decide (i < j)%nat) as [|Hge]; [done|exfalso].
  destruct (decide (i = j)) as [->|Hne]; [rewrite Hi in Hj; injection Hj; lia|].
  pose proof (sorted_lookup_lt l j i y x Hs ltac:(lia) Hj Hi). lia.
Qed.

Lemma sorted_take (l : list Z) (n : nat) :
  StronglySorted Z.lt l -> StronglySorted Z.lt (take n l).
Proof.
  intros Hs. revert n. induction Hs as [|z l Hs IH Hall]; intros [|n]; simpl;
    try constructor; [apply IH|].
  rewrite Forall_forall in *. intros x Hx. apply Hall.
  apply elem_of_take in Hx as (i & Hi & _). by apply list_elem_of_lookup_2 in Hi.
Qed.

Lemma sorted_seqZ (a n : Z) : StronglySorted Z.lt (seqZ a n).
Proof.
  destruct (Z.le_gt_cases n 0) as [Hn|Hn].
  { rewrite seqZ_nil by done. constructor. }
  rewrite <- (Z2Nat.id n) by lia. generalize (Z.to_nat n) as k. clear n Hn.
  intros k. revert a. induction k as [|k IH]; intros a.
  { rewrite seqZ_nil by done. constructor. }
  rewrite seqZ_cons by lia. constructor.
  - replace (Z.pred (Z.of_nat (S k))) with (Z.of_nat k) by lia. apply IH.
  - rewrite Forall_forall. intros x Hx%elem_of_seqZ. lia.
Qed.

Section Enumerations.

Context (P : Z -> Prop) `{forall x, Decision (P x)}.

Lemma sorted_filter (l : list Z) :
  StronglySorted Z.lt l -> StronglySorted Z.lt (filter P l).
Proof.
  induction 1 as [|z l Hs IH Hall]; [constructor|].
  rewrite filter_cons. case_decide; [|done]. constructor; [done|].
  rewrite Forall_forall in *. intros x [_ Hx]%list_elem_of_filter. by apply Hall.
Qed.

Lemma filter_seqZ_prefix (a n n' : Z) :
  n <= n' -> filter P (seqZ a n) `prefix_of` filter P (seqZ a n').
Proof.
  intros Hn. destruct (Z.le_gt_cases n 0) as [Hn0|Hn0].
  { rewrite (seqZ_nil a n) by done. apply prefix_nil. }
  replace n' with (n + (n' - n)) by lia. rewrite seqZ_app by lia.
  rewrite filter_app. by apply prefix_app_r.
Qed.

Lemma take_prefix_eq (l1 l2 : list Z) (n : nat) :
  l1 `prefix_of` l2 -> (n <= length l1)%nat -> take n l1 = take n l2.
Proof. intros [k ->] Hn. by rewrite take_app_le. Qed.

(** Whatever bound is long enough, the first [n] elements are the same. *)
Lemma take_filter_seqZ_stable (a len1 len2 : Z) (n : nat) :
  (n <= length (filter P (seqZ a len1)))%nat ->
  (n <= length (filter P (seqZ a len2)))%nat ->
  take n (filter P (seqZ a len1)) = take n (filter P (seqZ a len2)).
Proof.
  intros H1 H2. destruct (Z.le_ge_cases len1 len2).
  - by apply take_prefix_eq; [apply filter_seqZ_prefix|].
  - symmetry. by apply take_prefix_eq; [apply filter_seqZ_prefix|].
Qed.

Lemma take_filter_seqZ_first_of (a len n : Z) :
  (forall x, P x -> a <= x) ->
  (Z.to_nat n <= length (filter P (seqZ a len)))%nat ->
  first_of P n (take (Z.to_nat n) (filter P (seqZ a len))).
Proof.
  intros Ha Hn.
  assert (Hs : StronglySorted Z.lt (filter P (seqZ a len)))
    by apply sorted_filter, sorted_seqZ.
  split; [by apply length_take_le|]. split; [by apply sorted_take|]. split.
  - intros x (i & Hi & _)%elem_of_take.
    apply list_elem_of_lookup_2 in Hi. by apply list_elem_of_filter in Hi as [? _].
  - intros x y (i & Hi & Hin)%elem_of_take Hy Hyx.
    assert (Hyl : y ∈ filter P (seqZ a len)).
    { apply list_elem_of_filter. split; [done|]. apply elem_of_seqZ.
      apply list_elem_of_lookup_2, list_elem_of_filter in Hi as [_ Hx%elem_of_seqZ].
      specialize (Ha y Hy). lia. }
    apply list_elem_of_lookup_1 in Hyl as [j Hj].
    apply elem_of_take. exists j. split; [done|].
    pose proof (sorted_lookup_inv _ j i y x Hs Hj Hi Hyx). lia.
Qed.

End Enumerations.

(** [first_of P n] determines the list. *)
Lemma first_of_unique (P : Z -> Prop) (n : Z) (l1 l2 : list Z) :
  first_of P n l1 -> first_of P n l2 -> l1 = l2.
Proof.
  intros (Hlen1 & Hs1 & Hp1 & Hc1) (Hlen2 & Hs2 & Hp2 & Hc2).
  assert (Hlen : length l1 = length l2) by congruence.
  clear Hlen1 Hlen2 n. revert P l2 Hs1 Hp1 Hc1 Hs2 Hp2 Hc2 Hlen.
  induction l1 as [|x l1 IH]; intros P [|y l2] Hs1 Hp1 Hc1 Hs2 Hp2 Hc2 Hlen;
    try done.
  apply StronglySorted_inv in Hs1 as [Hs1 Hx]. rewrite Forall_forall in Hx.
  apply StronglySorted_inv in Hs2 as [Hs2 Hy]. rewrite Forall_forall in Hy.
  assert (x = y) as <-.
  { destruct (Z.lt_trichotomy x y) as [Hlt|[Heq|Hgt]]; [exfalso|done|exfalso].
    - assert (Hin : x ∈ y :: l2) by (apply (Hc2 y x); [left|apply Hp1; left|done]).
      apply elem_of_cons in Hin as [->|Hin]; [lia|]. specialize (Hy x Hin). lia.
    - assert (Hin : y ∈ x :: l1) by (apply (Hc1 x y); [left|apply Hp2; left|lia]).
      apply elem_of_cons in Hin as [->|Hin]; [lia|]. specialize (Hx y Hin). lia. }
  f_equal. apply (IH (fun z => P z /\ x < z)); try done.
  - intros z Hz. split; [apply Hp1; by right|by apply Hx].
  - intros z w Hz [Hw Hxw] Hwz.
    assert (Hin : w ∈ x :: l1) by (apply (Hc1 z w); [by right|done..]).
    apply elem_of_cons in Hin as [->|Hin]; [lia|done].
  - intros z Hz. split; [apply Hp2; by right|by apply Hy].
  - intros z w Hz [Hw Hxw] Hwz.
    assert (Hin : w ∈ x :: l2) by (apply (Hc2 z w); [by right|done..]).
    apply elem_of_cons in Hin as [->|Hin]; [lia|done].
  - simpl in Hlen. lia.
Qed.

(** ** The prime sequence builder *)

Lemma elem_of_primes_upto (x limit : Z) :
  x ∈ primes_upto limit <-> Z.prime x /\ x <= limit.
Proof.
  unfold primes_upto. rewrite list_elem_of_filter, elem_of_seqZ.
  split; [intros [Hp ?]; split; [done|lia]|].
  intros [Hp ?]. pose proof (Z.prime_ge_2 x Hp). split; [done|lia].
Qed.

Lemma primes_upto_prefix (limit limit' : Z) :
  limit <= limit' -> primes_upto limit `prefix_of` primes_upto limit'.
Proof. intros. apply filter_seqZ_prefix. lia. Qed.

(** There are primes enough below some bound. *)
Lemma primes_upto_unbounded (n : nat) :
  exists limit, (n <= length (primes_upto limit))%nat.
Proof.
  induction n as [|n [limit IH]]; [exists 0; simpl; lia|].
  destruct (primes_unbounded (Z.max limit 1)) as (p & Hp & Hlt).
  exists p. unfold primes_upto in *.
  replace (p - 1) with ((Z.max limit 1 - 1) + (p - Z.max limit 1)) by lia.
  rewrite seqZ_app, filter_app, length_app by lia.
  assert (Hle : (length (filter Z.prime (seqZ 2 (limit - 1)))
                 <= length (filter Z.prime (seqZ 2 (Z.max limit 1 - 1))))%nat).
  { apply prefix_length, filter_seqZ_prefix. lia. }
  assert (Hp' : p ∈ filter Z.prime (seqZ (2 + (Z.max limit 1 - 1)) (p - Z.max limit 1))).
  { apply list_elem_of_filter. split; [done|]. apply elem_of_seqZ. lia. }
  destruct (filter Z.prime (seqZ (2 + (Z.max limit 1 - 1)) (p - Z.max limit 1)));
    [by apply elem_of_nil in Hp'|]. simpl. lia.
Qed.

Lemma grow_gt (limit : Z) : 2 <= limit -> limit < grow limit.
Proof.
  intros Hl. unfold grow. rewrite Z.quot_div_nonneg by lia.
  enough (limit + 1 <= 3 * limit / 2) by lia.
  apply Z.div_le_lower_bound; lia.
Qed.

(** The retry loop stops on a bound below which there are [n] primes. *)
Lemma grow_loop_spec (n enough : Z) (fuel : nat) (limit : Z) :
  (Z.to_nat n <= length (primes_upto enough))%nat ->
  2 <= limit -> (Z.to_nat (enough - limit) < fuel)%nat ->
  exists limit',
    grow_loop fuel n limit (primes_upto limit) = Ok (limit', primes_upto limit')
    /\ (Z.to_nat n <= length (primes_upto limit'))%nat.
Proof.
  intros Henough. revert limit. induction fuel as [|fuel IH]; intros limit Hl Hf; [lia|].
  simpl. unfold len. destruct (Z.ltb_spec (Z.of_nat (length (primes_upto limit))) n) as [Hlt|Hge].
  - rewrite sieve_of_eratosthenes_spec, bind_Ok.
    pose proof (grow_gt limit Hl).
    assert (limit < enough).
    { destruct (Z.lt_ge_cases limit enough) as [|Hge]; [done|exfalso].
      pose proof (prefix_length _ _ (primes_upto_prefix enough limit Hge)). lia. }
    apply IH; lia.
  - exists limit. split; [done|]. lia.
Qed.

(** More fuel does not change the outcome of the retry loop. *)
Lemma grow_loop_mono (fuel fuel' : nat) (n limit : Z) (ps : list Z) (r : Z * list Z) :
  (fuel <= fuel')%nat ->
  grow_loop fuel n limit ps = Ok r -> grow_loop fuel' n limit ps = Ok r.
Proof.
  revert fuel' limit ps. induction fuel as [|fuel IH]; intros fuel' limit ps Hle; [done|].
  destruct fuel' as [|fuel']; [lia|]. simpl.
  destruct (len ps <? n); [|done].
  destruct (sieve_of_eratosthenes (grow limit)) as [ps'| |]; simpl; try done.
  apply IH. lia.
Qed.

Section PrimeSequenceFacts.

Variable log_bound : Z -> Z.
Hypothesis log_bound_ge : forall n, 6 <= n -> 2 <= log_bound n.

(** With enough fuel, [generate_primes] returns a prefix of a long enough
    list of all primes up to a bound. *)
Lemma generate_primes_take (n : Z) :
  exists (fuel0 : nat) (limit : Z),
    (Z.to_nat n <= length (primes_upto limit))%nat
    /\ forall fuel, (fuel0 <= fuel)%nat ->
         generate_primes log_bound fuel n = Ok (take (Z.to_nat n) (primes_upto limit)).
Proof.
  unfold generate_primes. destruct (Z.leb_spec n 0) as [Hn|Hn].
  { exists 0%nat, 0. split; [lia|]. intros fuel _.
    by replace (Z.to_nat n) with 0%nat by lia. }
  set (limit0 := if n <? 6 then 15 else log_bound n).
  assert (Hl0 : 2 <= limit0).
  { unfold limit0. destruct (Z.ltb_spec n 6); [lia|by apply log_bound_ge]. }
  destruct (primes_upto_unbounded (Z.to_nat n)) as [enough Henough].
  exists (S (Z.to_nat (enough - limit0))).
  destruct (grow_loop_spec n enough (S (Z.to_nat (enough - limit0))) limit0)
    as (limit & Heq & Hlen); [done|done|lia|].
  exists limit. split; [done|].
  intros fuel Hfuel. rewrite sieve_of_eratosthenes_spec, bind_Ok.
  by rewrite (grow_loop_mono _ fuel _ _ _ _ Hfuel Heq).
Qed.

End PrimeSequenceFacts.

(** ** The composite sequence builder *)

Lemma odd_divisor_scan_true (num : Z) (candidates : list Z) :
  odd_divisor_scan num candidates = true <->
  exists i, i ∈ candidates /\ num mod i = 0.
Proof.
  induction candidates as [|i candidates IH]; simpl.
  - split; [done|]. intros (i & Hi & _). by apply elem_of_nil in Hi.
  - destruct (Z.eqb_spec (num mod i) 0) as [Heq|Hne].
    + split; [|done]. intros _. exists i. split; [left|done].
    + rewrite IH. split.
      * intros (j & Hj & Hmod). exists j. split; [by right|done].
      * intros (j & [->|Hj]%elem_of_cons & Hmod); [done|]. by exists j.
Qed.

(** From 2 on, the classification is a primality test. *)
Lemma is_composite_spec (num : Z) :
  2 <= num -> (is_composite num = true <-> ~ Z.prime num).
Proof.
  intros Hnum. unfold is_composite.
  destruct (Z.ltb_spec num 2) as [|_]; [lia|].
  destruct (Z.eqb_spec num 2) as [->|Hne2].
  { split; [done|]. intros Hnp. destruct Hnp. apply Z.prime_2. }
  pose proof (Z.mod_pos_bound num 2 ltac:(lia)) as Hmod2.
  destruct (Z.eqb_spec (num mod 2) 0) as [Heven|Hodd].
  { split; [|done]. intros _ [_ Hp]. apply (Hp 2); [lia|].
    by apply Z.mod_divide. }
  pose proof (Z.sqrt_spec num ltac:(lia)) as Hsqrt. cbv zeta in Hsqrt.
  pose proof (Z.sqrt_nonneg num) as Hsqrt0.
  rewrite odd_divisor_scan_true. unfold isqrt. split.
  - intros (i & Hi & Hdiv) [_ Hp].
    apply elem_of_py_range in Hi as (t & Ht & -> & Hlt); [|lia].
    apply (Hp (3 + 2 * t)); [nia|]. apply Z.mod_divide; [lia|done].
  - intros Hnp. destruct (small_prime_divisor num) as (d & Hd & Hdn & Hdd); [lia|done|].
    pose proof (Z.prime_ge_2 d Hd).
    assert (d <> 2).
    { intros ->. apply Hodd. by apply Z.mod_divide. }
    assert (Hd2 : d mod 2 = 1) by (apply prime_odd; [done|lia]).
    exists d. split; [|apply Z.mod_divide; [lia|done]].
    apply elem_of_py_range; [lia|]. exists ((d - 3) / 2).
    assert (d <= Z.sqrt num) by (apply Z.sqrt_le_square; lia).
    pose proof (Z.div_mod d 2 ltac:(lia)) as Hdm.
    assert ((d - 3) / 2 = d / 2 - 1) as ->.
    { replace (d - 3) with ((d / 2 - 1) * 2) by lia. by rewrite Z.div_mul. }
    lia.
Qed.

Lemma is_composite_decide (num : Z) :
  4 <= num -> is_composite num = bool_decide (composite num).
Proof.
  intros Hnum. pose proof (is_composite_spec num ltac:(lia)) as Hspec.
  unfold composite. destruct (is_composite num); case_bool_decide; try done.
  - exfalso. apply H. split; [done|]. by apply Hspec.
  - destruct H as [_ Hnp]. apply Hspec in Hnp. done.
Qed.

Lemma composites_below_succ (num : Z) :
  4 <= num ->
  composites_below (num + 1)
  = composites_below num ++ (if is_composite num then [num] else []).
Proof.
  intros Hnum. unfold composites_below.
  replace (num + 1 - 4) with ((num - 4) + 1) by lia.
  rewrite seqZ_app, filter_app by lia. f_equal.
  replace (4 + (num - 4)) with num by lia.
  rewrite seqZ_cons, seqZ_nil by lia. rewrite filter_cons, filter_nil.
  rewrite is_composite_decide by done. by case_bool_decide; case_decide.
Qed.

Lemma even_is_composite (num : Z) : 4 <= num -> num mod 2 = 0 -> is_composite num = true.
Proof.
  intros Hnum Heven. unfold is_composite.
  destruct (Z.ltb_spec num 2); [lia|]. destruct (Z.eqb_spec num 2); [lia|].
  by rewrite Heven.
Qed.

(** The scan stops as soon as [n] composites are collected, after at most
    two candidates per composite. *)
Lemma composites_loop_spec (n : Z) (fuel : nat) (num : Z) :
  4 <= num -> len (composites_below num) <= n ->
  (Z.to_nat (2 * (n - len (composites_below num)) + num mod 2) < fuel)%nat ->
  exists bound,
    composites_loop fuel n (composites_below num) num = Ok (composites_below bound)
    /\ len (composites_below bound) = n.
Proof.
  revert num. induction fuel as [|fuel IH]; intros num Hnum Hlen Hfuel; [lia|].
  simpl. destruct (Z.ltb_spec (len (composites_below num)) n) as [Hlt|Hge].
  - pose proof (composites_below_succ num Hnum) as Hsucc.
    replace (if is_composite num then composites_below num ++ [num]
             else composites_below num)
      with (composites_below (num + 1))
      by (rewrite Hsucc; destruct (is_composite num); [done|by rewrite app_nil_r]).
    pose proof (Z.mod_pos_bound num 2 ltac:(lia)) as Hmod.
    assert (Hmod' : (num + 1) mod 2 = 1 - num mod 2).
    { rewrite <- Zplus_mod_idemp_l.
      destruct (decide (num mod 2 = 0)) as [->|]; [done|].
      by replace (num mod 2) with 1 by lia. }
    assert (Hlen' : len (composites_below (num + 1))
                    = len (composites_below num) + (if is_composite num then 1 else 0)).
    { rewrite Hsucc. unfold len. rewrite length_app.
      destruct (is_composite num); simpl; lia. }
    apply IH; [lia|destruct (is_composite num); lia|].
    rewrite Hlen', Hmod'.
    destruct (decide (num mod 2 = 0)) as [Heven|Hodd].
    + rewrite (even_is_composite num Hnum Heven). lia.
    + destruct (is_composite num); lia.
  - exists num. split; [done|lia].
Qed.

Lemma composites_loop_mono (fuel fuel' : nat) (n : Z) (cs : list Z) (num : Z)
  (r : list Z) :
  (fuel <= fuel')%nat ->
  composites_loop fuel n cs num = Ok r -> composites_loop fuel' n cs num = Ok r.
Proof.
  revert fuel' cs num. induction fuel as [|fuel IH]; intros fuel' cs num Hle; [done|].
  destruct fuel' as [|fuel']; [lia|]. simpl.
  destruct (len cs <? n); [|done]. apply IH. lia.
Qed.

Lemma generate_composites_mono (fuel fuel' : nat) (n : Z) (r : list Z) :
  (fuel <= fuel')%nat ->
  generate_composites fuel n = Ok r -> generate_composites fuel' n = Ok r.
Proof.
  unfold generate_composites. destruct (n <=? 0); [done|]. apply composites_loop_mono.
Qed.

Lemma generate_composites_below (n : Z) :
  0 <= n ->
  exists bound,
    len (composites_below bound) = n
    /\ forall fuel, (Z.to_nat (2 * n + 1) <= fuel)%nat ->
         generate_composites fuel n = Ok (composites_below bound).
Proof.
  intros Hn. unfold generate_composites. destruct (Z.leb_spec n 0) as [Hn0|Hn0].
  { exists 4. split; [unfold len; simpl; lia|]. done. }
  destruct (composites_loop_spec n (Z.to_nat (2 * n + 1)) 4) as (bound & Hrun & Hlen).
  - done.
  - unfold len. simpl. lia.
  - change (composites_below 4) with (@nil Z). change (len (@nil Z)) with 0.
    change (4 mod 2) with 0. lia.
  - exists bound. split; [done|]. intros fuel Hfuel.
    by apply (composites_loop_mono _ fuel) in Hrun.
Qed.

(** ** Executable forms of the reference lists *)

Lemma filter_bool {A : Type} (P : A -> Prop) `{forall x, Decision (P x)}
  (f : A -> bool) (l : list A) :
  (forall x, x ∈ l -> f x = bool_decide (P x)) -> filter P l = List.filter f l.
Proof.
  induction l as [|x l IH]; intros Hf; [done|].
  rewrite filter_cons. simpl. rewrite (Hf x) by left.
  rewrite IH by (intros; apply Hf; by right).
  by case_bool_decide; case_decide.
Qed.

Lemma primes_upto_compute (limit : Z) :
  primes_upto limit
  = List.filter (fun x => negb (is_composite x)) (seqZ 2 (limit - 1)).
Proof.
  apply filter_bool. intros x Hx%elem_of_seqZ.
  pose proof (is_composite_spec x ltac:(lia)) as Hspec.
  destruct (is_composite x); case_bool_decide; simpl; try done.
  - exfalso. by apply Hspec.
  - exfalso. apply Hspec in H. done.
Qed.

Lemma composites_below_compute (bound : Z) :
  composites_below bound = List.filter is_composite (seqZ 4 (bound - 4)).
Proof.
  apply filter_bool. intros x Hx%elem_of_seqZ. apply is_composite_decide. lia.
Qed.

Lemma first_of_take_primes_upto (n limit : Z) :
  (Z.to_nat n <= length (primes_upto limit))%nat ->
  first_of Z.prime n (take (Z.to_nat n) (primes_upto limit)).
Proof. apply take_filter_seqZ_first_of. apply Z.prime_ge_2. Qed.

Lemma take_primes_upto_stable (n : nat) (limit1 limit2 : Z) :
  (n <= length (primes_upto limit1))%nat ->
  (n <= length (primes_upto limit2))%nat ->
  take n (primes_upto limit1) = take n (primes_upto limit2).
Proof. apply take_filter_seqZ_stable. Qed.

Lemma generate_primes_returns (log_bound : Z -> Z) (n : Z) :
  (forall n, 6 <= n -> 2 <= log_bound n) ->
  returns (fun fuel => generate_primes log_bound fuel n) (first_of Z.prime n).
Proof.
  intros Hlb.
  destruct (generate_primes_take log_bound Hlb n) as (fuel0 & limit & Hlen & Hrun).
  exists (take (Z.to_nat n) (primes_upto limit)).
  split; [by apply first_of_take_primes_upto|]. by exists fuel0.
Qed.

Lemma generate_composites_returns (n : Z) :
  0 <= n -> returns (fun fuel => generate_composites fuel n) (first_of composite n).
Proof.
  intros Hn. destruct (generate_composites_below n Hn) as (bound & Hlen & Hrun).
  exists (composites_below bound). split; [|by exists (Z.to_nat (2 * n + 1))].
  unfold len in Hlen.
  rewrite <- (take_ge (composites_below bound) (Z.to_nat n)) by lia.
  apply take_filter_seqZ_first_of; [by intros x [? _]|].
  fold (composites_below bound). lia.
Qed.

(** C5. Given enough fuel, [generate_primes n] returns the first [n]
    primes: a strictly increasing list of length [n] of primes that omits
    no prime below one of its elements.  For [n <= 0] the result is empty
    whatever the fuel, and [generate_primes 10] is
    [2, 3, 5, 7, 11, 13, 17, 19, 23, 29].  The sieve bound estimate is any
    function that is at least 2 from 6 on. *)
Theorem generate_primes_correct (log_bound : Z -> Z) :
  (forall n, 6 <= n -> 2 <= log_bound n) ->
  (forall n, 0 <= n ->
     returns (fun fuel => generate_primes log_bound fuel n) (first_of Z.prime n))
  /\ (forall n fuel, n <= 0 -> generate_primes log_bound fuel n = Ok [])
  /\ returns (fun fuel => generate_primes log_bound fuel 10)
             (fun ps => ps = [2; 3; 5; 7; 11; 13; 17; 19; 23; 29]).
Proof.
  intros Hlb. split; [|split].
  - intros n _. by apply generate_primes_returns.
  - intros n fuel Hn. unfold generate_primes.
    by destruct (Z.leb_spec n 0); [|lia].
  - destruct (generate_primes_take log_bound Hlb 10) as (fuel0 & limit & Hlen & Hrun).
    exists (take (Z.to_nat 10) (primes_upto limit)). split; [|by exists fuel0].
    assert (H29 : primes_upto 29 = [2; 3; 5; 7; 11; 13; 17; 19; 23; 29])
      by (rewrite primes_upto_compute; by vm_compute).
    assert (Hstable : take (Z.to_nat 10) (primes_upto limit)
                      = take (Z.to_nat 10) (primes_upto 29)).
    { apply take_primes_upto_stable; [done|]. rewrite H29. simpl. lia. }
    rewrite Hstable, H29. done.
Qed.

Lemma generate_primes_correct_witness :
  (forall n, 6 <= n -> 2 <= (fun _ : Z => 51) n)
  /\ returns (fun fuel => generate_primes (fun _ => 51) fuel 10)
             (fun ps => ps = [2; 3; 5; 7; 11; 13; 17; 19; 23; 29]).
Proof.
  split; [intros; lia|].
  apply (generate_primes_correct (fun _ => 51)). intros; lia.
Defined.

(** C6. Given enough fuel, [generate_composites n] returns the first [n]
    composites (integers from 4 on that are not prime) in increasing
    order; for [n <= 0] the result is empty, and [generate_composites 10]
    is [4, 6, 8, 9, 10, 12, 14, 15, 16, 18]. *)
Theorem generate_composites_correct :
  (forall n, 0 <= n ->
     returns (fun fuel => generate_composites fuel n) (first_of composite n))
  /\ (forall n fuel, n <= 0 -> generate_composites fuel n = Ok [])
  /\ returns (fun fuel => generate_composites fuel 10)
             (fun cs => cs = [4; 6; 8; 9; 10; 12; 14; 15; 16; 18]).
Proof.
  split; [|split].
  - apply generate_composites_returns.
  - intros n fuel Hn. unfold generate_composites.
    by destruct (Z.leb_spec n 0); [|lia].
  - eexists. split; [done|]. exists 21%nat. intros fuel Hfuel.
    apply (generate_composites_mono 21); [done|]. by vm_compute.
Qed.

(** ** Fuel *)

Lemma returns_intro {A : Type} (run : nat -> result A) (P : A -> Prop)
  (fuel : nat) (a : A) :
  fuel_mono run -> run fuel = Ok a -> P a -> returns run P.
Proof. intros Hmono Hrun HP. exists a. split; [done|]. exists fuel. eauto. Qed.

(** A returned value is the value the computation returns with any
    sufficient fuel. *)
Lemma returns_inv {A : Type} (run : nat -> result A) (P : A -> Prop)
  (fuel : nat) (a : A) :
  fuel_mono run -> returns run P -> run fuel = Ok a -> P a.
Proof.
  intros Hmono (a' & HP & fuel0 & Hrun) Ha.
  apply (Hmono fuel (max fuel fuel0)) in Ha; [|lia].
  rewrite Hrun in Ha by lia. by injection Ha as <-.
Qed.

Lemma returns_weaken {A : Type} (run : nat -> result A) (P Q : A -> Prop) :
  (forall a, P a -> Q a) -> returns run P -> returns run Q.
Proof. intros HPQ (a & HP & Hrun). exists a. auto. Qed.

Lemma returns_bind {A B : Type} (m : nat -> result A) (k : nat -> A -> result B)
  (P : A -> Prop) (Q : B -> Prop) :
  returns m P -> (forall a, P a -> returns (fun fuel => k fuel a) Q) ->
  returns (fun fuel => a ← m fuel; k fuel a) Q.
Proof.
  intros (a & HP & f1 & Hm) Hk. destruct (Hk a HP) as (b & HQ & f2 & Hkb).
  exists b. split; [done|]. exists (max f1 f2). intros fuel Hfuel.
  rewrite Hm by lia. simpl. apply Hkb. lia.
Qed.

Lemma returns_pure {A : Type} (a : A) (P : A -> Prop) :
  P a -> returns (fun _ => Ok a) P.
Proof. intros HP. exists a. split; [done|]. by exists 0%nat. Qed.

Lemma fuel_mono_pure {A : Type} (r : result A) : fuel_mono (fun _ => r).
Proof. by intros f f' a _ Hr. Qed.

Lemma fuel_mono_bind {A B : Type} (m : nat -> result A) (k : nat -> A -> result B) :
  fuel_mono m -> (forall a, fuel_mono (fun fuel => k fuel a)) ->
  fuel_mono (fun fuel => a ← m fuel; k fuel a).
Proof.
  intros Hm Hk f f' b Hle Hrun. destruct (m f) as [a| |] eqn:Hmf; try done.
  rewrite (Hm f f' a Hle Hmf). simpl in *. by apply (Hk a f f').
Qed.

Lemma fuel_mono_fmap {A B : Type} (g : A -> B) (m : nat -> result A) :
  fuel_mono m -> fuel_mono (fun fuel => g <$> m fuel).
Proof.
  intros Hm f f' b Hle Hrun. destruct (m f) as [a| |] eqn:Hmf; try done.
  by rewrite (Hm f f' a Hle Hmf).
Qed.

Lemma fuel_mono_foldM {A B : Type} (body : nat -> B -> A -> result B)
  (items : list A) :
  (forall b x, fuel_mono (fun fuel => body fuel b x)) ->
  forall b, fuel_mono (fun fuel => foldM (body fuel) items b).
Proof.
  intros Hbody. induction items as [|x items IH]; intros b; simpl.
  - apply fuel_mono_pure.
  - apply (fuel_mono_bind (fun fuel => body fuel b x)
             (fun fuel b' => foldM (body fuel) items b')); auto.
Qed.

Lemma generate_composites_fuel_mono (n : Z) :
  fuel_mono (fun fuel => generate_composites fuel n).
Proof. intros f f' a. apply generate_composites_mono. Qed.

Lemma generate_primes_fuel_mono (log_bound : Z -> Z) (n : Z) :
  fuel_mono (fun fuel => generate_primes log_bound fuel n).
Proof.
  unfold generate_primes. destruct (n <=? 0); [apply fuel_mono_pure|].
  apply (fuel_mono_bind (fun _ => sieve_of_eratosthenes _)
           (fun fuel ps => '(_, primes) ← grow_loop fuel n _ ps; Ok (take (Z.to_nat n) primes))).
  { apply fuel_mono_pure. }
  intros ps. apply (fuel_mono_bind (fun fuel => grow_loop fuel n _ ps)
                      (fun _ r => let '(_, primes) := r in Ok (take (Z.to_nat n) primes))).
  - intros f f' r. apply grow_loop_mono.
  - intros [? ?]. apply fuel_mono_pure.
Qed.

(** ** The decomposition engine refines the void rule *)

(** Equalities between sets built from unions and singletons. *)
Ltac set_eq_tauto :=
  apply set_eq; intros ?;
  rewrite ?elem_of_union, ?elem_of_singleton, ?elem_of_empty; tauto.

Lemma gset_bounded (E : gset Z) : exists M, forall x, x ∈ E -> x <= M.
Proof.
  induction E as [|x E _ [M IH]] using set_ind_L.
  - exists 0. intros x Hx. by apply not_elem_of_empty in Hx.
  - exists (Z.max x M). intros y [->%elem_of_singleton|Hy]%elem_of_union; [lia|].
    specialize (IH y Hy). lia.
Qed.

Lemma find_void_least (fuel : nat) (E : gset Z) (v0 w : Z) :
  v0 <= w -> w ∉ E -> (Z.to_nat (w - v0) < fuel)%nat ->
  exists v, find_void fuel E v0 = Ok v
            /\ v0 <= v <= w /\ (v ∉ E) /\ (forall u, v0 <= u < v -> u ∈ E).
Proof.
  revert v0. induction fuel as [|fuel IH]; intros v0 Hle Hw Hfuel; [lia|].
  simpl. case_bool_decide as Hin.
  - assert (v0 <> w) by (intros ->; done).
    destruct (IH (v0 + 1)) as (v & Hrun & Hv & Hnin & Hbelow); [lia|done|lia|].
    exists v. split; [done|]. split; [lia|]. split; [done|].
    intros u Hu. destruct (decide (u = v0)) as [->|]; [done|]. apply Hbelow. lia.
  - exists v0. split; [done|]. split; [lia|]. split; [done|]. intros u Hu. lia.
Qed.

Lemma find_void_fuel_mono (E : gset Z) (v0 : Z) :
  fuel_mono (fun fuel => find_void fuel E v0).
Proof.
  intros f. revert v0. induction f as [|f IH]; intros v0 f' v Hle; [done|].
  destruct f' as [|f']; [lia|]. simpl. case_bool_decide; [|done]. apply IH. lia.
Qed.

Lemma find_void_returns (E : gset Z) :
  returns (fun fuel => find_void fuel E 1) (least_unused E).
Proof.
  destruct (gset_bounded E) as [M HM].
  set (w := Z.max 1 (M + 1)).
  assert (Hw : w ∉ E) by (intros Hw%HM; lia).
  destruct (find_void_least (S (Z.to_nat (w - 1))) E 1 w) as (v & Hrun & Hv & Hnin & Hbelow);
    [lia|done|lia|].
  apply (returns_intro _ _ _ v (find_void_fuel_mono E 1) Hrun).
  split; [lia|]. split; [done|]. intros u Hu. apply Hbelow. lia.
Qed.

Lemma assign_void_returns (E : gset Z) (p : Z) :
  returns (fun fuel => assign_void fuel E p)
          (fun r => assigns E p r.1 /\ r.2 = E ∪ {[r.1; p]}).
Proof.
  unfold assign_void. destruct (Z.eqb_spec p 2) as [->|Hp2].
  { apply returns_pure. split; [constructor|done]. }
  destruct (Z.eqb_spec p 3) as [->|Hp3].
  { apply returns_pure. split; [constructor|done]. }
  apply (returns_bind _ (fun _ v => Ok (v, {[p]} ∪ ({[v]} ∪ E))) _ _ (find_void_returns E)).
  intros v Hv. apply returns_pure. simpl. split; [by constructor|].
  set_eq_tauto.
Qed.

Lemma assign_void_fuel_mono (E : gset Z) (p : Z) :
  fuel_mono (fun fuel => assign_void fuel E p).
Proof.
  unfold assign_void. destruct (p =? 2); [apply fuel_mono_pure|].
  destruct (p =? 3); [apply fuel_mono_pure|].
  apply (fuel_mono_bind (fun fuel => find_void fuel E 1)
           (fun _ v => Ok (v, {[p]} ∪ ({[v]} ∪ E)))).
  - apply find_void_fuel_mono.
  - intros v. apply fuel_mono_pure.
Qed.

Lemma ratio_of_run (p v : Z) :
  (if 0 <? p - v then Some <$> py_truediv p (p - v) else Ok None)
  = Ok (ratio_of p v).
Proof.
  unfold ratio_of, py_truediv. destruct (Z.ltb_spec 0 (p - v)); [|done].
  by destruct (Z.eqb_spec (p - v) 0); [lia|].
Qed.

Lemma layer_step_returns (E : gset Z) (recs : list record) (k p : Z) :
  returns (fun fuel => layer_step fuel (E, recs) (k, p))
          (fun st => exists v, assigns E p v
             /\ st = (E ∪ {[v; p]}, recs ++ [mk_record k p v (p - v) (ratio_of p v)])).
Proof.
  unfold layer_step.
  apply (returns_bind _
           (fun _ (r : Z * gset Z) =>
              let '(v, endpoints) := r in
              let s := p - v in
              ratio ← (if 0 <? s then Some <$> py_truediv p s else Ok None);
              Ok (endpoints, recs ++ [mk_record k p v s ratio]))
           _ _ (assign_void_returns E p)).
  intros [v E'] [Hv HE]. simpl in *. subst E'.
  rewrite ratio_of_run. apply returns_pure. eauto.
Qed.

Lemma layer_step_fuel_mono (st : gset Z * list record) (kp : Z * Z) :
  fuel_mono (fun fuel => layer_step fuel st kp).
Proof.
  destruct st as [E recs], kp as [k p]. unfold layer_step.
  apply (fuel_mono_bind (fun fuel => assign_void fuel E p)
           (fun _ (r : Z * gset Z) =>
              let '(v, endpoints) := r in
              let s := p - v in
              ratio ← (if 0 <? s then Some <$> py_truediv p s else Ok None);
              Ok (endpoints, recs ++ [mk_record k p v s ratio]))).
  - apply assign_void_fuel_mono.
  - intros [v E']. apply fuel_mono_pure.
Qed.

Lemma used_endpoints_cons (r : record) (recs : list record) :
  used_endpoints (r :: recs) = {[r_void r; r_prime r]} ∪ used_endpoints recs.
Proof. unfold used_endpoints. simpl. set_eq_tauto. Qed.

Lemma used_endpoints_app (recs1 recs2 : list record) :
  used_endpoints (recs1 ++ recs2) = used_endpoints recs1 ∪ used_endpoints recs2.
Proof. unfold used_endpoints. rewrite !fmap_app, !list_to_set_app_L. set_eq_tauto. Qed.

Lemma used_endpoints_nil : used_endpoints [] = ∅.
Proof. unfold used_endpoints. simpl. set_eq_tauto. Qed.

Lemma used_endpoints_snoc (recs : list record) (r : record) :
  used_endpoints (recs ++ [r]) = used_endpoints recs ∪ {[r_void r; r_prime r]}.
Proof.
  rewrite used_endpoints_app, used_endpoints_cons, used_endpoints_nil. set_eq_tauto.
Qed.

Lemma layers_loop_returns (ps : list Z) (E : gset Z) (recs : list record) (k : Z) :
  returns (fun fuel => foldM (layer_step fuel) (enumerate ps k) (E, recs))
          (fun st => exists new, layers_trace E k ps new
             /\ st = (E ∪ used_endpoints new, recs ++ new)).
Proof.
  revert E recs k. induction ps as [|p ps IH]; intros E recs k; simpl.
  - apply returns_pure. exists []. split; [constructor|].
    rewrite app_nil_r. f_equal. unfold used_endpoints. simpl. set_eq_tauto.
  - apply (returns_bind (fun fuel => layer_step fuel (E, recs) (k, p))
             (fun fuel st => foldM (layer_step fuel) (enumerate ps (k + 1)) st)
             _ _ (layer_step_returns E recs k p)).
    intros st (v & Hv & ->).
    eapply returns_weaken; [|apply IH].
    intros st (new & Htrace & ->).
    exists (mk_record k p v (p - v) (ratio_of p v) :: new). split; [by constructor|].
    rewrite used_endpoints_cons, <- app_assoc. simpl. f_equal. set_eq_tauto.
Qed.

Lemma layers_run_fuel_mono (ps : list Z) : fuel_mono (fun fuel => layers_run fuel ps).
Proof. apply (fuel_mono_foldM layer_step), layer_step_fuel_mono. Qed.

Lemma compute_layers_fuel_mono (ps : list Z) :
  fuel_mono (fun fuel => _compute_layers fuel ps).
Proof. apply (fuel_mono_fmap snd), layers_run_fuel_mono. Qed.

(** The loop returns the records prescribed by the void rule, and its
    final set is the set of their voids and primes. *)
Lemma layers_run_returns (ps : list Z) :
  returns (fun fuel => layers_run fuel ps)
          (fun st => layers_trace ∅ 1 ps st.2 /\ st.1 = used_endpoints st.2).
Proof.
  eapply returns_weaken; [|apply layers_loop_returns].
  intros st (new & Htrace & ->). simpl. split; [done|]. set_eq_tauto.
Qed.

Lemma compute_layers_returns (ps : list Z) :
  returns (fun fuel => _compute_layers fuel ps) (layers_trace ∅ 1 ps).
Proof.
  destruct (layers_run_returns ps) as ([E recs] & [Htrace _] & fuel0 & Hrun).
  exists recs. split; [done|]. exists fuel0. intros fuel Hfuel.
  unfold _compute_layers. by rewrite Hrun.
Qed.

(** ** Properties of the records prescribed by the void rule *)

Lemma layers_trace_length (E : gset Z) (k : Z) (ps : list Z) (recs : list record) :
  layers_trace E k ps recs -> length recs = length ps.
Proof. induction 1; simpl; congruence. Qed.

Lemma layers_trace_primes (E : gset Z) (k : Z) (ps : list Z) (recs : list record) :
  layers_trace E k ps recs -> r_prime <$> recs = ps.
Proof. induction 1; [done|]. rewrite fmap_cons. simpl. by f_equal. Qed.

Lemma layers_trace_ranks (E : gset Z) (k : Z) (ps : list Z) (recs : list record)
  (i : nat) (r : record) :
  layers_trace E k ps recs -> recs !! i = Some r -> r_k r = k + Z.of_nat i.
Proof.
  intros Htrace. revert i. induction Htrace as [|E k p v ps recs Hv Htrace IH];
    intros i Hi; [by rewrite lookup_nil in Hi|].
  destruct i as [|i]; simpl in Hi.
  - injection Hi as <-. simpl. lia.
  - rewrite (IH i Hi). lia.
Qed.

Lemma layers_trace_sum (E : gset Z) (k : Z) (ps : list Z) (recs : list record) :
  layers_trace E k ps recs ->
  Forall (fun r => r_sum r = r_prime r - r_void r
                   /\ r_ratio r = ratio_of (r_prime r) (r_void r)) recs.
Proof. induction 1; constructor; done. Qed.

(** On a strictly increasing list of primes above the bound [B] of the
    used endpoints, every void is positive and below its prime. *)
Lemma layers_trace_void_lt (E : gset Z) (k : Z) (ps : list Z) (recs : list record)
  (B : Z) :
  layers_trace E k ps recs ->
  0 <= B -> (forall x, x ∈ E -> 1 <= x <= B) ->
  StronglySorted Z.lt ps -> Forall Z.prime ps ->
  Forall (fun p => B < p /\ (3 < p -> B + 2 <= p)) ps ->
  Forall (fun r => 1 <= r_void r < r_prime r) recs.
Proof.
  intros Htrace. revert B.
  induction Htrace as [|E k p v ps recs Hv Htrace IH]; intros B HB HE Hs Hp HBp;
    [constructor|].
  apply StronglySorted_inv in Hs as [Hs Hlt]. rewrite Forall_forall in Hlt.
  apply Forall_cons in Hp as [Hp Hps]. apply Forall_cons in HBp as [[HBp Hgap] _].
  assert (Hvp : 1 <= v < p).
  { destruct Hv as [| |p v Hp2 Hp3 (Hv1 & Hnin & Hbelow)]; [lia|lia|].
    split; [done|]. pose proof (Z.prime_ge_2 p Hp).
    destruct (Z.le_gt_cases v (B + 1)) as [|Hgt]; [lia|exfalso].
    specialize (Hbelow (B + 1) ltac:(lia)). apply HE in Hbelow. lia. }
  constructor; [done|]. apply (IH p).
  - lia.
  - intros x. rewrite elem_of_union, elem_of_union, !elem_of_singleton.
    intros [Hx|[->| ->]]; [|lia..]. specialize (HE x Hx). lia.
  - done.
  - done.
  - rewrite Forall_forall. intros q Hq. specialize (Hlt q Hq). split; [done|].
    intros Hq3. rewrite Forall_forall in Hps.
    destruct (decide (p = 2)) as [->|]; [lia|].
    apply prime_gap; [done|by apply Hps| |done].
    pose proof (Z.prime_ge_2 p Hp). lia.
Qed.

(** The rule determines the records. *)
Lemma least_unused_unique (E : gset Z) (v w : Z) :
  least_unused E v -> least_unused E w -> v = w.
Proof.
  intros (Hv1 & Hv & Hbv) (Hw1 & Hw & Hbw).
  destruct (Z.lt_trichotomy v w) as [Hlt|[Heq|Hgt]]; [exfalso|done|exfalso].
  - apply Hv, Hbw. lia.
  - apply Hw, Hbv. lia.
Qed.

Lemma assigns_unique (E : gset Z) (p v w : Z) :
  assigns E p v -> assigns E p w -> v = w.
Proof.
  intros Hv Hw. destruct Hv; inversion Hw; subst; try done.
  by apply (least_unused_unique E).
Qed.

Lemma layers_trace_unique (E : gset Z) (k : Z) (ps : list Z) (recs recs' : list record) :
  layers_trace E k ps recs -> layers_trace E k ps recs' -> recs = recs'.
Proof.
  intros Htrace. revert recs'. induction Htrace as [|E k p v ps recs Hv Htrace IH];
    intros recs' Htrace'; inversion Htrace' as [|E' k' p' v' ps' recs'' Hv' Htrace'']; subst;
    [done|].
  assert (v' = v) as -> by (by apply (assigns_unique E p)).
  f_equal. by apply IH.
Qed.

(** ** The pipeline of [LayerSystem.__init__] *)

Lemma first_of_sorted_primes (n : Z) (ps : list Z) :
  first_of Z.prime n ps -> StronglySorted Z.lt ps /\ Forall Z.prime ps.
Proof. intros (_ & Hs & Hp & _). split; [done|]. by apply Forall_forall. Qed.

Section PipelineFacts.

Variable log_bound : Z -> Z.
Hypothesis log_bound_ge : forall n, 6 <= n -> 2 <= log_bound n.

Lemma LayerSystem_init_fuel_mono (n : Z) :
  fuel_mono (fun fuel => LayerSystem_init log_bound fuel n).
Proof.
  unfold LayerSystem_init.
  apply (fuel_mono_bind (fun fuel => generate_primes log_bound fuel n)
           (fun fuel ps => composites ← generate_composites fuel n;
                           results ← _compute_layers fuel ps;
                           Ok (mk_LayerSystem n ps composites results))).
  { apply generate_primes_fuel_mono. }
  intros ps.
  apply (fuel_mono_bind (fun fuel => generate_composites fuel n)
           (fun fuel cs => results ← _compute_layers fuel ps;
                           Ok (mk_LayerSystem n ps cs results))).
  { apply generate_composites_fuel_mono. }
  intros cs.
  apply (fuel_mono_bind (fun fuel => _compute_layers fuel ps)
           (fun _ results => Ok (mk_LayerSystem n ps cs results))).
  { apply compute_layers_fuel_mono. }
  intros rs. apply fuel_mono_pure.
Qed.

(** The constructor returns the first [n] primes, the first [n]
    composites and the records the void rule prescribes for the primes. *)
Lemma LayerSystem_init_returns (n : Z) :
  0 <= n ->
  returns (fun fuel => LayerSystem_init log_bound fuel n)
    (fun self => n_primes self = n
       /\ first_of Z.prime n (primes self)
       /\ first_of composite n (composites self)
       /\ layers_trace ∅ 1 (primes self) (results self)).
Proof.
  intros Hn. unfold LayerSystem_init.
  apply (returns_bind (fun fuel => generate_primes log_bound fuel n)
           (fun fuel ps => composites ← generate_composites fuel n;
                           results ← _compute_layers fuel ps;
                           Ok (mk_LayerSystem n ps composites results))
           _ _ (generate_primes_returns log_bound n log_bound_ge)).
  intros ps Hps.
  apply (returns_bind (fun fuel => generate_composites fuel n)
           (fun fuel cs => results ← _compute_layers fuel ps;
                           Ok (mk_LayerSystem n ps cs results))
           _ _ (generate_composites_returns n Hn)).
  intros cs Hcs.
  apply (returns_bind (fun fuel => _compute_layers fuel ps)
           (fun _ results => Ok (mk_LayerSystem n ps cs results))
           _ _ (compute_layers_returns ps)).
  intros rs Hrs. by apply returns_pure.
Qed.

End PipelineFacts.

(** C2. With enough fuel the constructor returns one record per prime, and
    every record satisfies [prime = void + sum] over the integers. *)
Theorem records_prime_eq_void_plus_sum (log_bound : Z -> Z) (n : Z) :
  (forall n, 6 <= n -> 2 <= log_bound n) -> 0 <= n ->
  returns (fun fuel => LayerSystem_init log_bound fuel n)
    (fun self => length (results self) = Z.to_nat n
       /\ forall r, r ∈ results self -> r_prime r = r_void r + r_sum r).
Proof.
  intros Hlb Hn. eapply returns_weaken; [|by apply LayerSystem_init_returns].
  intros self (_ & (Hlen & _) & _ & Htrace). split.
  - by rewrite (layers_trace_length _ _ _ _ Htrace).
  - intros r Hr. pose proof (layers_trace_sum _ _ _ _ Htrace) as Hsum.
    rewrite Forall_forall in Hsum. destruct (Hsum r Hr) as [-> _]. lia.
Qed.

Lemma records_prime_eq_void_plus_sum_witness :
  (forall n, 6 <= n -> 2 <= (fun _ : Z => 51) n) /\ 0 <= 10
  /\ returns (fun fuel => LayerSystem_init (fun _ => 51) fuel 10)
       (fun self => length (results self) = Z.to_nat 10
          /\ forall r, r ∈ results self -> r_prime r = r_void r + r_sum r).
Proof.
  split; [intros; lia|]. split; [lia|].
  apply (records_prime_eq_void_plus_sum (fun _ => 51) 10); intros; lia.
Defined.

(** C10. For every [n >= 1] every record built from the first [n] primes
    has [1 <= void < prime], a strictly positive sum and a defined ratio:
    the guard for [sum = 0] is never taken. *)
Theorem records_void_below_prime (log_bound : Z -> Z) (n : Z) :
  (forall n, 6 <= n -> 2 <= log_bound n) -> 1 <= n ->
  returns (fun fuel => LayerSystem_init log_bound fuel n)
    (fun self => length (results self) = Z.to_nat n
       /\ forall r, r ∈ results self ->
            1 <= r_void r < r_prime r
            /\ r_sum r = r_prime r - r_void r /\ 0 < r_sum r
            /\ r_ratio r
               = Some (PrimFloat.div (float_of_Z (r_prime r)) (float_of_Z (r_sum r)))).
Proof.
  intros Hlb Hn. eapply returns_weaken; [|apply LayerSystem_init_returns; [done|lia]].
  intros self (_ & Hps & _ & Htrace). split.
  { destruct Hps as [Hlen _]. by rewrite (layers_trace_length _ _ _ _ Htrace). }
  destruct (first_of_sorted_primes _ _ Hps) as [Hs Hp].
  pose proof (layers_trace_sum _ _ _ _ Htrace) as Hsum.
  assert (Hvoid : Forall (fun r => 1 <= r_void r < r_prime r) (results self)).
  { apply (layers_trace_void_lt ∅ 1 (primes self) _ 0 Htrace); [lia| |done|done|].
    - intros x Hx. by apply not_elem_of_empty in Hx.
    - eapply Forall_impl; [exact Hp|]. intros p Hpp. simpl.
      pose proof (Z.prime_ge_2 p Hpp). lia. }
  rewrite Forall_forall in Hsum, Hvoid. intros r Hr.
  destruct (Hsum r Hr) as [Hs' Hratio]. specialize (Hvoid r Hr).
  split; [done|]. split; [done|]. split; [lia|].
  rewrite Hratio, Hs'. unfold ratio_of.
  by destruct (Z.ltb_spec 0 (r_prime r - r_void r)); [|lia].
Qed.

Lemma records_void_below_prime_witness :
  (forall n, 6 <= n -> 2 <= (fun _ : Z => 51) n) /\ 1 <= 10
  /\ returns (fun fuel => LayerSystem_init (fun _ => 51) fuel 10)
       (fun self => length (results self) = Z.to_nat 10
          /\ forall r, r ∈ results self ->
               1 <= r_void r < r_prime r
               /\ r_sum r = r_prime r - r_void r /\ 0 < r_sum r
               /\ r_ratio r
                  = Some (PrimFloat.div (float_of_Z (r_prime r)) (float_of_Z (r_sum r)))).
Proof.
  split; [intros; lia|]. split; [lia|].
  apply (records_void_below_prime (fun _ => 51) 10); intros; lia.
Defined.

(** ** The state of the engine at each rank *)

(** The record at position [i] obeys the void rule against the endpoints
    used by the records before it, and the records up to it are those of
    the run on the primes up to it. *)
Lemma layers_trace_at (E : gset Z) (k : Z) (ps : list Z) (recs : list record)
  (i : nat) (r : record) :
  layers_trace E k ps recs -> recs !! i = Some r ->
  exists p,
    ps !! i = Some p
    /\ layers_trace E k (take i ps) (take i recs)
    /\ assigns (E ∪ used_endpoints (take i recs)) p (r_void r)
    /\ r = mk_record (k + Z.of_nat i) p (r_void r) (p - r_void r) (ratio_of p (r_void r))
    /\ layers_trace E k (take (S i) ps) (take (S i) recs).
Proof.
  intros Htrace. revert i.
  induction Htrace as [|E k p v ps recs Hv Htrace IH]; intros i Hi;
    [by rewrite lookup_nil in Hi|].
  destruct i as [|i]; simpl in Hi.
  - injection Hi as <-. exists p. simpl. split; [done|]. split; [constructor|].
    split.
    { replace (E ∪ used_endpoints []) with E
        by (unfold used_endpoints; simpl; set_eq_tauto). done. }
    split; [by rewrite Z.add_0_r|].
    rewrite !take_0. constructor; [done|constructor].
  - destruct (IH i Hi) as (q & Hq & Hbefore & Hassign & Hr & Hupto).
    exists q. split; [done|]. split; [by constructor|]. split.
    { rewrite firstn_cons, used_endpoints_cons. simpl.
      replace (E ∪ ({[v; p]} ∪ used_endpoints (take i recs)))
        with (E ∪ {[v; p]} ∪ used_endpoints (take i recs)) by set_eq_tauto.
      done. }
    split.
    { rewrite Hr at 1. f_equal. lia. }
    rewrite !(firstn_cons (S i)). by constructor.
Qed.

Lemma sorted_primes_from_third (ps : list Z) (i : nat) (p : Z) :
  StronglySorted Z.lt ps -> Forall Z.prime ps ->
  (2 <= i)%nat -> ps !! i = Some p -> 3 < p.
Proof.
  intros Hs Hp Hi Hpi. rewrite Forall_forall in Hp.
  destruct (lookup_lt_is_Some_2 ps 0) as [x Hx]; [apply lookup_lt_Some in Hpi; lia|].
  destruct (lookup_lt_is_Some_2 ps 1) as [y Hy]; [apply lookup_lt_Some in Hpi; lia|].
  pose proof (Z.prime_ge_2 x (Hp x (list_elem_of_lookup_2 _ _ _ Hx))).
  pose proof (sorted_lookup_lt ps 0 1 x y Hs ltac:(lia) Hx Hy).
  destruct (decide (i = 1%nat)) as [->|]; [lia|].
  pose proof (sorted_lookup_lt ps 1 i y p Hs ltac:(lia) Hy Hpi). lia.
Qed.

(** The first two of the first [n] primes are 2 and 3. *)
Lemma first_primes_head (n : Z) (ps : list Z) :
  first_of Z.prime n ps ->
  (forall x, ps !! 0%nat = Some x -> x = 2)
  /\ (forall y, ps !! 1%nat = Some y -> y = 3).
Proof.
  intros (_ & Hs & Hp & Hc).
  assert (H0 : forall x, ps !! 0%nat = Some x -> x = 2).
  { intros x Hx. pose proof (Z.prime_ge_2 x (Hp x (list_elem_of_lookup_2 _ _ _ Hx))).
    destruct (decide (x = 2)) as [|Hne]; [done|exfalso].
    assert (Hin : 2 ∈ ps).
    { apply (Hc x 2); [by eapply list_elem_of_lookup_2|apply Z.prime_2|lia]. }
    apply list_elem_of_lookup_1 in Hin as [j Hj].
    destruct (decide (j = 0%nat)) as [->|]; [congruence|].
    pose proof (sorted_lookup_lt ps 0 j x 2 Hs ltac:(lia) Hx Hj). lia. }
  split; [done|]. intros y Hy.
  destruct (lookup_lt_is_Some_2 ps 0) as [x Hx]; [apply lookup_lt_Some in Hy; lia|].
  pose proof (H0 x Hx) as ->.
  pose proof (sorted_lookup_lt ps 0 1 2 y Hs ltac:(lia) Hx Hy).
  destruct (decide (y = 3)) as [|Hne]; [done|exfalso].
  assert (Hin : 3 ∈ ps).
  { apply (Hc y 3); [by eapply list_elem_of_lookup_2|apply Z.prime_3|lia]. }
  apply list_elem_of_lookup_1 in Hin as [j Hj].
  destruct (decide (j = 0%nat)) as [->|]; [congruence|].
  destruct (decide (j = 1%nat)) as [->|]; [congruence|].
  pose proof (sorted_lookup_lt ps 1 j y 3 Hs ltac:(lia) Hy Hj). lia.
Qed.

(** The state of the loop after a run is determined by the records. *)
Lemma layers_run_state (ps : list Z) (recs : list record) :
  layers_trace ∅ 1 ps recs ->
  returns (fun fuel => layers_run fuel ps)
          (fun st => st = (used_endpoints recs, recs)).
Proof.
  intros Htrace. eapply returns_weaken; [|apply layers_run_returns].
  intros [E recs'] [Htrace' HE]. simpl in *.
  pose proof (layers_trace_unique _ _ _ _ _ Htrace' Htrace) as ->. by subst.
Qed.

(** The record at a position [i >= 2] (rank [i + 1 >= 3]) of the records
    prescribed for the first [n] primes. *)
Lemma void_rule_at (n : Z) (ps : list Z) (recs : list record) (i : nat) (r : record) :
  first_of Z.prime n ps -> layers_trace ∅ 1 ps recs ->
  (2 <= i)%nat -> recs !! i = Some r ->
  let before := take i recs in
  r_k r = Z.of_nat i + 1
  /\ returns (fun fuel => layers_run fuel (take i ps))
             (fun st => st = (used_endpoints before, before))
  /\ least_unused (used_endpoints before) (r_void r)
  /\ returns (fun fuel => layers_run fuel (take (S i) ps))
             (fun st => st = (used_endpoints before ∪ {[r_void r; r_prime r]},
                              before ++ [r]))
  /\ (forall r', r' ∈ before -> r_void r <> r_void r' /\ r_void r <> r_prime r')
  /\ r_void r <> r_prime r.
Proof.
  intros Hps Htrace Hi Hr before.
  destruct (first_of_sorted_primes _ _ Hps) as [Hs Hp].
  assert (Hlt : Forall (fun r => 1 <= r_void r < r_prime r) recs).
  { apply (layers_trace_void_lt ∅ 1 ps _ 0 Htrace); [lia| |done|done|].
    - intros x Hx. by apply not_elem_of_empty in Hx.
    - eapply Forall_impl; [exact Hp|]. intros p Hpp. simpl.
      pose proof (Z.prime_ge_2 p Hpp). lia. }
  rewrite Forall_forall in Hlt.
  destruct (layers_trace_at _ _ _ _ _ _ Htrace Hr)
    as (p & Hpi & Hbefore & Hassign & Hrec & Hupto).
  assert (Hrp : r_prime r = p) by (by rewrite Hrec).
  pose proof (sorted_primes_from_third _ _ _ Hs Hp Hi Hpi) as Hp3.
  assert (Hleast : least_unused (used_endpoints before) (r_void r)).
  { replace (∅ ∪ used_endpoints (take i recs))
      with (used_endpoints before) in Hassign by (unfold before; set_eq_tauto).
    inversion Hassign; [lia|lia|done]. }
  split; [rewrite Hrec; simpl; lia|].
  split; [by apply layers_run_state|].
  split; [done|].
  split.
  { rewrite (take_S_r _ _ _ Hr) in Hupto.
    eapply returns_weaken; [|apply (layers_run_state _ _ Hupto)].
    intros st ->. by rewrite used_endpoints_snoc. }
  split.
  + destruct Hleast as (_ & Hnin & _). intros r' Hr'. unfold used_endpoints in Hnin.
    split; intros Heq; apply Hnin; rewrite Heq, elem_of_union, !elem_of_list_to_set.
    * left. by apply list_elem_of_fmap_2.
    * right. by apply list_elem_of_fmap_2.
  + specialize (Hlt r (list_elem_of_lookup_2 _ _ _ Hr)). lia.
Qed.

(** The two hard-coded ranks: the records of the primes 2 and 3, and the
    used endpoints the loop holds after each of them. *)
Lemma hard_coded_ranks (n : Z) (ps : list Z) (recs : list record) :
  first_of Z.prime n ps -> layers_trace ∅ 1 ps recs ->
  (forall r, recs !! 0%nat = Some r ->
     r_k r = 1 /\ r_prime r = 2 /\ r_void r = 1
     /\ returns (fun fuel => layers_run fuel (take 1 ps))
                (fun st => st = ({[1; 2]}, [r])))
  /\ (forall r0 r, recs !! 0%nat = Some r0 -> recs !! 1%nat = Some r ->
        r_k r = 2 /\ r_prime r = 3 /\ r_void r = 2
        /\ returns (fun fuel => layers_run fuel (take 2 ps))
                   (fun st => st = ({[1; 2; 3]}, [r0; r]))).
Proof.
  intros Hps Htrace. destruct (first_primes_head _ _ Hps) as [Hhead0 Hhead1].
  assert (H0 : forall r, recs !! 0%nat = Some r ->
            r = mk_record 1 2 1 1 (ratio_of 2 1)
            /\ layers_trace ∅ 1 (take 1 ps) (take 1 recs)).
  { intros r Hr.
    destruct (layers_trace_at _ _ _ _ _ _ Htrace Hr) as (p & Hpi & _ & Hassign & Hrec & Hupto).
    apply Hhead0 in Hpi as ->. split; [|done].
    assert (r_void r = 1) as Hv by (inversion Hassign; [done|congruence]).
    rewrite Hrec, Hv. done. }
  assert (H1 : forall r, recs !! 1%nat = Some r ->
            r = mk_record 2 3 2 1 (ratio_of 3 2)
            /\ layers_trace ∅ 1 (take 2 ps) (take 2 recs)).
  { intros r Hr.
    destruct (layers_trace_at _ _ _ _ _ _ Htrace Hr) as (p & Hpi & _ & Hassign & Hrec & Hupto).
    apply Hhead1 in Hpi as ->. split; [|done].
    assert (r_void r = 2) as Hv by (inversion Hassign; [congruence|done]).
    rewrite Hrec, Hv. done. }
  split.
  - intros r Hr. destruct (H0 r Hr) as [Hrec Hupto].
    rewrite (take_S_r _ _ _ Hr), take_0 in Hupto. cbn [app] in Hupto.
    split; [by rewrite Hrec|]. split; [by rewrite Hrec|]. split; [by rewrite Hrec|].
    eapply returns_weaken; [|apply (layers_run_state _ _ Hupto)].
    intros st ->. f_equal. rewrite Hrec. unfold used_endpoints. simpl. set_eq_tauto.
  - intros r0 r Hr0 Hr. destruct (H0 r0 Hr0) as [Hrec0 _].
    destruct (H1 r Hr) as [Hrec Hupto].
    rewrite (take_S_r _ _ _ Hr), (take_S_r _ _ _ Hr0), take_0 in Hupto.
    cbn [app] in Hupto.
    split; [by rewrite Hrec|]. split; [by rewrite Hrec|]. split; [by rewrite Hrec|].
    eapply returns_weaken; [|apply (layers_run_state _ _ Hupto)].
    intros st ->. f_equal. rewrite Hrec0, Hrec. unfold used_endpoints. simpl.
    set_eq_tauto.
Qed.

(** C1. With enough fuel the constructor returns one record per prime, in
    the order of the first [n] primes, such that: the record of rank 1 is
    that of the prime 2 with void 1, after which the used endpoints are
    [{1, 2}]; the record of rank 2 is that of the prime 3 with void 2,
    after which they are [{1, 2, 3}]; and at every rank [k >= 3] (position
    [i = k - 1 >= 2]) there is a record, the loop reaches that rank with
    [endpoints] equal to the set of the voids and primes of the records of
    smaller rank, the void of the record is the smallest positive integer
    outside that set, the loop leaves the rank with the void and the prime
    inserted, and the void differs from every void and prime of smaller
    rank and from the prime of its own rank. *)
Theorem void_is_least_unused (log_bound : Z -> Z) (n : Z) :
  (forall n, 6 <= n -> 2 <= log_bound n) -> 0 <= n ->
  returns (fun fuel => LayerSystem_init log_bound fuel n)
    (fun self =>
       length (results self) = Z.to_nat n
       /\ first_of Z.prime n (primes self)
       /\ r_prime <$> results self = primes self
       /\ (1 <= n ->
           exists r, results self !! 0%nat = Some r
             /\ r_k r = 1 /\ r_prime r = 2 /\ r_void r = 1
             /\ returns (fun fuel => layers_run fuel (take 1 (primes self)))
                        (fun st => st = ({[1; 2]}, [r])))
       /\ (2 <= n ->
           exists r0 r, results self !! 0%nat = Some r0
             /\ results self !! 1%nat = Some r
             /\ r_k r = 2 /\ r_prime r = 3 /\ r_void r = 2
             /\ returns (fun fuel => layers_run fuel (take 2 (primes self)))
                        (fun st => st = ({[1; 2; 3]}, [r0; r])))
       /\ forall i : nat, (2 <= i)%nat -> Z.of_nat i < n ->
            exists r, results self !! i = Some r
              /\ let before := take i (results self) in
                 r_k r = Z.of_nat i + 1
                 /\ returns (fun fuel => layers_run fuel (take i (primes self)))
                            (fun st => st = (used_endpoints before, before))
                 /\ least_unused (used_endpoints before) (r_void r)
                 /\ returns (fun fuel => layers_run fuel (take (S i) (primes self)))
                            (fun st =>
                               st = (used_endpoints before ∪ {[r_void r; r_prime r]},
                                     before ++ [r]))
                 /\ (forall r', r' ∈ before ->
                       r_void r <> r_void r' /\ r_void r <> r_prime r')
                 /\ r_void r <> r_prime r).
Proof.
  intros Hlb Hn. eapply returns_weaken; [|by apply LayerSystem_init_returns].
  intros self (_ & Hps & _ & Htrace).
  pose proof (layers_trace_length _ _ _ _ Htrace) as Hlen.
  pose proof Hps as [Hplen _]. rewrite Hplen in Hlen.
  destruct (hard_coded_ranks _ _ _ Hps Htrace) as [Hrank1 Hrank2].
  split; [done|]. split; [done|].
  split; [by apply (layers_trace_primes _ _ _ _ Htrace)|].
  split; [|split].
  - intros Hn1.
    destruct (lookup_lt_is_Some_2 (results self) 0) as [r Hr]; [lia|].
    exists r. split; [done|]. by apply Hrank1.
  - intros Hn2.
    destruct (lookup_lt_is_Some_2 (results self) 0) as [r0 Hr0]; [lia|].
    destruct (lookup_lt_is_Some_2 (results self) 1) as [r Hr]; [lia|].
    exists r0, r. split; [done|]. split; [done|]. by apply Hrank2.
  - intros i Hi Hin.
    destruct (lookup_lt_is_Some_2 (results self) i) as [r Hr]; [lia|].
    exists r. split; [done|]. by apply (void_rule_at n).
Qed.

(** On the first 10 primes: the third record is that of the prime 5, it
    is reached with the used endpoints [{1, 2, 3}] and its void is 4. *)
Lemma void_is_least_unused_witness :
  (forall n, 6 <= n -> 2 <= (fun _ : Z => 51) n) /\ 0 <= 10
  /\ exists r, results system_of_10 !! 2%nat = Some r
       /\ r_k r = 3 /\ r_prime r = 5 /\ r_void r = 4
       /\ least_unused (used_endpoints (take 2 (results system_of_10))) (r_void r)
       /\ used_endpoints (take 2 (results system_of_10)) = {[1; 2; 3]}.
Proof.
  split; [intros; lia|]. split; [lia|].
  assert (Hrun : LayerSystem_init (fun _ => 51) 30 10 = Ok system_of_10)
    by (vm_compute; reflexivity).
  pose proof (returns_inv _ _ 30%nat system_of_10
                (LayerSystem_init_fuel_mono (fun _ => 51) 10)
                (void_is_least_unused (fun _ => 51) 10
                   ltac:(intros; lia) ltac:(lia)) Hrun)
    as (_ & _ & _ & _ & _ & Hrule).
  destruct (Hrule 2%nat ltac:(lia) ltac:(lia)) as (r & Hr & _ & _ & Hleast & _).
  exists r. split; [exact Hr|].
  cbv in Hr. injection Hr as <-.
  split; [reflexivity|]. split; [reflexivity|]. split; [reflexivity|].
  split; [exact Hleast|].
  unfold used_endpoints. simpl. set_eq_tauto.
Defined.

(** ** Verification of the bijection *)

Lemma bijection_step_ok (cs : list Z) (r : record) (m : Z) (mm : list mismatch) :
  (3 <= r_k r -> r_k r - 3 < len cs) ->
  bijection_step cs (m, mm) r
  = Ok (if considered r && is_match cs r then (m + 1, mm)
        else if considered r then (m, mm ++ [mismatch_of cs r])
        else (m, mm)).
Proof.
  intros Hr. unfold bijection_step, considered, is_match, mismatch_of.
  destruct (Z.leb_spec 3 (r_k r)) as [Hk|Hk]; [|done].
  specialize (Hr Hk). unfold len in Hr.
  destruct (lookup_lt_is_Some_2 cs (Z.to_nat (r_k r - 3))) as [x Hx]; [lia|].
  rewrite (getitem_ok _ _ x) by (done || lia). rewrite bind_Ok.
  unfold expected_composite. rewrite Hx. simpl.
  by destruct (Z.eqb_spec (r_void r) x).
Qed.

Lemma bijection_loop (cs : list Z) (recs : list record) (m0 : Z) (mm0 : list mismatch) :
  Forall (fun r => 3 <= r_k r -> r_k r - 3 < len cs) recs ->
  foldM (bijection_step cs) recs (m0, mm0)
  = Ok (m0 + len (List.filter (fun r => considered r && is_match cs r) recs),
        mm0 ++ map (mismatch_of cs)
                   (List.filter (fun r => considered r && negb (is_match cs r)) recs)).
Proof.
  intros Hrange. revert m0 mm0.
  induction Hrange as [|r recs Hr Hrange IH]; intros m0 mm0.
  { simpl. unfold len. simpl. by rewrite Z.add_0_r, app_nil_r. }
  cbn [foldM]. rewrite (bijection_step_ok cs r m0 mm0 Hr), bind_Ok.
  cbn [List.filter].
  destruct (considered r), (is_match cs r); cbn [andb negb]; rewrite IH;
    f_equal; f_equal; unfold len; simpl; try lia.
  by rewrite <- app_assoc.
Qed.

(** What [verify_bijection] returns when every considered rank has a
    composite to compare with. *)
Lemma verify_bijection_ok (self : LayerSystem) :
  Forall (fun r => 3 <= r_k r -> r_k r - 3 < len (composites self)) (results self) ->
  let cs := composites self in
  let total := len (List.filter considered (results self)) in
  let matches :=
    len (List.filter (fun r => considered r && is_match cs r) (results self)) in
  verify_bijection self
  = Ok (mk_verification total matches
          (if 0 <? total
           then PrimFloat.div (float_of_Z (100 * matches)) (float_of_Z total)
           else 0%float)
          (map (mismatch_of cs)
             (List.filter (fun r => considered r && negb (is_match cs r))
                (results self)))).
Proof.
  intros Hrange cs tot mat. unfold verify_bijection.
  rewrite bijection_loop by done. rewrite bind_Ok. cbn [app]. rewrite Z.add_0_l.
  fold cs. fold mat. change (fun r : record => 3 <=? r_k r) with considered. fold tot.
  destruct (Z.ltb_spec 0 tot) as [Htot|Htot]; [|done].
  unfold py_truediv. by destruct (Z.eqb_spec tot 0); [lia|].
Qed.

Lemma filter_partition_length {A : Type} (f g : A -> bool) (l : list A) :
  length (List.filter f l)
  = (length (List.filter (fun x => f x && g x) l)
     + length (List.filter (fun x => f x && negb (g x)) l))%nat.
Proof.
  induction l as [|x l IH]; [done|]. simpl.
  destruct (f x), (g x); simpl; lia.
Qed.

(** C4. When every record of rank [k >= 3] has a composite at position
    [k - 3], [verify_bijection] returns: as [total] the number of records
    of rank 3 and more; as [matches] the number of those whose void is the
    composite at position [k - 3]; as [accuracy] the float quotient of
    [100 * matches] by [total] (and 0 when [total] is 0); and as
    [mismatches] the rank, void and expected composite of every other
    record of rank 3 and more, in order. *)
Theorem verify_bijection_spec (self : LayerSystem) :
  Forall (fun r => 3 <= r_k r -> r_k r - 3 < len (composites self)) (results self) ->
  exists vr,
    verify_bijection self = Ok vr
    /\ total vr = len (List.filter considered (results self))
    /\ matches vr
       = len (List.filter (fun r => considered r && is_match (composites self) r)
                (results self))
    /\ accuracy vr
       = (if 0 <? total vr
          then PrimFloat.div (float_of_Z (100 * matches vr)) (float_of_Z (total vr))
          else 0%float)
    /\ mismatches vr
       = map (mismatch_of (composites self))
           (List.filter (fun r => considered r && negb (is_match (composites self) r))
              (results self))
    /\ total vr = matches vr + len (mismatches vr).
Proof.
  intros Hrange. eexists. split; [by apply verify_bijection_ok|]. cbn.
  repeat (split; [done|]). unfold len.
  rewrite length_map, (filter_partition_length considered (is_match (composites self))).
  lia.
Qed.

Lemma verify_bijection_spec_witness :
  let self :=
    mk_LayerSystem 3 [2; 3; 5] [4; 6; 8]
      [mk_record 1 2 1 1 None; mk_record 2 3 2 1 None; mk_record 3 5 4 1 None] in
  Forall (fun r => 3 <= r_k r -> r_k r - 3 < len (composites self)) (results self)
  /\ exists vr, verify_bijection self = Ok vr /\ total vr = 1.
Proof.
  intros self.
  assert (Hrange : Forall (fun r => 3 <= r_k r -> r_k r - 3 < len (composites self))
                     (results self)).
  { repeat constructor; simpl; unfold len; simpl; lia. }
  split; [done|].
  destruct (verify_bijection_spec self Hrange) as (vr & Hvr & Htotal & _).
  exists vr. split; [done|]. rewrite Htotal. reflexivity.
Defined.

(** ** The voids are the composites *)

Lemma first_of_take (P : Z -> Prop) (n k : Z) (l : list Z) :
  first_of P n l -> 0 <= k <= n -> first_of P k (take (Z.to_nat k) l).
Proof.
  intros (Hlen & Hs & Hp & Hc) Hk.
  split; [rewrite length_take; lia|]. split; [by apply sorted_take|]. split.
  - intros x (i & Hi & _)%elem_of_take. apply Hp. by eapply list_elem_of_lookup_2.
  - intros x y (i & Hi & Hik)%elem_of_take Hy Hyx.
    assert (Hyl : y ∈ l) by (apply (Hc x y); [by eapply list_elem_of_lookup_2|done..]).
    apply list_elem_of_lookup_1 in Hyl as [j Hj]. apply elem_of_take. exists j.
    split; [done|]. pose proof (sorted_lookup_inv l j i y x Hs Hj Hi Hyx). lia.
Qed.

Lemma composites_below_snoc (m v : Z) :
  3 <= m + 1 -> m < v -> composite v ->
  (forall x, m < x < v -> Z.prime x) ->
  composites_below (v + 1) = composites_below (m + 1) ++ [v].
Proof.
  intros Hm Hmv Hv Hbetween. unfold composites_below.
  destruct Hv as [Hv4 Hvp].
  assert (Hgap : filter composite (seqZ (m + 1) (v - (m + 1))) = []).
  { apply elem_of_nil_inv. intros x [[_ Hx] Hin%elem_of_seqZ]%list_elem_of_filter.
    apply Hx, Hbetween. lia. }
  destruct (Z.le_gt_cases 4 (m + 1)) as [Hm4|Hm4].
  - replace (v + 1 - 4) with ((m + 1 - 4) + (v - (m + 1)) + 1) by lia.
    rewrite !seqZ_app, !filter_app by lia.
    replace (4 + (m + 1 - 4)) with (m + 1) by lia. rewrite Hgap, app_nil_r. f_equal.
    replace (4 + (m + 1 - 4 + (v - (m + 1)))) with v by lia.
    rewrite (seqZ_cons v 1), (seqZ_nil (Z.succ v)) by lia.
    rewrite filter_cons_True by done. done.
  - rewrite (seqZ_nil 4 (m + 1 - 4)) by lia. rewrite filter_nil, app_nil_l.
    replace (v + 1 - 4) with ((v - 4) + 1) by lia.
    rewrite seqZ_app, filter_app by lia.
    replace (4 + (v - 4)) with v by lia.
    rewrite (seqZ_cons v 1), (seqZ_nil (Z.succ v)) by lia.
    rewrite filter_cons_True, filter_nil by done.
    replace (filter composite (seqZ 4 (v - 4))) with (@nil Z); [done|].
    symmetry. apply elem_of_nil_inv.
    intros x [[_ Hx] Hin%elem_of_seqZ]%list_elem_of_filter. apply Hx, Hbetween. lia.
Qed.

(** From a state whose used endpoints are the integers up to [m] and the
    primes up to [p0], on the primes that follow [p0] without a gap, the
    voids are the composites that follow [m], without a gap. *)
Lemma layers_trace_voids (E : gset Z) (k : Z) (ps : list Z) (recs : list record)
  (m p0 : Z) :
  layers_trace E k ps recs ->
  2 <= m <= p0 -> 3 <= p0 -> Z.prime p0 ->
  (forall x, x ∈ E <-> 1 <= x <= m \/ (Z.prime x /\ x <= p0)) ->
  StronglySorted Z.lt ps -> Forall Z.prime ps ->
  (forall p, p ∈ ps -> p0 < p) ->
  (forall p q, p ∈ ps -> Z.prime q -> p0 < q -> q < p -> q ∈ ps) ->
  exists m', m <= m'
    /\ composites_below (m + 1) ++ (r_void <$> recs) = composites_below (m' + 1).
Proof.
  intros Htrace. revert m p0.
  induction Htrace as [|E k p v ps recs Hv Htrace IH];
    intros m p0 Hm Hp0 Hp0p HE Hs Hp Habove Hclosed.
  { exists m. split; [lia|]. by rewrite fmap_nil, app_nil_r. }
  apply StronglySorted_inv in Hs as [Hs Hlt]. rewrite Forall_forall in Hlt.
  apply Forall_cons in Hp as [Hpp Hps].
  assert (Hp0lt : p0 < p) by (apply Habove; left).
  assert (Hnext : forall q, Z.prime q -> p0 < q -> q < p -> False).
  { intros q Hq Hq0 Hqp.
    assert (Hin : q ∈ p :: ps) by (apply (Hclosed p q); [left|done..]).
    apply elem_of_cons in Hin as [->|Hin]; [lia|]. specialize (Hlt q Hin). lia. }
  assert (Hgap : p0 + 2 <= p) by (apply prime_gap; [done|done|lia|done]).
  destruct Hv as [| |p v Hp2 Hp3 (Hv1 & Hnin & Hbelow)]; [lia|lia|].
  assert (Hmv : m < v).
  { destruct (Z.lt_ge_cases m v) as [|Hle]; [done|exfalso].
    apply Hnin, HE. left. lia. }
  assert (Hvle : v <= p0 + 1).
  { destruct (Z.le_gt_cases v (p0 + 1)) as [|Hgt]; [done|exfalso].
    specialize (Hbelow (p0 + 1) ltac:(lia)). apply HE in Hbelow as [?|[_ ?]]; lia. }
  assert (Hvnp : ~ Z.prime v).
  { intros Hvp. destruct (Z.le_gt_cases v p0) as [Hle|Hgt].
    - apply Hnin, HE. by right.
    - apply (Hnext v); [done|lia|lia]. }
  assert (Hvc : composite v).
  { split; [|done]. destruct (decide (v = 3)) as [->|]; [|lia].
    destruct Hvnp. apply Z.prime_3. }
  assert (Hbetween : forall x, m < x < v -> Z.prime x).
  { intros x Hx. specialize (Hbelow x ltac:(lia)).
    apply HE in Hbelow as [?|[? _]]; [lia|done]. }
  destruct (IH v p) as (m' & Hm' & Heq).
  - lia.
  - lia.
  - done.
  - intros x. rewrite elem_of_union, elem_of_union, !elem_of_singleton, HE. split.
    + intros [[Hx|[Hx ?]]|[->| ->]].
      * left. lia.
      * right. split; [done|lia].
      * left. lia.
      * right. split; [done|lia].
    + intros [Hx|[Hx Hxp]].
      * destruct (decide (x = v)) as [->|]; [right; by left|].
        destruct (Z.le_gt_cases x m); [left; left; lia|].
        left. right. split; [apply Hbetween; lia|].
        destruct (Z.le_gt_cases x p0) as [|Hgt]; [done|exfalso]. lia.
      * destruct (decide (x = p)) as [->|]; [right; by right|].
        left. right. split; [done|].
        destruct (Z.le_gt_cases x p0) as [|Hgt]; [done|exfalso].
        apply (Hnext x); [done|lia|lia].
  - done.
  - done.
  - done.
  - intros p' q Hp' Hq Hpq Hqp'.
    assert (Hin : q ∈ p :: ps) by (apply (Hclosed p' q); [by right|done|lia|done]).
    apply elem_of_cons in Hin as [->|Hin]; [lia|done].
  - exists m'. split; [lia|]. rewrite fmap_cons. simpl.
    rewrite <- Heq, (composites_below_snoc m v), <- app_assoc by (done || lia). done.
Qed.

(** The records of the first [n >= 2] primes: two records of ranks 1 and
    2, then [n - 2] records whose void is the composite at position
    [k - 3] of the first [n] composites. *)
Lemma layers_trace_bijection (n : Z) (ps cs : list Z) (recs : list record) :
  first_of Z.prime n ps -> first_of composite n cs ->
  layers_trace ∅ 1 ps recs -> 2 <= n ->
  exists r1 r2 recs',
    recs = r1 :: r2 :: recs'
    /\ r_k r1 = 1 /\ r_k r2 = 2
    /\ length recs' = Z.to_nat (n - 2)
    /\ Forall (fun r => 3 <= r_k r <= n
                        /\ cs !! Z.to_nat (r_k r - 3) = Some (r_void r)) recs'.
Proof.
  intros Hps Hcs Htrace Hn.
  destruct (first_primes_head _ _ Hps) as [Hhead0 Hhead1].
  pose proof Hps as (Hlen & Hs & Hp & Hc).
  destruct ps as [|a [|b rest]]; [simpl in Hlen; lia..|].
  pose proof (Hhead0 a eq_refl) as ->. pose proof (Hhead1 b eq_refl) as ->.
  inversion Htrace as [|E1 k1 p1 v1 ps1 recs1 Hv1 Htrace1]; subst.
  inversion Htrace1 as [|E2 k2 p2 v2 ps2 recs' Hv2 Htrace2]; subst.
  assert (v1 = 1) as -> by (inversion Hv1; [done|congruence]).
  assert (v2 = 2) as -> by (inversion Hv2; [done|congruence]).
  apply StronglySorted_inv in Hs as [Hs Hlt2]. rewrite Forall_forall in Hlt2.
  apply StronglySorted_inv in Hs as [Hs Hlt3]. rewrite Forall_forall in Hlt3.
  destruct (layers_trace_voids _ _ _ _ 2 3 Htrace2) as (m' & Hm' & Hvoids).
  - lia.
  - lia.
  - apply Z.prime_3.
  - intros x. rewrite !elem_of_union, !elem_of_singleton, elem_of_empty. split.
    + intros [[[]|[->| ->]]|[->| ->]]; try (left; lia).
      right. split; [apply Z.prime_3|lia].
    + intros [Hx|[Hx Hx3]].
      * destruct (decide (x = 1)) as [->|]; [left; right; by left|].
        assert (x = 2) as -> by lia. right. by left.
      * pose proof (Z.prime_ge_2 x Hx).
        destruct (decide (x = 2)) as [->|]; [right; by left|].
        assert (x = 3) as -> by lia. right. by right.
  - done.
  - apply Forall_forall. intros p Hpin. apply Hp. right. by right.
  - done.
  - intros p q Hpin Hq Hq3 Hqp.
    assert (Hin : q ∈ 2 :: 3 :: rest) by (apply (Hc p q); [right; by right|done..]).
    apply elem_of_cons in Hin as [->|Hin]; [lia|].
    apply elem_of_cons in Hin as [->|Hin]; [lia|done].
  - change (composites_below (2 + 1)) with (@nil Z) in Hvoids.
    rewrite app_nil_l in Hvoids.
    assert (Hlen' : length recs' = Z.to_nat (n - 2)).
    { rewrite (layers_trace_length _ _ _ _ Htrace2). simpl in Hlen. lia. }
    assert (Hvlen : length (composites_below (m' + 1)) = Z.to_nat (n - 2))
      by (by rewrite <- Hvoids, length_fmap).
    assert (Hfirst : first_of composite (n - 2) (composites_below (m' + 1))).
    { rewrite <- (take_ge (composites_below (m' + 1)) (Z.to_nat (n - 2))) by lia.
      unfold composites_below.
      apply take_filter_seqZ_first_of; [by intros x [? _]|].
      fold (composites_below (m' + 1)). lia. }
    pose proof (first_of_take composite n (n - 2) cs Hcs ltac:(lia)) as Htake.
    pose proof (first_of_unique _ _ _ _ Hfirst Htake) as Heq.
    rewrite <- Hvoids in Heq.
    eexists _, _, recs'. split; [done|]. split; [done|]. split; [done|].
    split; [done|]. apply Forall_forall. intros r [j Hj]%list_elem_of_lookup_1.
    pose proof (layers_trace_ranks _ _ _ _ _ _ Htrace2 Hj) as Hrank.
    pose proof (lookup_lt_Some _ _ _ Hj) as Hjlt.
    split; [lia|].
    assert (Hvj : (r_void <$> recs') !! j = Some (r_void r))
      by (by rewrite list_lookup_fmap, Hj).
    rewrite Heq in Hvj. apply lookup_take_Some in Hvj as [Hvj _].
    by replace (Z.to_nat (r_k r - 3)) with j by lia.
Qed.

Lemma filter_all {A : Type} (f : A -> bool) (l : list A) :
  Forall (fun x => f x = true) l -> List.filter f l = l.
Proof. induction 1 as [|x l Hx _ IH]; simpl; [done|]. by rewrite Hx, IH. Qed.

Lemma filter_none {A : Type} (f : A -> bool) (l : list A) :
  Forall (fun x => f x = false) l -> List.filter f l = [].
Proof. induction 1 as [|x l Hx _ IH]; simpl; [done|]. by rewrite Hx. Qed.

(** On the system of the first [n >= 2] primes [verify_bijection] finds
    [n - 2] records of rank 3 and more, all of them matches. *)
Lemma verify_bijection_all_match (self : LayerSystem) (n : Z) :
  2 <= n ->
  first_of Z.prime n (primes self) ->
  first_of composite n (composites self) ->
  layers_trace ∅ 1 (primes self) (results self) ->
  verify_bijection self
  = Ok (mk_verification (n - 2) (n - 2)
          (if 0 <? n - 2
           then PrimFloat.div (float_of_Z (100 * (n - 2))) (float_of_Z (n - 2))
           else 0%float)
          [])
  /\ forall r, r ∈ results self -> 3 <= r_k r ->
       composites self !! Z.to_nat (r_k r - 3) = Some (r_void r).
Proof.
  intros Hn Hps Hcs Htrace.
  destruct (layers_trace_bijection n _ _ _ Hps Hcs Htrace Hn)
    as (r1 & r2 & recs' & Hrecs & Hk1 & Hk2 & Hlen & Hall).
  assert (Hclen : len (composites self) = n).
  { destruct Hcs as [Hclen _]. unfold len. lia. }
  assert (Hrange : Forall (fun r => 3 <= r_k r -> r_k r - 3 < len (composites self))
                     (results self)).
  { rewrite Hrecs. constructor; [lia|]. constructor; [lia|].
    eapply Forall_impl; [exact Hall|]. intros r [Hr _] _. simpl in *. lia. }
  assert (Hconsidered : Forall (fun r => considered r = true) recs').
  { eapply Forall_impl; [exact Hall|]. intros r [Hr _]. unfold considered.
    simpl in *. apply Z.leb_le. lia. }
  assert (Hmatch : Forall (fun r => considered r && is_match (composites self) r = true)
                     recs').
  { eapply Forall_impl; [exact Hall|]. intros r [Hr Hcomp]. simpl in *.
    unfold considered, is_match, expected_composite. rewrite Hcomp. simpl.
    apply andb_true_iff. split; [apply Z.leb_le; lia|apply Z.eqb_refl]. }
  assert (Hmismatch : Forall (fun r => considered r && negb (is_match (composites self) r)
                                       = false) recs').
  { eapply Forall_impl; [exact Hmatch|]. intros r Hr. simpl in *.
    apply andb_true_iff in Hr as [-> ->]. done. }
  split.
  - assert (Hc1 : considered r1 = false) by (unfold considered; by rewrite Hk1).
    assert (Hc2 : considered r2 = false) by (unfold considered; by rewrite Hk2).
    rewrite (verify_bijection_ok self Hrange). rewrite Hrecs. cbn [List.filter].
    rewrite Hc1, Hc2. cbn [andb].
    rewrite (filter_all _ _ Hconsidered), (filter_all _ _ Hmatch),
      (filter_none _ _ Hmismatch).
    unfold len. rewrite Hlen. replace (Z.of_nat (Z.to_nat (n - 2))) with (n - 2) by lia.
    done.
  - intros r Hr Hk. rewrite Hrecs in Hr.
    apply elem_of_cons in Hr as [->|Hr]; [lia|].
    apply elem_of_cons in Hr as [->|Hr]; [lia|].
    rewrite Forall_forall in Hall. by destruct (Hall r Hr) as [_ ?].
Qed.

(** C3. For [n_primes = 1000] and any admissible sieve bound estimate, the
    constructor returns a system on which [verify_bijection] reports 998
    records of rank 3 and more, 998 matches, accuracy 100.0 and no
    mismatch; that is, the void of every record of rank [k >= 3] is the
    composite at position [k - 3]. *)
Theorem bijection_holds_for_1000 (log_bound : Z -> Z) :
  (forall n, 6 <= n -> 2 <= log_bound n) ->
  returns (fun fuel => LayerSystem_init log_bound fuel 1000)
    (fun self =>
       verify_bijection self = Ok (mk_verification 998 998 100%float [])
       /\ forall r, r ∈ results self -> 3 <= r_k r ->
            composites self !! Z.to_nat (r_k r - 3) = Some (r_void r)).
Proof.
  intros Hlb.
  eapply returns_weaken; [|apply (LayerSystem_init_returns log_bound Hlb 1000); lia].
  intros self (_ & Hps & Hcs & Htrace).
  destruct (verify_bijection_all_match self 1000 ltac:(lia) Hps Hcs Htrace)
    as [Hverify Hvoids].
  split; [|done]. rewrite Hverify. reflexivity.
Qed.

Lemma bijection_holds_for_1000_witness :
  (forall n, 6 <= n -> 2 <= (fun _ : Z => 10840) n)
  /\ returns (fun fuel => LayerSystem_init (fun _ => 10840) fuel 1000)
       (fun self =>
          verify_bijection self = Ok (mk_verification 998 998 100%float [])
          /\ forall r, r ∈ results self -> 3 <= r_k r ->
               composites self !! Z.to_nat (r_k r - 3) = Some (r_void r)).
Proof.
  split; [intros; lia|].
  apply (bijection_holds_for_1000 (fun _ => 10840)). intros; lia.
Defined.

(** ** The statistics layer *)

Lemma bind_Ok_inv {A B : Type} (m : result A) (f : A -> result B) (b : B) :
  (m ≫= f) = Ok b -> exists a, m = Ok a /\ f a = Ok b.
Proof. destruct m as [a| |]; try done. intros Hf. by exists a. Qed.

Lemma py_log_ok (x : R) : (0 < x)%R -> py_log x = Ok (ln x).
Proof. intros Hx. unfold py_log. by destruct (Rlt_dec 0 x). Qed.

Lemma py_sqrt_ok (x : R) : (0 <= x)%R -> py_sqrt x = Ok (sqrt x).
Proof. intros Hx. unfold py_sqrt. destruct (Rlt_dec x 0); [lra|done]. Qed.

Lemma py_fdiv_ok (x y : R) : y <> 0%R -> py_fdiv x y = Ok (x / y)%R.
Proof. intros Hy. unfold py_fdiv. by destruct (Req_dec_T y 0). Qed.

Lemma ln_pos (x : R) : (1 < x)%R -> (0 < ln x)%R.
Proof. intros Hx. rewrite <- ln_1. apply ln_increasing; lra. Qed.

Lemma ln_gt_1 (x : R) : (3 < x)%R -> (1 < ln x)%R.
Proof.
  intros Hx. rewrite <- (ln_exp 1) at 1.
  apply ln_increasing; [apply exp_pos|]. pose proof exp_le_3. lra.
Qed.

Lemma py_sum_from (xs : list R) (a : R) :
  fold_left Rplus xs a = (a + py_sum xs)%R.
Proof.
  unfold py_sum. revert a. induction xs as [|x xs IH]; intros a; simpl; [lra|].
  rewrite (IH (a + x)%R), (IH (0 + x)%R). lra.
Qed.

Lemma py_sum_nonneg (xs : list R) :
  Forall (fun x => (0 <= x)%R) xs -> (0 <= py_sum xs)%R.
Proof.
  induction 1 as [|x xs Hx Hxs IH]; unfold py_sum; simpl; [lra|].
  rewrite py_sum_from. lra.
Qed.

Lemma len_cons_neq_0 {A : Type} (x : A) (xs : list A) : IZR (len (x :: xs)) <> 0%R.
Proof. apply not_0_IZR. unfold len. simpl. lia. Qed.

Lemma len_cons_pos {A : Type} (x : A) (xs : list A) : (0 < IZR (len (x :: xs)))%R.
Proof. apply (IZR_lt 0). unfold len. simpl. lia. Qed.

Lemma average_ok (c : R) (cs : list R) :
  average (c :: cs) = Ok (py_sum (c :: cs) / IZR (len (c :: cs)))%R.
Proof. unfold average. apply py_fdiv_ok, len_cons_neq_0. Qed.

(** The standard deviation never raises: the argument of the square root
    is a mean of squares. *)
Lemma std_dev_ok (c : R) (cs : list R) (avg : R) :
  std_dev (c :: cs) avg
  = Ok (sqrt (py_sum (map (fun x => ((x - avg) ^ 2)%R) (c :: cs))
              / IZR (len (c :: cs)))).
Proof.
  unfold std_dev. rewrite py_fdiv_ok by apply len_cons_neq_0. rewrite bind_Ok.
  apply py_sqrt_ok. apply Rmult_le_pos.
  - apply py_sum_nonneg. apply Forall_forall. intros y Hy.
    apply list_elem_of_In, in_map_iff in Hy as (x & <- & _). apply pow2_ge_0.
  - apply Rlt_le, Rinv_0_lt_compat, len_cons_pos.
Qed.

(** One iteration of the loop of [calculate_constant]: either it goes on,
    or the logarithm rejects a qualifying prime that is at most 1. *)
Lemma constant_step_cases (min_prime : Z) (constants : list R) (r : record) :
  constant_step min_prime constants r
  = Ok (if qualifies min_prime r then constants ++ [constant_of r] else constants)
  \/ (constant_step min_prime constants r = Raise ValueError
      /\ qualifies min_prime r = true /\ r_prime r <= 1).
Proof.
  unfold constant_step, qualifies. cbv zeta.
  destruct ((min_prime <? r_prime r) && (0 <? r_sum r)) eqn:Hq; [|by left].
  apply andb_true_iff in Hq as [_ Hs%Z.ltb_lt].
  destruct (Z.le_gt_cases (r_prime r) 1) as [Hp|Hp].
  - right. split; [|done]. unfold py_log.
    destruct (Rlt_dec 0 (IZR (r_prime r))) as [Hpos|]; [|reflexivity]. rewrite bind_Ok.
    destruct (Rlt_dec 0 (ln (IZR (r_prime r)))) as [Hln|]; [|reflexivity].
    exfalso. apply (IZR_le _ 1) in Hp.
    pose proof (ln_increasing (IZR (r_prime r)) 1 Hpos) as Hinc.
    destruct (Req_dec_T (IZR (r_prime r)) 1) as [Heq|Hne].
    + rewrite Heq, ln_1 in Hln. lra.
    + specialize (Hinc ltac:(lra)). rewrite ln_1 in Hinc. lra.
  - left. apply (IZR_lt 1) in Hp.
    rewrite py_log_ok, bind_Ok by lra.
    rewrite py_log_ok, bind_Ok by (by apply ln_pos).
    rewrite py_fdiv_ok, bind_Ok by (apply not_0_IZR; lia). done.
Qed.

Lemma collect_constants_cases (min_prime : Z) (recs : list record) (constants : list R) :
  foldM (constant_step min_prime) recs constants
  = Ok (constants ++ map constant_of (List.filter (qualifies min_prime) recs))
  \/ (foldM (constant_step min_prime) recs constants = Raise ValueError
      /\ exists r, r ∈ recs /\ qualifies min_prime r = true /\ r_prime r <= 1).
Proof.
  revert constants. induction recs as [|r recs IH]; intros constants; cbn [foldM].
  { left. simpl. by rewrite app_nil_r. }
  destruct (constant_step_cases min_prime constants r) as [->|(-> & Hq & Hp)].
  - rewrite bind_Ok. cbn [List.filter].
    destruct (qualifies min_prime r).
    + destruct (IH (constants ++ [constant_of r])) as [->|(-> & r' & Hr' & Hbad)].
      * left. simpl. by rewrite <- app_assoc.
      * right. split; [done|]. exists r'. split; [by right|done].
    + destruct (IH constants) as [->|(-> & r' & Hr' & Hbad)]; [by left|].
      right. split; [done|]. exists r'. split; [by right|done].
  - right. split; [done|]. exists r. split; [left|done].
Qed.

(** What [calculate_constant] returns once the constants are collected. *)
Lemma calculate_constant_of_constants (self : LayerSystem) (min_prime : Z)
  (constants : list R) :
  collect_constants self min_prime = Ok constants ->
  calculate_constant self min_prime
  = Ok (match constants with
        | [] => 0%R
        | _ :: _ => (py_sum constants / IZR (len constants))%R
        end).
Proof.
  intros Hcs. unfold calculate_constant. rewrite Hcs, bind_Ok.
  destruct constants as [|c cs]; [done|].
  by rewrite average_ok, bind_Ok, std_dev_ok, bind_Ok.
Qed.

Lemma collect_constants_ok (self : LayerSystem) (min_prime : Z) :
  Forall (fun r => qualifies min_prime r = true -> 1 < r_prime r) (results self) ->
  collect_constants self min_prime
  = Ok (map constant_of (List.filter (qualifies min_prime) (results self))).
Proof.
  intros Hgood. unfold collect_constants.
  destruct (collect_constants_cases min_prime (results self) [])
    as [Hok|(_ & r & Hr & Hq & Hp)]; [done|exfalso].
  rewrite Forall_forall in Hgood. specialize (Hgood r Hr Hq). lia.
Qed.

(** The outcome of [calculate_constant] in the model: a value, or the
    domain error of a logarithm. *)
Lemma calculate_constant_cases (self : LayerSystem) (min_prime : Z) :
  (exists c, calculate_constant self min_prime = Ok c)
  \/ (calculate_constant self min_prime = Raise ValueError
      /\ exists r, r ∈ results self
           /\ 0 < r_sum r /\ min_prime < r_prime r /\ r_prime r <= 1).
Proof.
  destruct (collect_constants_cases min_prime (results self) [])
    as [Hok|(Herr & r & Hr & Hq & Hp)].
  - left. eexists. by apply calculate_constant_of_constants.
  - right. split.
    + unfold calculate_constant, collect_constants. by rewrite Herr.
    + exists r. split; [done|]. unfold qualifies in Hq.
      apply andb_true_iff in Hq as [Hmp%Z.ltb_lt Hs%Z.ltb_lt]. done.
Qed.

Lemma assigns_positive (E : gset Z) (p v : Z) : assigns E p v -> 1 <= v.
Proof. intros [| |p' v' _ _ (Hv & _)]; lia. Qed.

Lemma layers_trace_void_positive (E : gset Z) (k : Z) (ps : list Z)
  (recs : list record) :
  layers_trace E k ps recs -> Forall (fun r => 1 <= r_void r) recs.
Proof.
  induction 1 as [|E k p v ps recs Hv _ IH]; constructor; [|done].
  simpl. by apply (assigns_positive E p).
Qed.

(** C8. The decomposition never raises, on any list of integers: with
    enough fuel it returns one record per element, whose ratio is the
    undefined flag [None] exactly when [sum <= 0]; when [sum > 0] and the
    prime is below 2^53, prime and sum are positive integers that floats
    hold exactly and the ratio is their float quotient [prime / sum].
    [calculate_constant] never divides by zero, whatever the records; when
    the qualifying primes are below 2^53 it either returns a value or
    raises the domain error of the logarithm, on a record with [sum > 0]
    and [prime <= 1]; a record with [sum <= 0] is skipped, so that
    removing it does not change the outcome; and when every record has
    [sum <= 0] the result is 0.0. *)
Theorem ratio_guard_no_arithmetic_error :
  (forall ps : list Z,
     returns (fun fuel => _compute_layers fuel ps)
       (fun recs =>
          length recs = length ps
          /\ forall r, r ∈ recs ->
               r_sum r = r_prime r - r_void r
               /\ (r_ratio r = None <-> r_sum r <= 0)
               /\ (0 < r_sum r -> r_prime r < 2 ^ 53 ->
                   r_sum r < r_prime r
                   /\ r_ratio r
                      = Some (PrimFloat.div (float_of_Z (r_prime r))
                                            (float_of_Z (r_sum r))))))
  /\ (forall (self : LayerSystem) (min_prime : Z),
        calculate_constant self min_prime <> Raise ZeroDivisionError)
  /\ (forall (self : LayerSystem) (min_prime : Z),
        Forall (fun r => qualifies min_prime r = true -> r_prime r < 2 ^ 53)
               (results self) ->
        (exists c, calculate_constant self min_prime = Ok c)
        \/ (calculate_constant self min_prime = Raise ValueError
            /\ exists r, r ∈ results self
                 /\ 0 < r_sum r /\ min_prime < r_prime r /\ r_prime r <= 1))
  /\ (forall (n min_prime : Z) (ps cs : list Z) (recs1 recs2 : list record)
        (r : record),
        r_sum r <= 0 ->
        calculate_constant (mk_LayerSystem n ps cs (recs1 ++ r :: recs2)) min_prime
        = calculate_constant (mk_LayerSystem n ps cs (recs1 ++ recs2)) min_prime)
  /\ (forall (self : LayerSystem) (min_prime : Z),
        Forall (fun r => r_sum r <= 0) (results self) ->
        calculate_constant self min_prime = Ok 0%R).
Proof.
  split; [|split; [|split; [|split]]].
  - intros ps. eapply returns_weaken; [|apply compute_layers_returns].
    intros recs Htrace. split; [by apply (layers_trace_length _ _ _ _ Htrace)|].
    intros r Hr. pose proof (layers_trace_sum _ _ _ _ Htrace) as Hsum.
    pose proof (layers_trace_void_positive _ _ _ _ Htrace) as Hpos.
    rewrite Forall_forall in Hsum, Hpos. destruct (Hsum r Hr) as [Hs Hratio].
    specialize (Hpos r Hr).
    split; [done|]. rewrite Hratio. unfold ratio_of. rewrite <- Hs.
    destruct (Z.ltb_spec 0 (r_sum r)) as [Hlt|Hle].
    + split; [split; [done|lia]|]. intros _ _. split; [lia|done].
    + split; [done|]. intros; lia.
  - intros self min_prime Hdiv.
    destruct (calculate_constant_cases self min_prime) as [[c Hc]|[Herr _]];
      congruence.
  - intros self min_prime _. apply calculate_constant_cases.
  - intros n min_prime ps cs recs1 recs2 r Hs.
    assert (Hq : qualifies min_prime r = false).
    { unfold qualifies. destruct (Z.ltb_spec 0 (r_sum r)); [lia|]. apply andb_false_r. }
    unfold calculate_constant, collect_constants. cbn [results].
    rewrite !foldM_app. cbn [foldM].
    destruct (foldM (constant_step min_prime) recs1 []) as [cs1| |]; [|done..].
    rewrite !bind_Ok.
    destruct (constant_step_cases min_prime cs1 r) as [->|(_ & Hq' & _)]; [|congruence].
    by rewrite Hq, bind_Ok.
  - intros self min_prime Hnone.
    rewrite (calculate_constant_of_constants self min_prime []); [done|].
    rewrite collect_constants_ok.
    + rewrite (filter_none (qualifies min_prime) (results self)); [done|].
      eapply Forall_impl; [exact Hnone|]. intros r Hr. simpl in Hr. unfold qualifies.
      destruct (Z.ltb_spec 0 (r_sum r)); [lia|]. apply andb_false_r.
    + eapply Forall_impl; [exact Hnone|]. intros r Hr. simpl in Hr. unfold qualifies.
      destruct (Z.ltb_spec 0 (r_sum r)); [lia|]. by rewrite andb_false_r.
Qed.

(** The engine does meet [sum = 0]: on the list [[1]] the void is 1. *)
Example compute_layers_sum_zero :
  _compute_layers 5 [1] = Ok [mk_record 1 1 1 0 None].
Proof. reflexivity. Qed.

(** On the list [[1]]: the record has [sum = 0], its ratio is [None], and
    [calculate_constant] returns 0.0 on it for any threshold. *)
Lemma ratio_guard_no_arithmetic_error_witness :
  (forall r, r ∈ [mk_record 1 1 1 0 None] -> r_ratio r = None <-> r_sum r <= 0)
  /\ Forall (fun r => r_sum r <= 0) [mk_record 1 1 1 0 None]
  /\ calculate_constant (mk_LayerSystem 1 [1] [] [mk_record 1 1 1 0 None]) 0 = Ok 0%R.
Proof.
  destruct ratio_guard_no_arithmetic_error as (Hengine & _ & _ & _ & Hnone).
  assert (Hzero : Forall (fun r => r_sum r <= 0) [mk_record 1 1 1 0 None]).
  { repeat constructor. simpl. lia. }
  split; [|split; [exact Hzero|]].
  - intros r Hr.
    pose proof (returns_inv _ _ 5%nat [mk_record 1 1 1 0 None]
                  (compute_layers_fuel_mono [1]) (Hengine [1]) eq_refl) as [_ Hrecs].
    by destruct (Hrecs r Hr) as (_ & Hflag & _).
  - exact (Hnone (mk_LayerSystem 1 [1] [] [mk_record 1 1 1 0 None]) 0 Hzero).
Defined.

Lemma skewed_constant_pos :
  (0 < (1009 / 505 - 1) * ln 1009 * ln (ln 1009))%R.
Proof.
  pose proof (ln_gt_1 1009 ltac:(lra)) as H1.
  pose proof (ln_pos (ln 1009) H1) as H2.
  apply Rmult_lt_0_compat; [apply Rmult_lt_0_compat|]; lra.
Qed.

(** C7, counterexample: [calculate_constant] returns 0 on both systems,
    while the standard deviations of their constants differ: the value it
    returns does not carry the standard deviation. *)
Lemma calculate_constant_hides_std_dev :
  exists csA csB sdA sdB,
    collect_constants skewed_system 1000 = Ok csA
    /\ collect_constants flat_system 1000 = Ok csB
    /\ calculate_constant skewed_system 1000 = Ok 0%R
    /\ calculate_constant flat_system 1000 = Ok 0%R
    /\ std_dev csA 0 = Ok sdA
    /\ std_dev csB 0 = Ok sdB
    /\ sdA <> sdB.
Proof.
  assert (HA : collect_constants skewed_system 1000
               = Ok [((1009 / 505 - 1) * ln 1009 * ln (ln 1009))%R;
                     ((1009 / 509545 - 1) * ln 1009 * ln (ln 1009))%R]).
  { rewrite collect_constants_ok; [done|]. repeat constructor; simpl; lia. }
  assert (HB : collect_constants flat_system 1000
               = Ok [((1009 / 1009 - 1) * ln 1009 * ln (ln 1009))%R]).
  { rewrite collect_constants_ok; [done|]. repeat constructor; simpl; lia. }
  pose proof skewed_constant_pos as Hpos.
  set (cA1 := ((1009 / 505 - 1) * ln 1009 * ln (ln 1009))%R) in *.
  set (cA2 := ((1009 / 509545 - 1) * ln 1009 * ln (ln 1009))%R) in *.
  set (cB := ((1009 / 1009 - 1) * ln 1009 * ln (ln 1009))%R) in *.
  assert (HcA : (cA1 + cA2 = 0)%R) by (unfold cA1, cA2; field).
  assert (HcB : cB = 0%R) by (unfold cB; field).
  eexists _, _, _, _.
  split; [exact HA|]. split; [exact HB|].
  split.
  { rewrite (calculate_constant_of_constants _ _ _ HA). f_equal.
    unfold py_sum, len. simpl. change (Z.of_nat 2) with 2. lra. }
  split.
  { rewrite (calculate_constant_of_constants _ _ _ HB). f_equal.
    unfold py_sum, len. simpl. change (Z.of_nat 1) with 1. lra. }
  split; [apply std_dev_ok|]. split; [apply std_dev_ok|].
  unfold py_sum, len. simpl.
  change (Z.of_nat 2) with 2. change (Z.of_nat 1) with 1.
  replace ((0 + (cB - 0) * ((cB - 0) * 1)) / 1)%R with 0%R by (rewrite HcB; field).
  rewrite sqrt_0. apply Rgt_not_eq, sqrt_lt_R0. nra.
Qed.

(** C7, amended. When every qualifying prime lies strictly between 1 and
    2^53, [calculate_constant] collects the constant
    [((prime / sum) - 1) * ln(prime) * ln(ln(prime))] of exactly the records
    with [prime > min_prime] and [sum > 0], in order, and returns their
    average alone (0 when no record qualifies); the population standard
    deviation is computed without error and is not returned. *)
Theorem calculate_constant_returns_average (self : LayerSystem) (min_prime : Z) :
  Forall (fun r => qualifies min_prime r = true -> 1 < r_prime r < 2 ^ 53)
         (results self) ->
  let constants :=
    map constant_of (List.filter (qualifies min_prime) (results self)) in
  let avg :=
    match constants with
    | [] => 0%R
    | _ :: _ => (py_sum constants / IZR (len constants))%R
    end in
  collect_constants self min_prime = Ok constants
  /\ calculate_constant self min_prime = Ok avg
  /\ (constants <> [] ->
      std_dev constants avg
      = Ok (sqrt (py_sum (map (fun c => ((c - avg) ^ 2)%R) constants)
                  / IZR (len constants)))).
Proof.
  intros Hrange constants avg.
  assert (Hgood : Forall (fun r => qualifies min_prime r = true -> 1 < r_prime r)
                    (results self)).
  { eapply Forall_impl; [exact Hrange|]. intros r Hr Hq. simpl in Hr. by apply Hr. }
  pose proof (collect_constants_ok self min_prime Hgood) as Hcs. fold constants in Hcs.
  split; [done|]. split; [by apply calculate_constant_of_constants|].
  intros Hne. destruct constants as [|c cs]; [done|]. apply std_dev_ok.
Qed.

(** On the single record of the prime 1009 with sum 1009 and the default
    threshold: the constant 0 is collected and 0 is returned. *)
Lemma calculate_constant_returns_average_witness :
  Forall (fun r => qualifies 1000 r = true -> 1 < r_prime r < 2 ^ 53)
         (results flat_system)
  /\ collect_constants flat_system 1000
     = Ok (map constant_of (List.filter (qualifies 1000) (results flat_system)))
  /\ map constant_of (List.filter (qualifies 1000) (results flat_system))
     = [((1009 / 1009 - 1) * ln 1009 * ln (ln 1009))%R].
Proof.
  assert (Hrange : Forall (fun r => qualifies 1000 r = true -> 1 < r_prime r < 2 ^ 53)
                     (results flat_system)).
  { repeat constructor; simpl; lia. }
  split; [exact Hrange|]. split; [|reflexivity].
  apply (calculate_constant_returns_average flat_system 1000 Hrange).
Defined.

(** ** Determinism *)

Lemma LayerSystem_init_inv (log_bound : Z -> Z) (fuel : nat) (n : Z)
  (self : LayerSystem) :
  LayerSystem_init log_bound fuel n = Ok self ->
  generate_primes log_bound fuel n = Ok (primes self)
  /\ generate_composites fuel n = Ok (composites self)
  /\ _compute_layers fuel (primes self) = Ok (results self)
  /\ n_primes self = n.
Proof.
  unfold LayerSystem_init.
  intros (ps & Hps & Hrest)%bind_Ok_inv.
  apply bind_Ok_inv in Hrest as (cs & Hcs & Hrest).
  apply bind_Ok_inv in Hrest as (rs & Hrs & Hself).
  injection Hself as <-. done.
Qed.

(** No step of the pipeline raises: a run that has not returned is still
    in one of its [while] loops. *)
Lemma no_raise_bind {A B : Type} (m : result A) (f : A -> result B) :
  no_raise m -> (forall a, no_raise (f a)) -> no_raise (m ≫= f).
Proof. intros Hm Hf e. destruct m as [a|e'|]; [apply Hf|by destruct (Hm e')|done]. Qed.

Lemma no_raise_fmap {A B : Type} (g : A -> B) (m : result A) :
  no_raise m -> no_raise (g <$> m).
Proof. intros Hm e. destruct m as [a|e'|]; [done|by destruct (Hm e')|done]. Qed.

Lemma no_raise_foldM {A B : Type} (body : B -> A -> result B) (items : list A) :
  (forall b x, no_raise (body b x)) -> forall b, no_raise (foldM body items b).
Proof.
  intros Hbody. induction items as [|x items IH]; intros b; simpl; [done|].
  by apply no_raise_bind.
Qed.

Lemma find_void_no_raise (fuel : nat) (E : gset Z) (v : Z) :
  no_raise (find_void fuel E v).
Proof.
  revert v. induction fuel as [|fuel IH]; intros v; simpl; [done|].
  by case_bool_decide.
Qed.

Lemma layer_step_no_raise (fuel : nat) (st : gset Z * list record) (kp : Z * Z) :
  no_raise (layer_step fuel st kp).
Proof.
  destruct st as [E recs], kp as [k p]. unfold layer_step.
  apply no_raise_bind.
  - unfold assign_void. destruct (p =? 2); [done|]. destruct (p =? 3); [done|].
    apply no_raise_bind; [apply find_void_no_raise|done].
  - intros [v E']. cbv zeta. by rewrite ratio_of_run.
Qed.

Lemma compute_layers_no_raise (fuel : nat) (ps : list Z) :
  no_raise (_compute_layers fuel ps).
Proof. apply no_raise_fmap, no_raise_foldM, layer_step_no_raise. Qed.

Lemma grow_loop_no_raise (fuel : nat) (n limit : Z) (ps : list Z) :
  no_raise (grow_loop fuel n limit ps).
Proof.
  revert limit ps. induction fuel as [|fuel IH]; intros limit ps; simpl; [done|].
  destruct (len ps <? n); [|done].
  by rewrite sieve_of_eratosthenes_spec, bind_Ok.
Qed.

Lemma generate_primes_no_raise (log_bound : Z -> Z) (fuel : nat) (n : Z) :
  no_raise (generate_primes log_bound fuel n).
Proof.
  unfold generate_primes. destruct (n <=? 0); [done|].
  rewrite sieve_of_eratosthenes_spec, bind_Ok.
  apply no_raise_bind; [apply grow_loop_no_raise|]. by intros [? ?].
Qed.

Lemma generate_composites_no_raise (fuel : nat) (n : Z) :
  no_raise (generate_composites fuel n).
Proof.
  unfold generate_composites. destruct (n <=? 0); [done|].
  generalize (@nil Z) 4. induction fuel as [|fuel IH]; intros cs num; simpl; [done|].
  destruct (len cs <? n); [apply IH|done].
Qed.

Lemma LayerSystem_init_no_raise (log_bound : Z -> Z) (fuel : nat) (n : Z) :
  no_raise (LayerSystem_init log_bound fuel n).
Proof.
  unfold LayerSystem_init.
  apply no_raise_bind; [apply generate_primes_no_raise|]. intros ps.
  apply no_raise_bind; [apply generate_composites_no_raise|]. intros cs.
  apply no_raise_bind; [apply compute_layers_no_raise|]. done.
Qed.

(** The constructor returns for every [n_primes], negative ones included. *)
Lemma LayerSystem_init_total (log_bound : Z -> Z) (n : Z) :
  (forall n, 6 <= n -> 2 <= log_bound n) ->
  returns (fun fuel => LayerSystem_init log_bound fuel n)
    (fun self => first_of Z.prime n (primes self)
       /\ layers_trace ∅ 1 (primes self) (results self)).
Proof.
  intros Hlb. destruct (Z.le_gt_cases 0 n) as [Hn|Hn].
  - eapply returns_weaken; [|by apply LayerSystem_init_returns].
    by intros self (_ & Hps & _ & Htrace).
  - exists (mk_LayerSystem n [] [] []). split.
    + split; [|constructor]. split; [simpl; lia|].
      split; [constructor|]. split; intros x; [|intros y]; by rewrite elem_of_nil.
    + exists 0%nat. intros fuel _.
      unfold LayerSystem_init, generate_primes, generate_composites.
      by destruct (Z.leb_spec n 0); [|lia].
Qed.

(** What a returning run returns depends on [n_primes] alone. *)
Lemma LayerSystem_init_determined (log_bound1 log_bound2 : Z -> Z) (n : Z)
  (fuel1 fuel2 : nat) (self1 self2 : LayerSystem) :
  (forall n, 6 <= n -> 2 <= log_bound1 n) ->
  (forall n, 6 <= n -> 2 <= log_bound2 n) ->
  LayerSystem_init log_bound1 fuel1 n = Ok self1 ->
  LayerSystem_init log_bound2 fuel2 n = Ok self2 ->
  self1 = self2.
Proof.
  intros Hlb1 Hlb2 (Hps1 & Hcs1 & Hrs1 & Hn1)%LayerSystem_init_inv
    (Hps2 & Hcs2 & Hrs2 & Hn2)%LayerSystem_init_inv.
  pose proof (returns_inv _ _ _ _ (generate_primes_fuel_mono log_bound1 n)
                (generate_primes_returns log_bound1 n Hlb1) Hps1) as Hfirst1.
  pose proof (returns_inv _ _ _ _ (generate_primes_fuel_mono log_bound2 n)
                (generate_primes_returns log_bound2 n Hlb2) Hps2) as Hfirst2.
  pose proof (first_of_unique _ _ _ _ Hfirst1 Hfirst2) as Hps.
  apply (generate_composites_fuel_mono n fuel1 (max fuel1 fuel2)) in Hcs1; [|lia].
  apply (generate_composites_fuel_mono n fuel2 (max fuel1 fuel2)) in Hcs2; [|lia].
  pose proof (returns_inv _ _ _ _ (compute_layers_fuel_mono (primes self1))
                (compute_layers_returns (primes self1)) Hrs1) as Htrace1.
  pose proof (returns_inv _ _ _ _ (compute_layers_fuel_mono (primes self2))
                (compute_layers_returns (primes self2)) Hrs2) as Htrace2.
  rewrite <- Hps in Htrace2.
  pose proof (layers_trace_unique _ _ _ _ _ Htrace1 Htrace2) as Hrs.
  destruct self1, self2. simpl in *. f_equal; congruence.
Qed.

(** C9. For every [n_primes] the pipeline returns, and always the same
    system.  Every run with enough fuel returns it; a run with less fuel
    is still in one of its [while] loops and has raised nothing; and no
    run, with this or with any other admissible estimate of the sieve
    bound, returns another system: the primes, the composites and the
    records (ranks, primes, voids, sums and ratios) are the same, in the
    same order.  The records are moreover the only list the void rule
    allows, and that rule consults the used endpoints through membership
    alone. *)
Theorem pipeline_deterministic (log_bound : Z -> Z) (n : Z) :
  (forall n, 6 <= n -> 2 <= log_bound n) ->
  exists self : LayerSystem,
    (exists fuel0 : nat, forall fuel : nat, (fuel0 <= fuel)%nat ->
        LayerSystem_init log_bound fuel n = Ok self)
    /\ (forall fuel : nat,
          LayerSystem_init log_bound fuel n = Ok self
          \/ LayerSystem_init log_bound fuel n = OutOfFuel)
    /\ (forall (log_bound' : Z -> Z) (fuel : nat) (self' : LayerSystem),
          (forall n, 6 <= n -> 2 <= log_bound' n) ->
          LayerSystem_init log_bound' fuel n = Ok self' -> self' = self)
    /\ n_primes self = n
    /\ length (results self) = Z.to_nat n
    /\ layers_trace ∅ 1 (primes self) (results self)
    /\ (forall recs, layers_trace ∅ 1 (primes self) recs -> recs = results self).
Proof.
  intros Hlb.
  destruct (LayerSystem_init_total log_bound n Hlb) as (self & [Hps Htrace] & fuel0 & Hrun).
  pose proof (Hrun fuel0 ltac:(lia)) as Hrun0.
  assert (Hsame : forall (log_bound' : Z -> Z) (fuel : nat) (self' : LayerSystem),
            (forall n, 6 <= n -> 2 <= log_bound' n) ->
            LayerSystem_init log_bound' fuel n = Ok self' -> self' = self).
  { intros log_bound' fuel self' Hlb' Hrun'.
    exact (LayerSystem_init_determined _ _ _ _ _ _ _ Hlb' Hlb Hrun' Hrun0). }
  exists self. split; [by exists fuel0|]. split.
  { intros fuel. destruct (LayerSystem_init log_bound fuel n) as [self'|e|] eqn:Hfuel.
    - left. f_equal. by apply (Hsame log_bound fuel).
    - by destruct (LayerSystem_init_no_raise log_bound fuel n e).
    - by right. }
  split; [exact Hsame|].
  split; [by apply LayerSystem_init_inv in Hrun0 as (_ & _ & _ & ?)|].
  split.
  { rewrite (layers_trace_length _ _ _ _ Htrace). by destruct Hps as [? _]. }
  split; [done|].
  intros recs Hrecs. by apply (layers_trace_unique _ _ _ _ _ Hrecs).
Qed.

(** On 10 primes: a run with another estimate of the sieve bound and any
    fuel returns, if it returns, the system computed with the estimate 51
    and the fuel 30. *)
Lemma pipeline_deterministic_witness :
  (forall n, 6 <= n -> 2 <= (fun _ : Z => 51) n)
  /\ LayerSystem_init (fun _ => 51) 30 10 = Ok system_of_10
  /\ (forall (fuel : nat) (self' : LayerSystem),
        LayerSystem_init (fun _ => 647) fuel 10 = Ok self' -> self' = system_of_10)
  /\ forall fuel : nat,
       LayerSystem_init (fun _ => 51) fuel 10 = Ok system_of_10
       \/ LayerSystem_init (fun _ => 51) fuel 10 = OutOfFuel.
Proof.
  assert (Hlb : forall n, 6 <= n -> 2 <= (fun _ : Z => 51) n) by (intros; lia).
  assert (Hrun : LayerSystem_init (fun _ => 51) 30 10 = Ok system_of_10)
    by (vm_compute; reflexivity).
  destruct (pipeline_deterministic (fun _ => 51) 10 Hlb)
    as (self & _ & Hfuel & Hsame & _).
  pose proof (Hsame (fun _ => 51) 30%nat system_of_10 Hlb Hrun) as Heq.
  rewrite <- Heq in Hfuel, Hsame.
  split; [exact Hlb|]. split; [exact Hrun|]. split; [|exact Hfuel].
  intros fuel self'. apply (Hsame (fun _ => 647)). intros; lia.
Defined.

(** ** The sieve bound estimate *)

(** Over the reals, the estimate is an admissible parameter of
    [generate_primes]. *)
Lemma log_bound_real_ge (n : Z) : 6 <= n -> 2 <= log_bound_real n.
Proof.
  intros Hn. unfold log_bound_real.
  set (x := (IZR n * (ln (IZR n) + ln (ln (IZR n)) + 2))%R).
  apply (IZR_le 6) in Hn.
  pose proof (ln_gt_1 (IZR n) ltac:(lra)) as H1.
  pose proof (ln_pos (ln (IZR n)) H1) as H2.
  assert (Hx : (18 < x)%R) by (unfold x; nra).
  destruct (base_Int_part x) as [_ Hpart].
  assert (Hlt : (IZR 2 < IZR (Int_part x))%R) by lra.
  apply lt_IZR in Hlt. lia.
Qed.

(** ** Sample runs *)

Example sieve_of_eratosthenes_30 :
  sieve_of_eratosthenes 30 = Ok [2; 3; 5; 7; 11; 13; 17; 19; 23; 29].
Proof. vm_compute. reflexivity. Qed.

Example system_of_10_voids :
  primes system_of_10 = [2; 3; 5; 7; 11; 13; 17; 19; 23; 29]
  /\ composites system_of_10 = [4; 6; 8; 9; 10; 12; 14; 15; 16; 18]
  /\ r_void <$> results system_of_10 = [1; 2; 4; 6; 8; 9; 10; 12; 14; 15]
  /\ r_sum <$> results system_of_10 = [1; 1; 1; 1; 3; 4; 7; 7; 9; 14].
Proof. repeat split. Qed.

Example system_of_10_bijection :
  verify_bijection system_of_10 = Ok (mk_verification 8 8 100%float []).
Proof. vm_compute. reflexivity. Qed.

Example getitem_out_of_range : getitem [4; 6; 8] 3 = Raise IndexError.
Proof. reflexivity. Qed.

(** * Further properties of the code *)

(** ** The sieve and the sequence builders *)

Lemma primes_upto_sorted (limit : Z) : StronglySorted Z.lt (primes_upto limit).
Proof. apply sorted_filter, sorted_seqZ. Qed.

(** X1. For every bound, also below 2 or negative, the sieve returns
    without an index error the strictly increasing list of exactly the
    primes up to the bound; the list is empty when the bound is below 2. *)
Theorem sieve_returns_primes_upto (limit : Z) :
  exists ps,
    sieve_of_eratosthenes limit = Ok ps
    /\ StronglySorted Z.lt ps
    /\ (forall x, x ∈ ps <-> Z.prime x /\ x <= limit)
    /\ (limit < 2 -> ps = []).
Proof.
  exists (primes_upto limit). split; [apply sieve_of_eratosthenes_spec|].
  split; [apply primes_upto_sorted|]. split; [intros x; apply elem_of_primes_upto|].
  intros Hl. unfold primes_upto. by rewrite seqZ_nil by lia.
Qed.

(** X2. The classification inside [generate_composites] answers [false]
    below 2, and from 2 on answers [true] exactly on the integers that are
    not prime: trial division by 2 and by the odd numbers up to the square
    root misses no divisor. *)
Theorem is_composite_classifies (num : Z) :
  (num < 2 -> is_composite num = false)
  /\ (2 <= num -> (is_composite num = true <-> ~ Z.prime num))
  /\ (4 <= num -> (is_composite num = true <-> composite num)).
Proof.
  split; [|split].
  - intros Hnum. unfold is_composite. by destruct (Z.ltb_spec num 2); [|lia].
  - apply is_composite_spec.
  - intros Hnum. rewrite (is_composite_decide num Hnum).
    apply bool_decide_eq_true.
Qed.

(** X3. The primes returned do not depend on the sieve bound estimate, and
    a shorter request returns a prefix of a longer one: for two admissible
    estimates and [m <= n], [generate_primes m] with the one is the first
    [m] elements of [generate_primes n] with the other. *)
Theorem generate_primes_prefix (log_bound1 log_bound2 : Z -> Z) (m n : Z) :
  (forall n, 6 <= n -> 2 <= log_bound1 n) ->
  (forall n, 6 <= n -> 2 <= log_bound2 n) ->
  0 <= m <= n ->
  returns (fun fuel => generate_primes log_bound1 fuel n)
    (fun psn =>
       returns (fun fuel => generate_primes log_bound2 fuel m)
         (fun psm => psm = take (Z.to_nat m) psn)).
Proof.
  intros H1 H2 Hmn.
  eapply returns_weaken; [|apply (generate_primes_returns log_bound1 n H1)].
  intros psn Hpsn.
  eapply returns_weaken; [|apply (generate_primes_returns log_bound2 m H2)].
  intros psm Hpsm. apply (first_of_unique Z.prime m); [done|].
  by apply (first_of_take Z.prime n).
Qed.

Lemma generate_primes_prefix_witness :
  (forall n, 6 <= n -> 2 <= (fun _ : Z => 51) n)
  /\ (forall n, 6 <= n -> 2 <= (fun _ : Z => 100) n)
  /\ 0 <= 3 <= 10
  /\ returns (fun fuel => generate_primes (fun _ => 51) fuel 10)
       (fun psn =>
          returns (fun fuel => generate_primes (fun _ => 100) fuel 3)
            (fun psm => psm = take (Z.to_nat 3) psn)).
Proof.
  split; [intros; lia|]. split; [intros; lia|]. split; [lia|].
  apply (generate_primes_prefix (fun _ => 51) (fun _ => 100) 3 10); intros; lia.
Defined.

(** X4. A shorter request for composites returns a prefix of a longer
    one. *)
Theorem generate_composites_prefix (m n : Z) :
  0 <= m <= n ->
  returns (fun fuel => generate_composites fuel n)
    (fun csn =>
       returns (fun fuel => generate_composites fuel m)
         (fun csm => csm = take (Z.to_nat m) csn)).
Proof.
  intros Hmn.
  eapply returns_weaken; [|apply (generate_composites_returns n); lia].
  intros csn Hcsn.
  eapply returns_weaken; [|apply (generate_composites_returns m); lia].
  intros csm Hcsm. apply (first_of_unique composite m); [done|].
  by apply (first_of_take composite n).
Qed.

Lemma generate_composites_prefix_witness :
  0 <= 3 <= 10
  /\ returns (fun fuel => generate_composites fuel 10)
       (fun csn =>
          returns (fun fuel => generate_composites fuel 3)
            (fun csm => csm = take (Z.to_nat 3) csn)).
Proof. split; [lia|]. apply (generate_composites_prefix 3 10). lia. Defined.

Lemma grow_le (limit : Z) : limit <= 1 -> grow limit <= 1.
Proof.
  intros Hl. unfold grow.
  destruct (Z.le_gt_cases 0 limit) as [H0|H0].
  - assert (limit = 0 \/ limit = 1) as [-> | ->] by lia; done.
  - replace (3 * limit) with (- (3 * - limit)) by lia.
    rewrite Z.quot_opp_l by lia.
    pose proof (Z.quot_pos (3 * - limit) 2 ltac:(lia) ltac:(lia)). lia.
Qed.

Lemma primes_upto_small (limit : Z) : limit < 2 -> primes_upto limit = [].
Proof. intros Hl. unfold primes_upto. by rewrite seqZ_nil by lia. Qed.

Lemma grow_loop_stuck (fuel : nat) (n limit : Z) :
  1 <= n -> limit <= 1 -> grow_loop fuel n limit [] = OutOfFuel.
Proof.
  intros Hn. revert limit. induction fuel as [|fuel IH]; intros limit Hl; [done|].
  simpl. change (len []) with 0. destruct (Z.ltb_spec 0 n); [|lia].
  pose proof (grow_le limit Hl) as Hg.
  rewrite sieve_of_eratosthenes_spec, bind_Ok, primes_upto_small by lia.
  by apply IH.
Qed.

(** X5. The retry loop of [generate_primes] has no iteration cap: were the
    bound estimate 1 or less for some [n >= 6], the bound could never grow
    ([int(1 * 1.5)] is 1) and no amount of fuel would make the call
    return. *)
Theorem generate_primes_needs_a_bound (log_bound : Z -> Z) (n : Z) (fuel : nat) :
  6 <= n -> log_bound n <= 1 -> generate_primes log_bound fuel n = OutOfFuel.
Proof.
  intros Hn Hlb. unfold generate_primes.
  destruct (Z.leb_spec n 0); [lia|]. destruct (Z.ltb_spec n 6); [lia|].
  rewrite sieve_of_eratosthenes_spec, bind_Ok, primes_upto_small by lia.
  rewrite grow_loop_stuck by lia. done.
Qed.

Lemma generate_primes_needs_a_bound_witness :
  6 <= 6 /\ (fun _ : Z => 1) 6 <= 1
  /\ generate_primes (fun _ => 1) 100 6 = OutOfFuel.
Proof.
  split; [lia|]. split; [lia|].
  apply (generate_primes_needs_a_bound (fun _ => 1) 6 100); lia.
Defined.

(** ** The bijection for every number of primes *)

(** X6. The bijection holds for every [n_primes >= 2], not only for 1000:
    on the system of the first [n] primes [verify_bijection] returns
    [n - 2] records of rank 3 and more, [n - 2] matches and no mismatch,
    and every void of rank [k >= 3] is the composite at position [k - 3]. *)
Theorem bijection_holds_for_all (log_bound : Z -> Z) (n : Z) :
  (forall n, 6 <= n -> 2 <= log_bound n) -> 2 <= n ->
  returns (fun fuel => LayerSystem_init log_bound fuel n)
    (fun self =>
       (exists vr, verify_bijection self = Ok vr
          /\ total vr = n - 2 /\ matches vr = n - 2 /\ mismatches vr = [])
       /\ forall r, r ∈ results self -> 3 <= r_k r ->
            composites self !! Z.to_nat (r_k r - 3) = Some (r_void r)).
Proof.
  intros Hlb Hn.
  eapply returns_weaken; [|apply (LayerSystem_init_returns log_bound Hlb n); lia].
  intros self (_ & Hps & Hcs & Htrace).
  destruct (verify_bijection_all_match self n Hn Hps Hcs Htrace) as [Hverify Hvoids].
  split; [|done]. eexists. split; [exact Hverify|]. done.
Qed.

Lemma bijection_holds_for_all_witness :
  (forall n, 6 <= n -> 2 <= (fun _ : Z => 51) n) /\ 2 <= 10
  /\ returns (fun fuel => LayerSystem_init (fun _ => 51) fuel 10)
       (fun self =>
          exists vr, verify_bijection self = Ok vr
            /\ total vr = 10 - 2 /\ matches vr = 10 - 2 /\ mismatches vr = []).
Proof.
  split; [intros; lia|]. split; [lia|].
  eapply returns_weaken;
    [|apply (bijection_holds_for_all (fun _ => 51) 10); intros; lia].
  intros self H. apply H.
Defined.

(** X7. With fewer than 3 primes there is nothing to compare:
    [verify_bijection] returns total 0, matches 0, no mismatch, and the
    accuracy 0 of its [else] branch instead of dividing by zero. *)
Theorem verify_bijection_small (log_bound : Z -> Z) (n : Z) :
  (forall n, 6 <= n -> 2 <= log_bound n) -> 0 <= n <= 2 ->
  returns (fun fuel => LayerSystem_init log_bound fuel n)
    (fun self => verify_bijection self = Ok (mk_verification 0 0 0%float [])).
Proof.
  intros Hlb Hn.
  eapply returns_weaken; [|apply (LayerSystem_init_returns log_bound Hlb n); lia].
  intros self (_ & (Hlen & _) & _ & Htrace).
  assert (Hsmall : Forall (fun r => considered r = false) (results self)).
  { apply Forall_forall. intros r [i Hi]%list_elem_of_lookup_1.
    unfold considered. rewrite (layers_trace_ranks _ _ _ _ _ _ Htrace Hi).
    apply lookup_lt_Some in Hi. rewrite (layers_trace_length _ _ _ _ Htrace) in Hi.
    apply Z.leb_gt. lia. }
  assert (Hrange : Forall (fun r => 3 <= r_k r -> r_k r - 3 < len (composites self))
                     (results self)).
  { eapply Forall_impl; [exact Hsmall|]. intros r Hr Hk. simpl in *.
    unfold considered in Hr. apply Z.leb_gt in Hr. lia. }
  rewrite (verify_bijection_ok self Hrange).
  rewrite (filter_none considered _ Hsmall).
  rewrite (filter_none (fun r => considered r && is_match (composites self) r)),
    (filter_none (fun r => considered r && negb (is_match (composites self) r))).
  - done.
  - eapply Forall_impl; [exact Hsmall|]. intros r Hr. simpl in *. by rewrite Hr.
  - eapply Forall_impl; [exact Hsmall|]. intros r Hr. simpl in *. by rewrite Hr.
Qed.

Lemma verify_bijection_small_witness :
  (forall n, 6 <= n -> 2 <= (fun _ : Z => 51) n) /\ 0 <= 2 <= 2
  /\ returns (fun fuel => LayerSystem_init (fun _ => 51) fuel 2)
       (fun self => verify_bijection self = Ok (mk_verification 0 0 0%float [])).
Proof.
  split; [intros; lia|]. split; [lia|].
  apply (verify_bijection_small (fun _ => 51) 2); intros; lia.
Defined.

Lemma getitem_cases {A : Type} (l : list A) (j : Z) :
  (exists x, getitem l j = Ok x) \/ getitem l j = Raise IndexError.
Proof.
  unfold getitem, py_index.
  destruct ((0 <=? j) && (j <? Z.of_nat (length l))); simpl.
  { destruct (l !! Z.to_nat j); eauto. }
  destruct ((- Z.of_nat (length l) <=? j) && (j <? 0)); simpl; [|by right].
  destruct (l !! Z.to_nat (j + Z.of_nat (length l))); eauto.
Qed.

Lemma getitem_beyond {A : Type} (l : list A) (j : Z) :
  len l <= j -> getitem l j = Raise IndexError.
Proof.
  intros Hj. unfold len in Hj. unfold getitem, py_index.
  destruct (Z.ltb_spec j (Z.of_nat (length l))); [lia|]. rewrite andb_false_r.
  destruct (Z.ltb_spec j 0); [lia|]. by rewrite andb_false_r.
Qed.

Lemma bijection_step_cases (cs : list Z) (st : Z * list mismatch) (r : record) :
  (exists st', bijection_step cs st r = Ok st')
  \/ bijection_step cs st r = Raise IndexError.
Proof.
  destruct st as [m mm]. unfold bijection_step.
  destruct (3 <=? r_k r); [|eauto].
  destruct (getitem_cases cs (r_k r - 3)) as [[x ->]| ->]; [|by right].
  rewrite bind_Ok. destruct (r_void r =? x); eauto.
Qed.

Lemma bijection_loop_index_error (cs : list Z) (recs : list record)
  (st : Z * list mismatch) :
  Exists (fun r => 3 <= r_k r /\ len cs <= r_k r - 3) recs ->
  foldM (bijection_step cs) recs st = Raise IndexError.
Proof.
  intros Hbad. revert st. induction Hbad as [r recs [Hk Hlen]|r recs Hbad IH];
    intros st; cbn [foldM].
  - destruct st as [m mm]. unfold bijection_step.
    destruct (Z.leb_spec 3 (r_k r)); [|lia]. by rewrite getitem_beyond.
  - destruct (bijection_step_cases cs st r) as [[st' ->]| ->]; [|done].
    rewrite bind_Ok. apply IH.
Qed.

(** X8. [verify_bijection] indexes the composites without a guard: as soon
    as one record of rank [k >= 3] has no composite at position [k - 3],
    the call raises [IndexError] and returns no result. *)
Theorem verify_bijection_index_error (self : LayerSystem) :
  Exists (fun r => 3 <= r_k r /\ len (composites self) <= r_k r - 3) (results self) ->
  verify_bijection self = Raise IndexError.
Proof.
  intros Hbad. unfold verify_bijection.
  by rewrite (bijection_loop_index_error _ _ _ Hbad).
Qed.

Lemma verify_bijection_index_error_witness :
  let self := mk_LayerSystem 3 [2; 3; 5] [] [mk_record 3 5 4 1 None] in
  Exists (fun r => 3 <= r_k r /\ len (composites self) <= r_k r - 3) (results self)
  /\ verify_bijection self = Raise IndexError.
Proof.
  intros self.
  assert (Hbad : Exists (fun r => 3 <= r_k r /\ len (composites self) <= r_k r - 3)
                   (results self)).
  { constructor. simpl. unfold len. simpl. lia. }
  split; [exact Hbad|]. exact (verify_bijection_index_error self Hbad).
Defined.

(** ** The void sequence *)

Lemma hard_coded_voids (n : Z) (ps : list Z) (recs : list record) :
  first_of Z.prime n ps -> layers_trace ∅ 1 ps recs ->
  (forall r, recs !! 0%nat = Some r -> r_prime r = 2 /\ r_void r = 1)
  /\ (forall r, recs !! 1%nat = Some r -> r_prime r = 3 /\ r_void r = 2).
Proof.
  intros Hps Htrace. destruct (first_primes_head _ _ Hps) as [Hhead0 Hhead1].
  split; intros r Hr;
    destruct (layers_trace_at _ _ _ _ _ _ Htrace Hr) as (p & Hpi & _ & Hassign & -> & _).
  - apply Hhead0 in Hpi as ->. simpl. split; [done|].
    inversion Hassign; [done|congruence].
  - apply Hhead1 in Hpi as ->. simpl. split; [done|].
    inversion Hassign; [done|congruence].
Qed.

(** X9. The voids of a system increase strictly with the rank: they are 1
    and 2 followed by the composites in increasing order, so no two
    records share a void. *)
Theorem voids_strictly_increasing (log_bound : Z -> Z) (n : Z) :
  (forall n, 6 <= n -> 2 <= log_bound n) -> 0 <= n ->
  returns (fun fuel => LayerSystem_init log_bound fuel n)
    (fun self =>
       forall (i j : nat) (ri rj : record),
         (i < j)%nat -> results self !! i = Some ri -> results self !! j = Some rj ->
         r_void ri < r_void rj).
Proof.
  intros Hlb Hn.
  eapply returns_weaken; [|apply (LayerSystem_init_returns log_bound Hlb n); lia].
  intros self (_ & Hps & Hcs & Htrace) i j ri rj Hij Hi Hj.
  pose proof (lookup_lt_Some _ _ _ Hj) as Hjlen.
  rewrite (layers_trace_length _ _ _ _ Htrace) in Hjlen.
  pose proof Hps as [Hlen _].
  destruct (hard_coded_voids _ _ _ Hps Htrace) as [Hv0 Hv1].
  destruct (layers_trace_bijection n _ _ _ Hps Hcs Htrace ltac:(lia))
    as (r1 & r2 & recs' & Hrecs & _ & _ & _ & Hall).
  rewrite Forall_forall in Hall.
  assert (Hlate : forall (t : nat) (r : record), (2 <= t)%nat ->
            results self !! t = Some r ->
            composites self !! (t - 2)%nat = Some (r_void r)).
  { intros t r Ht Hr. pose proof (layers_trace_ranks _ _ _ _ _ _ Htrace Hr) as Hrank.
    assert (Hin : r ∈ recs').
    { rewrite Hrecs in Hr. destruct t as [|[|t]]; [lia..|]. simpl in Hr.
      by eapply list_elem_of_lookup_2. }
    destruct (Hall r Hin) as [_ Hc].
    by replace (Z.to_nat (r_k r - 3)) with (t - 2)%nat in Hc by lia. }
  destruct Hcs as (_ & Hcsorted & Hccomp & _).
  assert (Hge4 : forall (t : nat) (r : record), (2 <= t)%nat ->
            results self !! t = Some r -> 4 <= r_void r).
  { intros t r Ht Hr. pose proof (Hlate t r Ht Hr) as Hc.
    apply list_elem_of_lookup_2, Hccomp in Hc as [? _]. done. }
  destruct (decide (2 <= i)%nat) as [Hi2|Hi2].
  - apply (sorted_lookup_lt (composites self) (i - 2) (j - 2)); [done|lia|..].
    + by apply Hlate.
    + apply Hlate; [lia|done].
  - assert (Hvi : r_void ri <= 2).
    { destruct i as [|[|i]]; [apply Hv0 in Hi; lia|apply Hv1 in Hi; lia|lia]. }
    destruct (decide (2 <= j)%nat) as [Hj2|Hj2].
    + pose proof (Hge4 j rj Hj2 Hj). lia.
    + assert (i = 0%nat /\ j = 1%nat) as [-> ->] by lia.
      apply Hv0 in Hi. apply Hv1 in Hj. lia.
Qed.

Lemma voids_strictly_increasing_witness :
  (forall n, 6 <= n -> 2 <= (fun _ : Z => 51) n) /\ 0 <= 10
  /\ returns (fun fuel => LayerSystem_init (fun _ => 51) fuel 10)
       (fun self =>
          forall (i j : nat) (ri rj : record),
            (i < j)%nat -> results self !! i = Some ri -> results self !! j = Some rj ->
            r_void ri < r_void rj).
Proof.
  split; [intros; lia|]. split; [lia|].
  apply (voids_strictly_increasing (fun _ => 51) 10); intros; lia.
Defined.

(** ** Lookup of a decomposition *)

Lemma get_decomposition_lookup (self : LayerSystem) (k : Z) :
  get_decomposition self k
  = Ok (if (1 <=? k) && (k <=? len (results self))
        then results self !! Z.to_nat (k - 1)
        else None).
Proof.
  unfold get_decomposition, len.
  destruct (Z.leb_spec 1 k) as [H1|H1]; [|done].
  destruct (Z.leb_spec k (Z.of_nat (length (results self)))) as [H2|H2]; [|done].
  cbn [andb].
  destruct (lookup_lt_is_Some_2 (results self) (Z.to_nat (k - 1))) as [r Hr]; [lia|].
  rewrite (getitem_ok _ _ r) by (done || lia). by rewrite Hr.
Qed.

(** X10. [get_decomposition] never raises and never wraps around: for [k]
    between 1 and the number of records it returns the record at position
    [k - 1], and for every other [k], 0 and negative ones included, it
    returns [None]. *)
Theorem get_decomposition_bounds (self : LayerSystem) (k : Z) :
  get_decomposition self k
  = Ok (if (1 <=? k) && (k <=? len (results self))
        then results self !! Z.to_nat (k - 1)
        else None)
  /\ (k <= 0 \/ len (results self) < k -> get_decomposition self k = Ok None).
Proof.
  pose proof (get_decomposition_lookup self k) as Hget.
  split; [done|]. intros Hk. rewrite Hget.
  destruct (Z.leb_spec 1 k) as [H1|H1]; [|done].
  destruct (Z.leb_spec k (len (results self))) as [H2|H2]; [lia|done].
Qed.

(** X11. On the system of the first [n] primes, [get_decomposition k] for
    [1 <= k <= n] returns the record of rank [k]: its [k] field is [k], its
    prime is the [k]-th prime and [prime = void + sum]. *)
Theorem get_decomposition_rank (log_bound : Z -> Z) (n k : Z) :
  (forall n, 6 <= n -> 2 <= log_bound n) -> 1 <= k <= n ->
  returns (fun fuel => LayerSystem_init log_bound fuel n)
    (fun self =>
       exists r, get_decomposition self k = Ok (Some r)
         /\ r_k r = k
         /\ primes self !! Z.to_nat (k - 1) = Some (r_prime r)
         /\ r_prime r = r_void r + r_sum r).
Proof.
  intros Hlb Hk.
  eapply returns_weaken; [|apply (LayerSystem_init_returns log_bound Hlb n); lia].
  intros self (_ & (Hlen & _) & _ & Htrace).
  pose proof (layers_trace_length _ _ _ _ Htrace) as Hrlen.
  destruct (lookup_lt_is_Some_2 (results self) (Z.to_nat (k - 1))) as [r Hr]; [lia|].
  exists r. split.
  { rewrite (get_decomposition_lookup self k). unfold len.
    destruct (Z.leb_spec 1 k); [|lia].
    destruct (Z.leb_spec k (Z.of_nat (length (results self)))); [|lia].
    cbn [andb]. by rewrite Hr. }
  destruct (layers_trace_at _ _ _ _ _ _ Htrace Hr) as (p & Hp & _ & _ & Hrec & _).
  rewrite Hrec. simpl. split; [lia|]. split; [done|]. lia.
Qed.

Lemma get_decomposition_rank_witness :
  (forall n, 6 <= n -> 2 <= (fun _ : Z => 51) n) /\ 1 <= 4 <= 10
  /\ returns (fun fuel => LayerSystem_init (fun _ => 51) fuel 10)
       (fun self =>
          exists r, get_decomposition self 4 = Ok (Some r)
            /\ r_k r = 4
            /\ primes self !! Z.to_nat (4 - 1) = Some (r_prime r)
            /\ r_prime r = r_void r + r_sum r).
Proof.
  split; [intros; lia|]. split; [lia|].
  apply (get_decomposition_rank (fun _ => 51) 10 4); intros; lia.
Defined.

(** ** Export *)

(** What a row says about its record. *)
Lemma csv_row_of_ok (cs : list Z) (r : record) :
  (3 <= r_k r -> r_k r - 3 < len cs) ->
  exists row,
    csv_row_of cs r = Ok row
    /\ c_k row = r_k r /\ c_prime row = r_prime r
    /\ c_void row = r_void r /\ c_sum row = r_sum r
    /\ (c_match row = YES <->
        3 <= r_k r /\ cs !! Z.to_nat (r_k r - 3) = Some (r_void r))
    /\ (c_match row = NA <-> r_k r < 3)
    /\ (c_composite row <> None ->
        3 <= r_k r /\ c_composite row = cs !! Z.to_nat (r_k r - 3)).
Proof.
  intros Hrange. unfold csv_row_of. cbv zeta.
  destruct (Z.leb_spec 3 (r_k r)) as [Hk|Hk].
  - specialize (Hrange Hk). unfold len in Hrange.
    destruct (lookup_lt_is_Some_2 cs (Z.to_nat (r_k r - 3))) as [c Hc]; [lia|].
    rewrite (getitem_ok _ _ c) by (done || lia). cbn [fmap result_fmap]. rewrite bind_Ok.
    eexists. split; [done|]. cbn. repeat (split; [done|]).
    destruct (Z.ltb_spec (r_k r) 3); [lia|].
    destruct (Z.eqb_spec (r_void r) c) as [->|Hne].
    + split; [split; [intros _; split; [done|by rewrite Hc]|done]|].
      split; [split; [discriminate|lia]|].
      intros Hcell. split; [done|]. rewrite Hc.
      destruct (c =? 0); [by destruct Hcell|done].
    + split; [split; [discriminate|intros [_ Heq]; rewrite Hc in Heq; congruence]|].
      split; [split; [discriminate|lia]|].
      intros Hcell. split; [done|]. rewrite Hc.
      destruct (c =? 0); [by destruct Hcell|done].
  - rewrite bind_Ok. eexists. split; [done|]. cbn. repeat (split; [done|]).
    destruct (Z.ltb_spec (r_k r) 3); [|lia].
    split; [split; [discriminate|lia]|]. split; [done|]. done.
Qed.

Lemma export_rows_loop {A B : Type} (f : A -> result B) (P : A -> B -> Prop)
  (l : list A) (acc : list B) :
  Forall (fun x => exists y, f x = Ok y /\ P x y) l ->
  exists rows,
    foldM (fun rows x => row ← f x; Ok (rows ++ [row])) l acc = Ok (acc ++ rows)
    /\ Forall2 P l rows.
Proof.
  intros Hall. revert acc. induction Hall as [|x l (y & Hy & HP) _ IH]; intros acc.
  { exists []. split; [by rewrite app_nil_r|constructor]. }
  cbn [foldM]. rewrite Hy, !bind_Ok.
  destruct (IH (acc ++ [y])) as (rows & -> & Hrows).
  exists (y :: rows). split; [by rewrite <- app_assoc|by constructor].
Qed.

(** X12. When every record of rank [k >= 3] has a composite at position
    [k - 3], [export_csv] writes one row per record, in order; a row
    copies the rank, prime, void and sum of its record, its
    [bijection_match] is ['YES'] exactly when [k >= 3] and the void is the
    composite at position [k - 3], and ['N/A'] exactly when [k < 3]. *)
Theorem export_csv_rows (self : LayerSystem) :
  Forall (fun r => 3 <= r_k r -> r_k r - 3 < len (composites self)) (results self) ->
  exists rows,
    export_csv self = Ok rows
    /\ Forall2
         (fun r row =>
            c_k row = r_k r /\ c_prime row = r_prime r
            /\ c_void row = r_void r /\ c_sum row = r_sum r
            /\ (c_match row = YES <->
                3 <= r_k r
                /\ composites self !! Z.to_nat (r_k r - 3) = Some (r_void r))
            /\ (c_match row = NA <-> r_k r < 3))
         (results self) rows.
Proof.
  intros Hrange. unfold export_csv.
  destruct (export_rows_loop (csv_row_of (composites self))
              (fun r row =>
                 c_k row = r_k r /\ c_prime row = r_prime r
                 /\ c_void row = r_void r /\ c_sum row = r_sum r
                 /\ (c_match row = YES <->
                     3 <= r_k r
                     /\ composites self !! Z.to_nat (r_k r - 3) = Some (r_void r))
                 /\ (c_match row = NA <-> r_k r < 3))
              (results self) []) as (rows & Hrun & Hrows).
  - eapply Forall_impl; [exact Hrange|]. intros r Hr. simpl in Hr.
    destruct (csv_row_of_ok (composites self) r Hr)
      as (row & Hrow & H1 & H2 & H3 & H4 & H5 & H6 & _).
    exists row. done.
  - exists rows. done.
Qed.

Lemma export_csv_rows_witness :
  let self :=
    mk_LayerSystem 3 [2; 3; 5] [4; 6; 8]
      [mk_record 1 2 1 1 None; mk_record 2 3 2 1 None; mk_record 3 5 4 1 None] in
  Forall (fun r => 3 <= r_k r -> r_k r - 3 < len (composites self)) (results self)
  /\ exists rows, export_csv self = Ok rows /\ length rows = 3%nat.
Proof.
  intros self.
  assert (Hrange : Forall (fun r => 3 <= r_k r -> r_k r - 3 < len (composites self))
                     (results self)).
  { repeat constructor; simpl; unfold len; simpl; lia. }
  split; [done|].
  destruct (export_csv_rows self Hrange) as (rows & Hrows & Hall).
  exists rows. split; [done|]. by rewrite <- (Forall2_length _ _ _ Hall).
Defined.

Lemma voids_match_composites (n : Z) (ps cs : list Z) (recs : list record) :
  0 <= n -> first_of Z.prime n ps -> first_of composite n cs ->
  layers_trace ∅ 1 ps recs ->
  forall r, r ∈ recs ->
    1 <= r_k r <= n
    /\ (3 <= r_k r -> cs !! Z.to_nat (r_k r - 3) = Some (r_void r) /\ 4 <= r_void r).
Proof.
  intros Hn Hps Hcs Htrace r Hr.
  assert (Hrank : 1 <= r_k r <= n).
  { apply list_elem_of_lookup_1 in Hr as [i Hi].
    rewrite (layers_trace_ranks _ _ _ _ _ _ Htrace Hi).
    apply lookup_lt_Some in Hi. rewrite (layers_trace_length _ _ _ _ Htrace) in Hi.
    destruct Hps as [Hlen _]. lia. }
  split; [done|]. intros Hk.
  destruct (layers_trace_bijection n _ _ _ Hps Hcs Htrace ltac:(lia))
    as (r1 & r2 & recs' & Hrecs & Hk1 & Hk2 & _ & Hall).
  rewrite Hrecs in Hr.
  apply elem_of_cons in Hr as [->|Hr]; [lia|].
  apply elem_of_cons in Hr as [->|Hr]; [lia|].
  rewrite Forall_forall in Hall. destruct (Hall r Hr) as [_ Hc].
  split; [done|]. destruct Hcs as (_ & _ & Hcomp & _).
  apply list_elem_of_lookup_2, Hcomp in Hc as [? _]. done.
Qed.

(** X13. The file exported from the system of the first [n] primes has
    [n] data rows; the rows of rank 1 and 2 carry ['N/A'] and an empty
    [C_k-2] cell, and every row of rank 3 and more carries ['YES'] and its
    own void in the [C_k-2] cell: no row says ['NO']. *)
Theorem export_csv_all_yes (log_bound : Z -> Z) (n : Z) :
  (forall n, 6 <= n -> 2 <= log_bound n) -> 0 <= n ->
  returns (fun fuel => LayerSystem_init log_bound fuel n)
    (fun self =>
       exists rows,
         export_csv self = Ok rows
         /\ length rows = Z.to_nat n
         /\ forall row, row ∈ rows ->
              (c_k row < 3 -> c_match row = NA /\ c_composite row = None)
              /\ (3 <= c_k row ->
                  c_match row = YES /\ c_composite row = Some (c_void row))).
Proof.
  intros Hlb Hn.
  eapply returns_weaken; [|apply (LayerSystem_init_returns log_bound Hlb n); lia].
  intros self (_ & Hps & Hcs & Htrace).
  pose proof (voids_match_composites n _ _ _ Hn Hps Hcs Htrace) as Hvoids.
  assert (Hclen : len (composites self) = n).
  { destruct Hcs as [Hclen _]. unfold len. lia. }
  assert (Hall : Forall (fun r => exists row,
              csv_row_of (composites self) r = Ok row
              /\ (c_k row < 3 -> c_match row = NA /\ c_composite row = None)
              /\ (3 <= c_k row ->
                  c_match row = YES /\ c_composite row = Some (c_void row)))
            (results self)).
  { apply Forall_forall. intros r Hr. destruct (Hvoids r Hr) as [Hrank Hcomp].
    destruct (csv_row_of_ok (composites self) r ltac:(lia))
      as (row & Hrow & Hk & _ & Hv & _ & Hyes & Hna & Hcell).
    exists row. split; [done|]. rewrite Hk, Hv. split.
    - intros Hlt. split; [by apply Hna|].
      destruct (c_composite row) eqn:Hc; [|done].
      destruct Hcell as [? _]; [done|lia].
    - intros Hge. destruct (Hcomp Hge) as [Hc Hv4]. split; [by apply Hyes|].
      clear Hcell. unfold csv_row_of in Hrow. cbv zeta in Hrow.
      destruct (Z.leb_spec 3 (r_k r)); [|lia].
      rewrite (getitem_ok _ _ (r_void r)) in Hrow by (done || lia).
      cbn [fmap result_fmap] in Hrow. rewrite bind_Ok in Hrow.
      injection Hrow as <-. cbn.
      by destruct (Z.eqb_spec (r_void r) 0); [lia|]. }
  destruct (export_rows_loop (csv_row_of (composites self)) _ _ [] Hall)
    as (rows & Hrun & Hrows).
  exists rows. split; [exact Hrun|]. split.
  - rewrite <- (Forall2_length _ _ _ Hrows), (layers_trace_length _ _ _ _ Htrace).
    by destruct Hps as [? _].
  - intros row Hrow. apply list_elem_of_lookup_1 in Hrow as [i Hi].
    destruct (Forall2_lookup_r _ _ _ _ _ Hrows Hi) as (r & _ & Hprops). exact Hprops.
Qed.

Lemma export_csv_all_yes_witness :
  (forall n, 6 <= n -> 2 <= (fun _ : Z => 51) n) /\ 0 <= 10
  /\ returns (fun fuel => LayerSystem_init (fun _ => 51) fuel 10)
       (fun self =>
          exists rows, export_csv self = Ok rows /\ length rows = Z.to_nat 10).
Proof.
  split; [intros; lia|]. split; [lia|].
  eapply returns_weaken;
    [|apply (export_csv_all_yes (fun _ => 51) 10); intros; lia].
  intros self (rows & Hrows & Hlen & _). by exists rows.
Defined.

(** ** The statistics on any records and on a constructed system *)

(** *** The float range

    Python raises [OverflowError] when the quotient of [int / int] or the
    result of [float ** 2] exceeds the largest float, which is just below
    2^1024.  The lemmas below bound these quantities for primes below
    2^53. *)

Lemma ln_lt_self (x : R) : (0 < x)%R -> (ln x < x)%R.
Proof.
  intros Hx. apply exp_lt_inv. rewrite exp_ln by done.
  pose proof (exp_ineq1 x ltac:(lra)). lra.
Qed.

Lemma ln_ge_half (x : R) : (2 <= x)%R -> (/ 2 < ln x)%R.
Proof.
  intros Hx. pose proof ln_lt_2 as H2.
  destruct (Req_dec_T x 2) as [->|Hne]; [done|].
  pose proof (ln_increasing 2 x ltac:(lra) ltac:(lra)). lra.
Qed.

Lemma ln_half_gt (y : R) : (/ 2 < y)%R -> (- 2 < ln y)%R.
Proof.
  intros Hy. pose proof (ln_increasing (/ 2) y ltac:(lra) Hy) as Hinc.
  rewrite ln_Rinv in Hinc by lra.
  pose proof (ln_lt_self 2 ltac:(lra)). lra.
Qed.

Lemma quotient_range (p s : Z) :
  0 < s -> 0 < p < 2 ^ 53 -> (0 < IZR p / IZR s < IZR (2 ^ 53))%R.
Proof.
  intros Hs [Hp0 Hp].
  assert (Hs1 : (1 <= IZR s)%R) by (apply (IZR_le 1); lia).
  apply (IZR_lt 0) in Hp0. apply IZR_lt in Hp.
  set (B := IZR (2 ^ 53)) in *. set (x := IZR p) in *. set (y := IZR s) in *.
  split.
  - apply Rdiv_lt_0_compat; lra.
  - apply (Rmult_lt_reg_r y); [lra|]. unfold Rdiv.
    rewrite Rmult_assoc, Rinv_l by lra. nra.
Qed.

(** The constant of a record with [sum > 0] and a prime between 2 and
    2^53 is below 2^159 in absolute value. *)
Lemma constant_of_range (r : record) :
  0 < r_sum r -> 1 < r_prime r < 2 ^ 53 ->
  (Rabs (constant_of r) < IZR (2 ^ 159))%R.
Proof.
  intros Hs [Hp1 Hp].
  destruct (quotient_range (r_prime r) (r_sum r) Hs ltac:(lia)) as [Hq0 Hq].
  assert (HB : (1 <= IZR (2 ^ 53))%R) by (apply (IZR_le 1); lia).
  assert (Hx2 : (2 <= IZR (r_prime r))%R) by (apply (IZR_le 2); lia).
  assert (HxB : (IZR (r_prime r) < IZR (2 ^ 53))%R) by (by apply IZR_lt).
  pose proof (ln_ge_half _ Hx2) as Hln.
  pose proof (ln_lt_self (IZR (r_prime r)) ltac:(lra)) as Hln'.
  pose proof (ln_half_gt _ Hln) as Hlnln.
  pose proof (ln_lt_self (ln (IZR (r_prime r))) ltac:(lra)) as Hlnln'.
  assert (H2B : (2 < IZR (2 ^ 53))%R) by (apply (IZR_lt 2); lia).
  unfold constant_of.
  set (B := IZR (2 ^ 53)) in *.
  set (q := (IZR (r_prime r) / IZR (r_sum r))%R) in *.
  set (l := ln (IZR (r_prime r))) in *. set (ll := ln l) in *.
  replace (IZR (2 ^ 159)) with (B * B * B)%R.
  2:{ unfold B. rewrite <- !mult_IZR. f_equal. }
  rewrite !Rabs_mult.
  assert (Ha : (Rabs (q - 1) < B)%R) by (apply Rabs_def1; lra).
  assert (Hb : (Rabs l < B)%R) by (apply Rabs_def1; lra).
  assert (Hc : (Rabs ll < B)%R) by (apply Rabs_def1; lra).
  pose proof (Rabs_pos (q - 1)). pose proof (Rabs_pos l). pose proof (Rabs_pos ll).
  apply Rmult_le_0_lt_compat; [|done| |done].
  - by apply Rmult_le_pos.
  - by apply Rmult_le_0_lt_compat.
Qed.

Lemma py_sum_range (cs : list R) (M : R) :
  Forall (fun c => (Rabs c <= M)%R) cs -> (Rabs (py_sum cs) <= IZR (len cs) * M)%R.
Proof.
  induction 1 as [|c cs Hc _ IH].
  { change (py_sum []) with 0%R. change (IZR (len (@nil R))) with 0%R.
    rewrite Rabs_R0. lra. }
  replace (py_sum (c :: cs)) with (c + py_sum cs)%R.
  2:{ unfold py_sum at 2. simpl. rewrite (py_sum_from cs (0 + c)). lra. }
  replace (len (c :: cs)) with (1 + len cs) by (unfold len; simpl; lia).
  rewrite plus_IZR. pose proof (Rabs_triang c (py_sum cs)) as Htri. lra.
Qed.

Lemma average_range (c : R) (cs : list R) (M : R) :
  Forall (fun c => (Rabs c <= M)%R) (c :: cs) ->
  (Rabs (py_sum (c :: cs) / IZR (len (c :: cs))) <= M)%R.
Proof.
  intros Hall. pose proof (py_sum_range _ _ Hall) as Hsum.
  pose proof (len_cons_pos c cs) as Hlen.
  unfold Rdiv. rewrite Rabs_mult, (Rabs_right (/ _)).
  2:{ apply Rle_ge, Rlt_le, Rinv_0_lt_compat, Hlen. }
  apply (Rmult_le_reg_r (IZR (len (c :: cs)))); [done|].
  rewrite Rmult_assoc, Rinv_l by lra. lra.
Qed.

Lemma square_range (c avg M : R) :
  (Rabs c <= M)%R -> (Rabs avg <= M)%R -> ((c - avg) ^ 2 <= 4 * M * M)%R.
Proof.
  intros Hc Havg.
  pose proof (Rle_abs c) as Hc1. pose proof (Rle_abs (- c)) as Hc2.
  pose proof (Rle_abs avg) as Ha1. pose proof (Rle_abs (- avg)) as Ha2.
  rewrite Rabs_Ropp in Hc2, Ha2.
  assert (Hd : (- (2 * M) <= c - avg <= 2 * M)%R) by lra.
  simpl. nra.
Qed.

(** X14. With a threshold of 1 or more, as with the default 1000, and
    qualifying primes below 2^53, [calculate_constant] never raises.  Both
    logarithms are taken of numbers above 1/2 and the lists it divides by
    are not empty; every quotient [prime / sum] lies between 0 and 2^53,
    every constant is below 2^159 in absolute value and every squared
    deviation is at most 2^320, far inside the float range, so that
    neither [int / int] nor [** 2] overflows.  It returns the average of
    the constants of the records with [prime > min_prime] and [sum > 0],
    and 0.0 when no record qualifies. *)
Theorem calculate_constant_total (self : LayerSystem) (min_prime : Z) :
  1 <= min_prime ->
  Forall (fun r => qualifies min_prime r = true -> r_prime r < 2 ^ 53)
         (results self) ->
  let qualifying := List.filter (qualifies min_prime) (results self) in
  let constants := map constant_of qualifying in
  let avg :=
    match constants with
    | [] => 0%R
    | _ :: _ => (py_sum constants / IZR (len constants))%R
    end in
  calculate_constant self min_prime = Ok avg
  /\ Forall (fun r => (0 < IZR (r_prime r) / IZR (r_sum r) < IZR (2 ^ 53))%R)
            qualifying
  /\ Forall (fun c => (Rabs c < IZR (2 ^ 159))%R) constants
  /\ Forall (fun c => ((c - avg) ^ 2 <= IZR (2 ^ 320))%R) constants
  /\ (Forall (fun r => r_prime r <= min_prime \/ r_sum r <= 0) (results self) ->
      calculate_constant self min_prime = Ok 0%R).
Proof.
  intros Hmp Hrange qualifying constants avg.
  assert (Hgood : Forall (fun r => qualifies min_prime r = true -> 1 < r_prime r)
                    (results self)).
  { apply Forall_forall. intros r _ Hq. unfold qualifies in Hq.
    apply andb_true_iff in Hq as [Hq%Z.ltb_lt _]. lia. }
  pose proof (collect_constants_ok self min_prime Hgood) as Hcs.
  fold qualifying constants in Hcs.
  pose proof (calculate_constant_of_constants self min_prime constants Hcs) as Hrun.
  fold avg in Hrun.
  assert (Hqual : Forall (fun r => 0 < r_sum r /\ 1 < r_prime r < 2 ^ 53) qualifying).
  { apply Forall_forall. intros r Hr.
    apply list_elem_of_In, filter_In in Hr as [Hr%list_elem_of_In Hq].
    rewrite Forall_forall in Hrange. pose proof (Hrange r Hr Hq).
    unfold qualifies in Hq.
    apply andb_true_iff in Hq as [Hp%Z.ltb_lt Hs%Z.ltb_lt]. lia. }
  assert (Hcs159 : Forall (fun c => (Rabs c < IZR (2 ^ 159))%R) constants).
  { unfold constants. apply Forall_fmap. eapply Forall_impl; [exact Hqual|].
    intros r [Hs Hp]. by apply constant_of_range. }
  split; [exact Hrun|]. split.
  { eapply Forall_impl; [exact Hqual|]. intros r [Hs Hp]. simpl.
    apply quotient_range; lia. }
  split; [exact Hcs159|]. split.
  { assert (Hle : Forall (fun c => (Rabs c <= IZR (2 ^ 159))%R) constants).
    { eapply Forall_impl; [exact Hcs159|]. intros c Hc. simpl in Hc. lra. }
    assert (Havg : (Rabs avg <= IZR (2 ^ 159))%R).
    { unfold avg. destruct constants as [|c cs]; [|by apply average_range].
      rewrite Rabs_R0. apply (IZR_le 0). lia. }
    eapply Forall_impl; [exact Hle|]. intros c Hc. simpl in Hc.
    replace (IZR (2 ^ 320)) with (4 * IZR (2 ^ 159) * IZR (2 ^ 159))%R.
    - by apply square_range.
    - rewrite <- !mult_IZR. f_equal. }
  intros Hnone. rewrite Hrun. unfold avg.
  replace constants with (@nil R); [done|]. unfold constants, qualifying.
  rewrite (filter_none (qualifies min_prime) (results self)); [done|].
  eapply Forall_impl; [exact Hnone|]. intros r Hr. simpl in Hr. unfold qualifies.
  destruct (Z.ltb_spec min_prime (r_prime r)), (Z.ltb_spec 0 (r_sum r)); try done. lia.
Qed.

(** On the first 10 primes with the threshold 1: the ten records qualify,
    their constants are within the range and a value is returned. *)
Lemma calculate_constant_total_witness :
  1 <= 1
  /\ Forall (fun r => qualifies 1 r = true -> r_prime r < 2 ^ 53)
            (results system_of_10)
  /\ length (List.filter (qualifies 1) (results system_of_10)) = 10%nat
  /\ Forall (fun c => (Rabs c < IZR (2 ^ 159))%R)
            (map constant_of (List.filter (qualifies 1) (results system_of_10)))
  /\ exists c, calculate_constant system_of_10 1 = Ok c.
Proof.
  assert (Hrange : Forall (fun r => qualifies 1 r = true -> r_prime r < 2 ^ 53)
                     (results system_of_10)).
  { repeat constructor; simpl; lia. }
  destruct (calculate_constant_total system_of_10 1 ltac:(lia) Hrange)
    as (Hrun & _ & Hcs & _).
  split; [lia|]. split; [exact Hrange|]. split; [reflexivity|].
  split; [exact Hcs|]. eexists. exact Hrun.
Defined.

(** X15. On the system of the first [n] primes [calculate_constant]
    returns for every threshold, negative ones included: every prime is
    at least 2, so both logarithms are defined. *)
Theorem calculate_constant_on_system (log_bound : Z -> Z) (n : Z) :
  (forall n, 6 <= n -> 2 <= log_bound n) -> 0 <= n ->
  returns (fun fuel => LayerSystem_init log_bound fuel n)
    (fun self => forall min_prime, exists c, calculate_constant self min_prime = Ok c).
Proof.
  intros Hlb Hn.
  eapply returns_weaken; [|apply (LayerSystem_init_returns log_bound Hlb n); lia].
  intros self (_ & Hps & _ & Htrace) min_prime.
  destruct (first_of_sorted_primes _ _ Hps) as [_ Hp]. rewrite Forall_forall in Hp.
  assert (Hgood : Forall (fun r => qualifies min_prime r = true -> 1 < r_prime r)
                    (results self)).
  { apply Forall_forall. intros r Hr _.
    assert (Hin : r_prime r ∈ primes self).
    { rewrite <- (layers_trace_primes _ _ _ _ Htrace). by apply list_elem_of_fmap_2. }
    pose proof (Z.prime_ge_2 _ (Hp _ Hin)). lia. }
  eexists. apply calculate_constant_of_constants. by apply collect_constants_ok.
Qed.

Lemma calculate_constant_on_system_witness :
  (forall n, 6 <= n -> 2 <= (fun _ : Z => 51) n) /\ 0 <= 10
  /\ returns (fun fuel => LayerSystem_init (fun _ => 51) fuel 10)
       (fun self => forall min_prime, exists c, calculate_constant self min_prime = Ok c).
Proof.
  split; [intros; lia|]. split; [lia|].
  apply (calculate_constant_on_system (fun _ => 51) 10); intros; lia.
Defined.

(** ** Analysis by magnitude *)

Lemma CUNHA_CONSTANT_pos : (0 < CUNHA_CONSTANT)%R.
Proof. unfold CUNHA_CONSTANT. pose proof (sqrt_pos 2). lra. Qed.

Lemma window_constant_step_ok (constants : list R) (r : record) :
  window_constant_step constants r
  = Ok (if (0 <? r_sum r) && (10 <? r_prime r)
        then constants ++ [constant_of r] else constants).
Proof.
  unfold window_constant_step. cbv zeta.
  destruct ((0 <? r_sum r) && (10 <? r_prime r)) eqn:Hq; [|done].
  apply andb_true_iff in Hq as [Hs%Z.ltb_lt Hp%Z.ltb_lt].
  apply (IZR_lt 10) in Hp.
  rewrite py_log_ok, bind_Ok by lra.
  rewrite py_log_ok, bind_Ok by (apply ln_pos; lra).
  rewrite py_fdiv_ok, bind_Ok by (apply not_0_IZR; lia). done.
Qed.

Lemma window_constants_ok (relevant : list record) (constants : list R) :
  foldM window_constant_step relevant constants
  = Ok (constants
        ++ map constant_of
             (List.filter (fun r => (0 <? r_sum r) && (10 <? r_prime r)) relevant)).
Proof.
  revert constants. induction relevant as [|r relevant IH]; intros constants;
    cbn [foldM List.filter].
  { simpl. by rewrite app_nil_r. }
  rewrite window_constant_step_ok, bind_Ok.
  destruct ((0 <? r_sum r) && (10 <? r_prime r)); rewrite IH; [|done].
  simpl. by rewrite <- app_assoc.
Qed.

(** The integer sum of the primes in a window, divided by their number:
    below 2^53 in absolute value when the primes are. *)
Lemma int_sum_range (l : list Z) (B a : Z) :
  Forall (fun x => Z.abs x < B) l ->
  Z.abs (fold_left Z.add l a) <= Z.abs a + len l * (B - 1).
Proof.
  intros Hall. revert a. induction Hall as [|x l Hx _ IH]; intros a.
  { unfold len. simpl. lia. }
  cbn [fold_left]. specialize (IH (a + x)).
  replace (len (x :: l)) with (1 + len l) by (unfold len; simpl; lia). lia.
Qed.

Lemma avg_prime_range (r : record) (rel : list record) :
  Forall (fun r => Z.abs (r_prime r) < 2 ^ 53) (r :: rel) ->
  (Rabs (IZR (fold_left Z.add (map r_prime (r :: rel)) 0%Z) / IZR (len (r :: rel)))
   < IZR (2 ^ 53))%R.
Proof.
  intros Hall.
  assert (Hsum : Z.abs (fold_left Z.add (map r_prime (r :: rel)) 0)
                 <= len (r :: rel) * (2 ^ 53 - 1)).
  { pose proof (int_sum_range (map r_prime (r :: rel)) (2 ^ 53) 0) as Hs.
    unfold len in *. rewrite length_map in Hs. simpl Z.abs in Hs. apply Hs.
    clear Hs. apply Forall_forall. intros x Hx.
    apply list_elem_of_In, in_map_iff in Hx as (r' & <- & Hr'%list_elem_of_In).
    rewrite Forall_forall in Hall. by apply Hall. }
  pose proof (len_cons_pos r rel) as Hlen.
  set (S := fold_left Z.add (map r_prime (r :: rel)) 0) in *.
  set (N := len (r :: rel)) in *.
  assert (Hhi : (IZR S <= IZR N * (IZR (2 ^ 53) - 1))%R).
  { rewrite <- (minus_IZR _ 1), <- mult_IZR. apply IZR_le. lia. }
  assert (Hlo : (- (IZR N * (IZR (2 ^ 53) - 1)) <= IZR S)%R).
  { rewrite <- (minus_IZR _ 1), <- mult_IZR, <- opp_IZR. apply IZR_le. lia. }
  apply Rabs_def1.
  - apply (Rmult_lt_reg_r (IZR N)); [done|]. unfold Rdiv.
    rewrite Rmult_assoc, Rinv_l by lra. nra.
  - apply (Rmult_lt_reg_r (IZR N)); [done|]. unfold Rdiv.
    rewrite Rmult_assoc, Rinv_l by lra. nra.
Qed.

(** One checkpoint either leaves the analysis as it is or appends one
    entry for it; it appends only for a checkpoint up to [n_primes], whose
    window is then not empty. *)
Lemma analyze_step_cases (self : LayerSystem) (analysis : list magnitude_entry)
  (mag : Z) :
  analyze_step self analysis mag = Ok analysis
  \/ (mag <= n_primes self
      /\ exists e r rel,
           analyze_step self analysis mag = Ok (analysis ++ [e])
           /\ a_k e = mag
           /\ List.filter (in_window mag) (results self) = r :: rel
           /\ a_avg_prime e
              = (IZR (fold_left Z.add (map r_prime (r :: rel)) 0%Z)
                 / IZR (len (r :: rel)))%R).
Proof.
  unfold analyze_step. destruct (Z.ltb_spec (n_primes self) mag) as [|Hmag]; [by left|].
  cbv zeta. destruct (List.filter (in_window mag) (results self)) as [|r rel] eqn:Hrel;
    [by left|].
  rewrite py_fdiv_ok, bind_Ok by apply len_cons_neq_0.
  rewrite window_constants_ok, bind_Ok. cbn [app].
  destruct (map constant_of
              (List.filter (fun r0 => (0 <? r_sum r0) && (10 <? r_prime r0)) (r :: rel)))
    as [|c cs] eqn:Hcs; [by left|].
  right. split; [done|].
  rewrite py_fdiv_ok, bind_Ok by apply len_cons_neq_0.
  rewrite py_fdiv_ok, bind_Ok by (pose proof CUNHA_CONSTANT_pos; lra).
  eexists _, r, rel. split; [done|]. done.
Qed.

Lemma analyze_loop (self : LayerSystem) (mags : list Z)
  (analysis : list magnitude_entry) :
  Forall (fun r => Z.abs (r_prime r) < 2 ^ 53) (results self) ->
  exists new,
    foldM (analyze_step self) mags analysis = Ok (analysis ++ new)
    /\ a_k <$> new `sublist_of` List.filter (fun mag => mag <=? n_primes self) mags
    /\ Forall (fun e => (Rabs (a_avg_prime e) < IZR (2 ^ 53))%R) new.
Proof.
  intros Hrange. revert analysis.
  induction mags as [|mag mags IH]; intros analysis; cbn [foldM].
  { exists []. by rewrite app_nil_r. }
  cbn [List.filter].
  destruct (analyze_step_cases self analysis mag)
    as [->|(Hmag & e & r & rel & -> & He & Hrel & Havg)].
  - rewrite bind_Ok. destruct (IH analysis) as (new & -> & Hsub & Hnew).
    exists new. split; [done|]. split; [|done].
    destruct (mag <=? n_primes self); [|done]. by apply sublist_cons.
  - rewrite bind_Ok. destruct (IH (analysis ++ [e])) as (new & -> & Hsub & Hnew).
    exists (e :: new). split; [by rewrite <- app_assoc|]. split.
    + destruct (Z.leb_spec mag (n_primes self)); [|lia].
      rewrite fmap_cons, He. by apply sublist_skip.
    + constructor; [|done]. rewrite Havg. apply avg_prime_range.
      rewrite <- Hrel. apply Forall_forall. intros r' Hr'.
      apply list_elem_of_In, filter_In in Hr' as [Hr'%list_elem_of_In _].
      rewrite Forall_forall in Hrange. by apply Hrange.
Qed.

(** X16. On any system whose primes are below 2^53 in absolute value,
    [analyze_ratio] never raises.  Every list whose length it divides by
    is checked to be non-empty, and the guard [p > 10] keeps both
    logarithms defined; the average prime of a window is below 2^53 in
    absolute value and the quotient [prime / sum] of a record that passes
    the guard lies between 0 and 2^53, so that neither [int / int]
    overflows.  The checkpoints it reports are, in order, some of the
    seven magnitudes that do not exceed [n_primes]; in particular nothing
    is reported when [n_primes < 100]. *)
Theorem analyze_ratio_total (self : LayerSystem) :
  Forall (fun r => Z.abs (r_prime r) < 2 ^ 53) (results self) ->
  exists analysis,
    analyze_ratio self = Ok analysis
    /\ a_k <$> analysis
       `sublist_of` List.filter (fun mag => mag <=? n_primes self) magnitudes
    /\ (n_primes self < 100 -> analysis = [])
    /\ Forall (fun e => (Rabs (a_avg_prime e) < IZR (2 ^ 53))%R) analysis
    /\ Forall (fun r => 0 < r_sum r -> 10 < r_prime r ->
                 (0 < IZR (r_prime r) / IZR (r_sum r) < IZR (2 ^ 53))%R)
              (results self).
Proof.
  intros Hrange.
  destruct (analyze_loop self magnitudes [] Hrange) as (analysis & Hrun & Hsub & Havg).
  exists analysis. split; [exact Hrun|]. split; [done|]. split.
  { intros Hn. unfold magnitudes in Hsub. cbn [List.filter] in Hsub.
    repeat match type of Hsub with
           | context [?m <=? n_primes self] =>
               destruct (Z.leb_spec m (n_primes self)); [lia|]
           end.
    apply sublist_nil_r in Hsub. by apply fmap_nil_inv in Hsub. }
  split; [done|].
  eapply Forall_impl; [exact Hrange|]. intros r Hr Hs Hp. simpl in Hr.
  apply quotient_range; lia.
Qed.

(** On the first 10 primes no checkpoint is reached and the analysis is
    empty. *)
Lemma analyze_ratio_total_witness :
  Forall (fun r => Z.abs (r_prime r) < 2 ^ 53) (results system_of_10)
  /\ analyze_ratio system_of_10 = Ok [].
Proof.
  assert (Hrange : Forall (fun r => Z.abs (r_prime r) < 2 ^ 53) (results system_of_10)).
  { repeat constructor. }
  split; [exact Hrange|].
  destruct (analyze_ratio_total system_of_10 Hrange) as (analysis & Hrun & _ & Hsmall & _).
  rewrite (Hsmall eq_refl) in Hrun. exact Hrun.
Defined.

Lemma sorted_primes_lower_bound (ps : list Z) (i : nat) (p : Z) :
  StronglySorted Z.lt ps -> Forall Z.prime ps -> ps !! i = Some p ->
  Z.of_nat i + 2 <= p.
Proof.
  intros Hs Hp. rewrite Forall_forall in Hp. revert p.
  induction i as [|i IH]; intros p Hi.
  - pose proof (Z.prime_ge_2 p (Hp p (list_elem_of_lookup_2 _ _ _ Hi))). lia.
  - destruct (lookup_lt_is_Some_2 ps i) as [q Hq]; [apply lookup_lt_Some in Hi; lia|].
    specialize (IH q Hq).
    pose proof (sorted_lookup_lt ps i (S i) q p Hs ltac:(lia) Hq Hi). lia.
Qed.

Lemma filter_nonempty {A : Type} (f : A -> bool) (l : list A) (x : A) :
  x ∈ l -> f x = true -> List.filter f l <> [].
Proof.
  intros Hx Hf Hnil.
  assert (Hin : In x (List.filter f l)) by (apply filter_In; by rewrite <- list_elem_of_In).
  by rewrite Hnil in Hin.
Qed.

Lemma in_window_rank (mag : Z) (r : record) :
  100 <= mag -> in_window mag r = true -> 90 <= r_k r <= mag.
Proof.
  intros Hmag. unfold in_window. intros [Hlow Hhigh%Z.leb_le]%andb_true_iff.
  split; [|done]. destruct (Rle_dec (IZR mag * (9 / 10)) (IZR (r_k r))) as [Hle|]; [|done].
  apply (IZR_le 100) in Hmag. apply le_IZR. lra.
Qed.

Lemma in_window_top (mag : Z) (r : record) :
  0 <= mag -> r_k r = mag -> in_window mag r = true.
Proof.
  intros Hmag Hk. unfold in_window. rewrite Hk, Z.leb_refl, andb_true_r.
  apply (IZR_le 0) in Hmag.
  destruct (Rle_dec (IZR mag * (9 / 10)) (IZR mag)) as [|Hn]; [done|]. destruct Hn. lra.
Qed.

Lemma analyze_step_skip (self : LayerSystem) (analysis : list magnitude_entry)
  (mag : Z) :
  n_primes self < mag -> analyze_step self analysis mag = Ok analysis.
Proof.
  intros Hmag. unfold analyze_step. by destruct (Z.ltb_spec (n_primes self) mag); [|lia].
Qed.

Section GenuineAnalysis.

Variable self : LayerSystem.
Hypothesis ranks : forall (i : nat) (r : record),
  results self !! i = Some r -> r_k r = 1 + Z.of_nat i.
Hypothesis all_records : Z.of_nat (length (results self)) = n_primes self.
Hypothesis positive : forall r, r ∈ results self ->
  0 < r_sum r /\ r_k r + 1 <= r_prime r.

(** On such a system every checkpoint up to [n_primes] is reported. *)
Lemma analyze_step_reports (analysis : list magnitude_entry) (mag : Z) :
  100 <= mag <= n_primes self ->
  exists e, analyze_step self analysis mag = Ok (analysis ++ [e]) /\ a_k e = mag.
Proof.
  intros Hmag. unfold analyze_step.
  destruct (Z.ltb_spec (n_primes self) mag); [lia|]. cbv zeta.
  destruct (lookup_lt_is_Some_2 (results self) (Z.to_nat (mag - 1))) as [top Htop]; [lia|].
  assert (Hwin : List.filter (in_window mag) (results self) <> []).
  { apply (filter_nonempty _ _ top); [by eapply list_elem_of_lookup_2|].
    apply in_window_top; [lia|]. rewrite (ranks _ _ Htop). lia. }
  assert (Hguard : Forall (fun r => (0 <? r_sum r) && (10 <? r_prime r) = true)
                     (List.filter (in_window mag) (results self))).
  { apply Forall_forall. intros r Hr.
    apply list_elem_of_In, filter_In in Hr as [Hr%list_elem_of_In Hw].
    destruct (positive r Hr) as [Hs Hp].
    pose proof (in_window_rank mag r ltac:(lia) Hw).
    apply andb_true_iff. split; [apply Z.ltb_lt|apply Z.ltb_lt]; lia. }
  destruct (List.filter (in_window mag) (results self)) as [|r rel] eqn:Hrel; [done|].
  rewrite py_fdiv_ok, bind_Ok by apply len_cons_neq_0.
  rewrite window_constants_ok, bind_Ok. cbn [app].
  rewrite (filter_all _ _ Hguard). cbn [map].
  rewrite py_fdiv_ok, bind_Ok by apply len_cons_neq_0.
  rewrite py_fdiv_ok, bind_Ok by (pose proof CUNHA_CONSTANT_pos; lra).
  eexists. split; [done|]. done.
Qed.

Lemma analyze_loop_reports (mags : list Z) (analysis : list magnitude_entry) :
  Forall (fun mag => 100 <= mag) mags ->
  exists new,
    foldM (analyze_step self) mags analysis = Ok (analysis ++ new)
    /\ a_k <$> new = List.filter (fun mag => mag <=? n_primes self) mags.
Proof.
  intros Hmags. revert analysis.
  induction Hmags as [|mag mags Hmag _ IH]; intros analysis; cbn [foldM List.filter].
  { exists []. by rewrite app_nil_r. }
  destruct (Z.leb_spec mag (n_primes self)) as [Hle|Hgt].
  - destruct (analyze_step_reports analysis mag ltac:(lia)) as (e & -> & He).
    rewrite bind_Ok. destruct (IH (analysis ++ [e])) as (new & -> & Hnew).
    exists (e :: new). split; [by rewrite <- app_assoc|].
    by rewrite fmap_cons, He, Hnew.
  - rewrite (analyze_step_skip self analysis mag Hgt), bind_Ok. apply IH.
Qed.

End GenuineAnalysis.

(** X17. On the system of the first [n] primes [analyze_ratio] reports
    exactly the magnitudes that do not exceed [n], in order: the window of
    ranks between [0.9 * mag] and [mag] is never empty, and every record in
    it has a positive sum and a prime above 10. *)
Theorem analyze_ratio_on_system (log_bound : Z -> Z) (n : Z) :
  (forall n, 6 <= n -> 2 <= log_bound n) -> 0 <= n ->
  returns (fun fuel => LayerSystem_init log_bound fuel n)
    (fun self =>
       exists analysis,
         analyze_ratio self = Ok analysis
         /\ a_k <$> analysis = List.filter (fun mag => mag <=? n) magnitudes).
Proof.
  intros Hlb Hn.
  eapply returns_weaken; [|apply (LayerSystem_init_returns log_bound Hlb n); lia].
  intros self (Hnp & Hps & _ & Htrace).
  destruct (first_of_sorted_primes _ _ Hps) as [Hs Hp].
  pose proof (layers_trace_length _ _ _ _ Htrace) as Hlen.
  pose proof (layers_trace_sum _ _ _ _ Htrace) as Hsum. rewrite Forall_forall in Hsum.
  assert (Hlt : Forall (fun r => 1 <= r_void r < r_prime r) (results self)).
  { apply (layers_trace_void_lt ∅ 1 (primes self) _ 0 Htrace); [lia| |done|done|].
    - intros x Hx. by apply not_elem_of_empty in Hx.
    - eapply Forall_impl; [exact Hp|]. intros p Hpp. simpl.
      pose proof (Z.prime_ge_2 p Hpp). lia. }
  rewrite Forall_forall in Hlt.
  destruct (analyze_loop_reports self) with (mags := magnitudes) (analysis := @nil magnitude_entry)
    as (analysis & Hrun & Hkeys).
  - intros i r Hi. by apply (layers_trace_ranks _ _ _ _ _ _ Htrace).
  - rewrite Hlen, Hnp. destruct Hps as [-> _]. lia.
  - intros r Hr. destruct (Hsum r Hr) as [Hs' _]. specialize (Hlt r Hr).
    split; [lia|]. apply list_elem_of_lookup_1 in Hr as [i Hi].
    destruct (layers_trace_at _ _ _ _ _ _ Htrace Hi) as (p & Hpi & _ & _ & Hrec & _).
    pose proof (sorted_primes_lower_bound _ _ _ Hs Hp Hpi). rewrite Hrec. simpl. lia.
  - unfold magnitudes. repeat constructor; lia.
  - exists analysis. split; [exact Hrun|]. by rewrite Hkeys, Hnp.
Qed.

Lemma analyze_ratio_on_system_witness :
  (forall n, 6 <= n -> 2 <= (fun _ : Z => 647) n) /\ 0 <= 100
  /\ returns (fun fuel => LayerSystem_init (fun _ => 647) fuel 100)
       (fun self =>
          exists analysis,
            analyze_ratio self = Ok analysis
            /\ a_k <$> analysis = List.filter (fun mag => mag <=? 100) magnitudes).
Proof.
  split; [intros; lia|]. split; [lia|].
  apply (analyze_ratio_on_system (fun _ => 647) 100); intros; lia.
Defined.

(** Over the reals the window test is the integer test
    [9 * mag <= 10 * k <= 10 * mag]. *)
Lemma in_window_spec (mag : Z) (r : record) :
  in_window mag r = true <-> 9 * mag <= 10 * r_k r /\ r_k r <= mag.
Proof.
  unfold in_window. rewrite andb_true_iff, Z.leb_le.
  destruct (Rle_dec (IZR mag * (9 / 10)) (IZR (r_k r))) as [Hle|Hgt].
  - split; [|tauto]. intros [_ Hk]. split; [|done].
    apply le_IZR. rewrite !mult_IZR. lra.
  - split; [intros [? _]; done|]. intros [Hk _]. destruct Hgt.
    apply IZR_le in Hk. rewrite !mult_IZR in Hk. lra.
Qed.

(** The float products [mag * 0.9] of the program are these integers
    exactly, so that the real and the float window tests agree on integer
    ranks. *)
Example window_bounds_float :
  map (fun mag => PrimFloat.mul (float_of_Z mag) 0x1.ccccccccccccdp-1%float)
      magnitudes
  = [90; 450; 900; 4500; 9000; 45000; 90000]%float.
Proof. vm_compute. reflexivity. Qed.

(** ** Edge inputs of the engine and of the constructor *)

(** X18. On any list of integers, prime or not, ordered or not, the
    engine returns one record per element, in order, with the ranks 1, 2,
    3, ... and a void that is at least 1. *)
Theorem compute_layers_aligned (ps : list Z) :
  returns (fun fuel => _compute_layers fuel ps)
    (fun recs =>
       r_prime <$> recs = ps
       /\ forall (i : nat) (r : record),
            recs !! i = Some r -> r_k r = 1 + Z.of_nat i /\ 1 <= r_void r).
Proof.
  eapply returns_weaken; [|apply compute_layers_returns].
  intros recs Htrace. split; [by apply (layers_trace_primes _ _ _ _ Htrace)|].
  intros i r Hi. split; [by apply (layers_trace_ranks _ _ _ _ _ _ Htrace)|].
  pose proof (layers_trace_void_positive _ _ _ _ Htrace) as Hpos.
  rewrite Forall_forall in Hpos. apply Hpos. by eapply list_elem_of_lookup_2.
Qed.

(** X19. A request for no prime, [n_primes <= 0], is not an error: with
    any fuel and any bound estimate the constructor returns the empty
    system, on which the bijection check, the constant, the analysis by
    magnitude and the export return their empty results. *)
Theorem empty_system (log_bound : Z -> Z) (fuel : nat) (n : Z) :
  n <= 0 ->
  let self := mk_LayerSystem n [] [] [] in
  LayerSystem_init log_bound fuel n = Ok self
  /\ verify_bijection self = Ok (mk_verification 0 0 0%float [])
  /\ (forall min_prime, calculate_constant self min_prime = Ok 0%R)
  /\ analyze_ratio self = Ok []
  /\ export_csv self = Ok []
  /\ (forall k, get_decomposition self k = Ok None).
Proof.
  intros Hn self. split; [|split; [|split; [|split; [|split]]]].
  - unfold LayerSystem_init, generate_primes, generate_composites.
    by destruct (Z.leb_spec n 0); [|lia].
  - reflexivity.
  - intros min_prime. reflexivity.
  - unfold analyze_ratio, magnitudes. cbn [foldM].
    rewrite !analyze_step_skip, ?bind_Ok by (simpl; lia).
    repeat (rewrite ?bind_Ok, analyze_step_skip by (simpl; lia)). done.
  - reflexivity.
  - intros k. rewrite get_decomposition_lookup. unfold len. simpl.
    by destruct ((1 <=? k) && (k <=? Z.of_nat 0)).
Qed.

Lemma empty_system_witness :
  0 <= 0 /\ LayerSystem_init (fun _ => 51) 0 0 = Ok (mk_LayerSystem 0 [] [] []).
Proof.
  split; [lia|]. apply (empty_system (fun _ => 51) 0 0). lia.
Defined.
